(** * cursor2api: the streaming translator and its text classifiers

    A shallow embedding of [internal/handler/anthropic.go] and
    [internal/tools/intent.go].  Go strings are byte sequences; the Go
    standard-library functions the two files call ([strings], [unicode/utf8],
    [regexp]) are modelled in modules that carry the Go package names, the
    services that live outside the two files (tool-call parser, executor,
    JSON decoder, UUID source, Unicode case table) are fields of a record
    that every handler function receives.  The request side of the handler
    ([convertToCursor] and its helpers, [CountTokens], [Messages]) is in
    module [anthropic], with the structures of package [browser] that it
    fills. *)

From Stdlib Require Import Strings.Byte Strings.String Numbers.DecimalString.
From Stdlib Require Import List ZArith Lia Bool Arith.
Import ListNotations.

Set Implicit Arguments.

(** ** Go strings *)

(** A Go [string] is an immutable sequence of bytes. *)
Definition gostring : Type := list byte.

(** A literal of the source text, as its UTF-8 bytes. *)
Definition lit (s : string) : gostring := list_byte_of_string s.
Arguments lit : simpl never.

(** The double quote, and a literal in which [^] stands for it. *)
Definition dq : byte := "034"%byte.

Definition q (s : string) : gostring :=
  map (fun b => if Byte.eqb b "^"%byte then dq else b) (lit s).

Definition byteZ (b : byte) : Z := Z.of_N (Byte.to_N b).

(** The line terminator ["\n"] and the other control bytes of the sources. *)
Definition NL : byte := "010"%byte.

Fixpoint bytes_eqb (a b : gostring) : bool :=
  match a, b with
  | [], [] => true
  | x :: a', y :: b' => Byte.eqb x y && bytes_eqb a' b'
  | _, _ => false
  end.

Definition is_empty (s : gostring) : bool :=
  match s with [] => true | _ => false end.

(** ** Package [unicode/utf8] *)
Module utf8.

Local Open Scope Z_scope.

Definition RuneError : Z := 0xFFFD.
Definition RuneSelf : Z := 0x80.
Definition MaxRune : Z := 0x10FFFF.
Definition UTFMax : nat := 4.

Definition surrogateMin : Z := 0xD800.
Definition surrogateMax : Z := 0xDFFF.

Definition rune1Max : Z := 0x7F.
Definition rune2Max : Z := 0x7FF.
Definition rune3Max : Z := 0xFFFF.

Definition tx : Z := 0x80.
Definition t2 : Z := 0xC0.
Definition t3 : Z := 0xE0.
Definition t4 : Z := 0xF0.

Definition maskx : Z := 0x3F.
Definition mask2 : Z := 0x1F.
Definition mask3 : Z := 0x0F.
Definition mask4 : Z := 0x07.

Definition locb : Z := 0x80.
Definition hicb : Z := 0xBF.

(** The entries of the [first] table: size in the low three bits, index
    into [acceptRanges] in the high four. *)
Definition xx : Z := 0xF1.
Definition as_ : Z := 0xF0.
Definition s1 : Z := 0x02.
Definition s2 : Z := 0x13.
Definition s3 : Z := 0x03.
Definition s4 : Z := 0x23.
Definition s5 : Z := 0x34.
Definition s6 : Z := 0x04.
Definition s7 : Z := 0x44.

Definition first (b : Z) : Z :=
  if b <? 0x80 then as_
  else if b <? 0xC2 then xx
  else if b <? 0xE0 then s1
  else if b =? 0xE0 then s2
  else if b <? 0xED then s3
  else if b =? 0xED then s4
  else if b <? 0xF0 then s3
  else if b =? 0xF0 then s5
  else if b <? 0xF4 then s6
  else if b =? 0xF4 then s7
  else xx.

Definition acceptRanges (i : Z) : Z * Z :=
  if i =? 0 then (locb, hicb)
  else if i =? 1 then (0xA0, hicb)
  else if i =? 2 then (locb, 0x9F)
  else if i =? 3 then (0x90, hicb)
  else if i =? 4 then (locb, 0x8F)
  else (0, 0).

Definition out_of (lo hi v : Z) : bool := (v <? lo) || (hi <? v).

(** [DecodeRuneInString]: the first rune of [s] and its width in bytes;
    [(RuneError, 0)] on the empty string and [(RuneError, 1)] on a byte
    that starts no valid encoding. *)
Definition DecodeRuneInString (s : gostring) : Z * nat :=
  match s with
  | [] => (RuneError, 0%nat)
  | b0 :: r0 =>
      let c0 := byteZ b0 in
      let x := first c0 in
      if as_ <=? x then
        ((if x =? as_ then c0 else RuneError), 1%nat)
      else
        let sz := Z.land x 7 in
        let '(lo, hi) := acceptRanges (Z.shiftr x 4) in
        match r0 with
        | [] => (RuneError, 1%nat)
        | b1 :: r1 =>
            let c1 := byteZ b1 in
            if out_of lo hi c1 then (RuneError, 1%nat)
            else if sz <=? 2 then
              (Z.lor (Z.shiftl (Z.land c0 mask2) 6) (Z.land c1 maskx), 2%nat)
            else
              match r1 with
              | [] => (RuneError, 1%nat)
              | b2 :: r2 =>
                  let c2 := byteZ b2 in
                  if out_of locb hicb c2 then (RuneError, 1%nat)
                  else if sz <=? 3 then
                    (Z.lor (Z.lor (Z.shiftl (Z.land c0 mask3) 12)
                                  (Z.shiftl (Z.land c1 maskx) 6))
                           (Z.land c2 maskx), 3%nat)
                  else
                    match r2 with
                    | [] => (RuneError, 1%nat)
                    | b3 :: _ =>
                        let c3 := byteZ b3 in
                        if out_of locb hicb c3 then (RuneError, 1%nat)
                        else
                          (Z.lor (Z.lor (Z.lor (Z.shiftl (Z.land c0 mask4) 18)
                                               (Z.shiftl (Z.land c1 maskx) 12))
                                        (Z.shiftl (Z.land c2 maskx) 6))
                                 (Z.land c3 maskx), 4%nat)
                    end
              end
        end
  end.

(** [RuneStart]: the byte is not a continuation byte. *)
Definition RuneStart (b : byte) : bool :=
  negb (Z.land (byteZ b) 0xC0 =? 0x80).

Definition toByte (z : Z) : byte :=
  match Byte.of_N (Z.to_N (z mod 256)) with
  | Some b => b
  | None => "000"%byte
  end.

(** [AppendRune] on an empty buffer: the UTF-8 encoding of [r], the
    encoding of [RuneError] when [r] is no Unicode scalar value. *)
Definition EncodeRune (r : Z) : gostring :=
  if (0 <=? r) && (r <=? rune1Max) then [toByte r]
  else if (0 <=? r) && (r <=? rune2Max) then
    [toByte (Z.lor t2 (Z.shiftr r 6)); toByte (Z.lor tx (Z.land r maskx))]
  else if ((0 <=? r) && (r <? surrogateMin))
          || ((surrogateMax <? r) && (r <=? rune3Max)) then
    [toByte (Z.lor t3 (Z.shiftr r 12));
     toByte (Z.lor tx (Z.land (Z.shiftr r 6) maskx));
     toByte (Z.lor tx (Z.land r maskx))]
  else if (rune3Max <? r) && (r <=? MaxRune) then
    [toByte (Z.lor t4 (Z.shiftr r 18));
     toByte (Z.lor tx (Z.land (Z.shiftr r 12) maskx));
     toByte (Z.lor tx (Z.land (Z.shiftr r 6) maskx));
     toByte (Z.lor tx (Z.land r maskx))]
  else ["239"%byte; "191"%byte; "189"%byte].

(** The iteration [for _, c := range s]: every decoded rune with the
    bytes it was read from, in order.  [skip] counts the bytes of the
    current rune that are still to be passed over. *)
Fixpoint rangeFrom (skip : nat) (s : gostring) : list (Z * gostring) :=
  match s with
  | [] => []
  | _ :: s' =>
      match skip with
      | S k => rangeFrom k s'
      | O =>
          let '(r, w) := DecodeRuneInString s in
          (r, firstn w s) :: rangeFrom (w - 1) s'
      end
  end.

Definition range (s : gostring) : list (Z * gostring) := rangeFrom 0 s.

(** [DecodeLastRuneInString]: the last rune of [s] and its width.  The
    loop walks back from the byte before the last one, over at most
    [UTFMax - 1] bytes, to a rune start. *)
Fixpoint backToStart (k : nat) (bs : gostring) (w : nat) : nat :=
  match k, bs with
  | S k', b :: bs' => if RuneStart b then S w else backToStart k' bs' (S w)
  | _, _ => S w
  end.

Definition DecodeLastRuneInString (s : gostring) : Z * nat :=
  let n := length s in
  match rev s with
  | [] => (RuneError, 0%nat)
  | last :: before =>
      if byteZ last <? RuneSelf then (byteZ last, 1%nat)
      else
        let start := (n - Nat.min (backToStart 3 before 1) n)%nat in
        let '(r, size) := DecodeRuneInString (skipn start s) in
        if Nat.eqb (start + size) n then (r, size) else (RuneError, 1%nat)
  end.

End utf8.

(** ** Package [unicode] *)
Module unicode.

Local Open Scope Z_scope.

Definition MaxLatin1 : Z := 0xFF.

(** [IsSpace]: the Latin-1 space characters, and beyond Latin-1 the
    [White_Space] property. *)
Definition IsSpace (r : Z) : bool :=
  if (0 <=? r) && (r <=? MaxLatin1) then
    (r =? 9) || (r =? 10) || (r =? 11) || (r =? 12) || (r =? 13)
    || (r =? 32) || (r =? 0x85) || (r =? 0xA0)
  else
    (r =? 0x1680) || ((0x2000 <=? r) && (r <=? 0x200A))
    || (r =? 0x2028) || (r =? 0x2029) || (r =? 0x202F)
    || (r =? 0x205F) || (r =? 0x3000).

(** The ASCII part of [ToLower]. *)
Definition asciiToLower (r : Z) : Z :=
  if (65 <=? r) && (r <=? 90) then r + 32 else r.

(** What the development uses of the case table [unicode.ToLower]; the
    table itself is a parameter of every function that consults it.  The
    three facts hold of Go's table: ASCII letters are lowered by adding
    32, the CJK unified ideographs have no case, and the replacement
    character is its own lower case. *)
Record LowerTable (ToLower : Z -> Z) : Prop := {
  lower_ascii : forall r, 0 <= r < 0x80 -> ToLower r = asciiToLower r;
  lower_cjk : forall r, 0x4E00 <= r <= 0x9FFF -> ToLower r = r;
  lower_error : ToLower utf8.RuneError = utf8.RuneError
}.

End unicode.

(** ** Package [strings] *)
Module strings.

Fixpoint HasPrefix (s prefix : gostring) {struct prefix} : bool :=
  match prefix, s with
  | [], _ => true
  | p :: prefix', c :: s' => Byte.eqb c p && HasPrefix s' prefix'
  | _ :: _, [] => false
  end.

Definition HasSuffix (s suffix : gostring) : bool :=
  HasPrefix (rev s) (rev suffix).

Definition TrimPrefix (s prefix : gostring) : gostring :=
  if HasPrefix s prefix then skipn (length prefix) s else s.

(** [Index]: the offset of the first occurrence of [substr] in [s],
    [-1] when there is none. *)
Fixpoint IndexFrom (i : Z) (s substr : gostring) : Z :=
  if HasPrefix s substr then i
  else match s with
       | [] => (-1)%Z
       | _ :: s' => IndexFrom (i + 1) s' substr
       end.

Definition Index (s substr : gostring) : Z := IndexFrom 0 s substr.

Definition Contains (s substr : gostring) : bool :=
  (0 <=? Index s substr)%Z.

(** [Split(s, sep)] for a separator of one byte, which is how both
    handlers call it: the segments between the separators, one more than
    there are separators. *)
Fixpoint Split (s : gostring) (sep : byte) : list gostring :=
  match s with
  | [] => [[]]
  | c :: s' =>
      if Byte.eqb c sep then [] :: Split s' sep
      else match Split s' sep with
           | seg :: segs => (c :: seg) :: segs
           | [] => [[c]]
           end
  end.

Fixpoint Join (elems : list gostring) (sep : gostring) : gostring :=
  match elems with
  | [] => []
  | [e] => e
  | e :: rest => e ++ sep ++ Join rest sep
  end.

(** [ReplaceAll(s, old, new)] for a non-empty [old]: the occurrences
    are replaced from left to right and do not overlap. *)
Fixpoint replaceFrom (skip : nat) (s old new : gostring) : gostring :=
  match s with
  | [] => []
  | c :: s' =>
      match skip with
      | S k => replaceFrom k s' old new
      | O =>
          if HasPrefix s old then new ++ replaceFrom (length old - 1) s' old new
          else c :: replaceFrom 0 s' old new
      end
  end.

Definition ReplaceAll (s old new : gostring) : gostring :=
  replaceFrom 0 s old new.

(** *** Case mapping *)

Definition isUpperByte (b : byte) : bool :=
  (65 <=? byteZ b)%Z && (byteZ b <=? 90)%Z.

Definition isASCIIByte (b : byte) : bool := (byteZ b <? utf8.RuneSelf)%Z.

Definition lowerByte (b : byte) : byte :=
  if isUpperByte b then utf8.toByte (byteZ b + 32) else b.

(** What [Map] writes for the rune [r] that the mapping returned: its
    UTF-8 encoding, and nothing for a negative value. *)
Definition writeMapped (r : Z) : gostring :=
  if (0 <=? r)%Z then utf8.EncodeRune r else [].

(** [Map]: every rune of [s], an invalid byte counting as [RuneError],
    is replaced by the encoding of what the mapping returns for it. *)
Definition Map (mapping : Z -> Z) (s : gostring) : gostring :=
  flat_map (fun t => writeMapped (mapping (fst t))) (utf8.range s).

(** [ToLower], with its fast path for strings of ASCII bytes; [lower]
    stands for [unicode.ToLower]. *)
Definition ToLower (lower : Z -> Z) (s : gostring) : gostring :=
  if forallb isASCIIByte s then
    if existsb isUpperByte s then map lowerByte s else s
  else Map lower s.

(** *** Trimming *)

(** [TrimLeftFunc]: the leading runes that satisfy [f] are dropped. *)
Fixpoint trimLeftToks (f : Z -> bool) (toks : list (Z * gostring)) : gostring :=
  match toks with
  | [] => []
  | (c, bs) :: rest =>
      if f c then trimLeftToks f rest else bs ++ concat (map snd rest)
  end.

Definition TrimLeftFunc (s : gostring) (f : Z -> bool) : gostring :=
  trimLeftToks f (utf8.range s).

(** [lastIndexFunc(s, f, false)] from offset [i] down: every round reads
    the last rune of [s[0:i]], which is at least one byte wide, so
    [length s] rounds are enough. *)
Fixpoint lastIndexFrom (rounds : nat) (s : gostring) (i : nat) (f : Z -> bool)
  : option nat :=
  match rounds with
  | O => None
  | S rounds' =>
      match i with
      | O => None
      | _ =>
          let '(r, size) := utf8.DecodeLastRuneInString (firstn i s) in
          let i' := (i - size)%nat in
          if f r then lastIndexFrom rounds' s i' f else Some i'
      end
  end.

Definition TrimRightFunc (s : gostring) (f : Z -> bool) : gostring :=
  match lastIndexFrom (length s) s (length s) f with
  | Some i =>
      match skipn i s with
      | b :: _ =>
          if (utf8.RuneSelf <=? byteZ b)%Z
          then firstn (i + snd (utf8.DecodeRuneInString (skipn i s))) s
          else firstn (i + 1) s
      | [] => firstn (i + 1) s
      end
  | None => []
  end.

Definition TrimFunc (s : gostring) (f : Z -> bool) : gostring :=
  TrimRightFunc (TrimLeftFunc s f) f.

Definition TrimSpace (s : gostring) : gostring := TrimFunc s unicode.IsSpace.

End strings.

(** ** Package [regexp] *)

(** The regular expressions of [intent.go], as syntax trees named after
    the operators of [regexp/syntax], and a matcher with the leftmost-first
    semantics of Go's [regexp]: of the matches that start at the leftmost
    possible position, the one a backtracking search prefers.  The matcher
    reads the text rune by rune with [utf8.DecodeRuneInString], as Go's
    does. *)
Module regexp.

Local Open Scope Z_scope.

Inductive Regexp : Type :=
| EmptyMatch
| Literal (r : Z)
| CharClass (negated : bool) (ranges : list (Z * Z))
| AnyCharNotNL
| BeginLine
| EndLine
| EndText
| WordBoundary
| Capture (index : nat) (sub : Regexp)
| Star (greedy : bool) (sub : Regexp)
| Concat (a b : Regexp)
| Alternate (a b : Regexp).

(** [x+], [x?] and [x{min,max}] as Go's simplifier rewrites them. *)
Definition Plus (greedy : bool) (sub : Regexp) : Regexp :=
  Concat sub (Star greedy sub).

Definition Quest (greedy : bool) (sub : Regexp) : Regexp :=
  if greedy then Alternate sub EmptyMatch else Alternate EmptyMatch sub.

Fixpoint upTo (n : nat) (sub : Regexp) : Regexp :=
  match n with
  | O => EmptyMatch
  | S n' => Quest true (Concat sub (upTo n' sub))
  end.

Fixpoint Repeat (min extra : nat) (sub : Regexp) : Regexp :=
  match min with
  | O => upTo extra sub
  | S min' => Concat sub (Repeat min' extra sub)
  end.

Fixpoint seq (rs : list Regexp) : Regexp :=
  match rs with
  | [] => EmptyMatch
  | [r] => r
  | r :: rs' => Concat r (seq rs')
  end.

Fixpoint alt (rs : list Regexp) : Regexp :=
  match rs with
  | [] => CharClass false []
  | [r] => r
  | r :: rs' => Alternate r (alt rs')
  end.

(** A literal string: the runes of its text, one after the other. *)
Definition str (s : string) : Regexp :=
  seq (map (fun t => Literal (fst t)) (utf8.range (lit s))).

(** The Perl classes: [\s] is [[\t\n\f\r ]] and [\w] is [[0-9A-Za-z_]]. *)
Definition perl_s : list (Z * Z) := [(9, 10); (12, 13); (32, 32)].
Definition perl_w : list (Z * Z) := [(48, 57); (65, 90); (95, 95); (97, 122)].

Definition inRanges (ranges : list (Z * Z)) (r : Z) : bool :=
  existsb (fun lh => (fst lh <=? r) && (r <=? snd lh)) ranges.

Definition isWordChar (b : option byte) : bool :=
  match b with
  | Some c => inRanges perl_w (byteZ c)
  | None => false
  end.

(** A position in the text: the offset, the byte before it and the
    bytes from it on. *)
Record Pos : Type := { offset : nat; before : option byte; rest : gostring }.

Definition start_of (s : gostring) : Pos :=
  {| offset := 0; before := None; rest := s |}.

(** One rune forward. *)
Definition step (p : Pos) : option (Z * Pos) :=
  match rest p with
  | [] => None
  | _ =>
      let '(r, w) := utf8.DecodeRuneInString (rest p) in
      Some (r, {| offset := offset p + w;
                  before := Some (last (firstn w (rest p)) "000"%byte);
                  rest := skipn w (rest p) |})
  end.

(** The capture registers: group index, start and end offsets. *)
Definition Caps : Type := list (nat * (nat * nat)).

Definition Thread : Type := (Caps * Pos)%type.
Definition Cont : Type := Caps -> Pos -> option Thread.

(** The loop of [x*]: an iteration that consumes nothing is not
    repeated, so at most one iteration per remaining byte can run. *)
Fixpoint loop (body : Caps -> Pos -> Cont -> option Thread) (greedy : bool)
         (rounds : nat) (c : Caps) (p : Pos) (k : Cont) : option Thread :=
  match rounds with
  | O => k c p
  | S rounds' =>
      if greedy then
        match body c p (fun c' p' =>
                          if (offset p' <=? offset p)%nat then None
                          else loop body greedy rounds' c' p' k) with
        | Some t => Some t
        | None => k c p
        end
      else
        match k c p with
        | Some t => Some t
        | None =>
            body c p (fun c' p' =>
                        if (offset p' <=? offset p)%nat then None
                        else loop body greedy rounds' c' p' k)
        end
  end.

(** The backtracking matcher, in continuation-passing style: [k] is
    what remains to be matched after [re]. *)
Fixpoint run (re : Regexp) (c : Caps) (p : Pos) (k : Cont) : option Thread :=
  match re with
  | EmptyMatch => k c p
  | Literal r =>
      match step p with
      | Some (r', p') => if r' =? r then k c p' else None
      | None => None
      end
  | CharClass negated ranges =>
      match step p with
      | Some (r', p') =>
          if xorb negated (inRanges ranges r') then k c p' else None
      | None => None
      end
  | AnyCharNotNL =>
      match step p with
      | Some (r', p') => if r' =? 10 then None else k c p'
      | None => None
      end
  | BeginLine =>
      match before p with
      | None => k c p
      | Some b => if Byte.eqb b NL then k c p else None
      end
  | EndLine =>
      match rest p with
      | [] => k c p
      | b :: _ => if Byte.eqb b NL then k c p else None
      end
  | EndText =>
      match rest p with
      | [] => k c p
      | _ :: _ => None
      end
  | WordBoundary =>
      if xorb (isWordChar (before p)) (isWordChar (hd_error (rest p)))
      then k c p else None
  | Capture index sub =>
      run sub c p (fun c' p' => k ((index, (offset p, offset p')) :: c') p')
  | Star greedy sub =>
      loop (run sub) greedy (length (rest p)) c p k
  | Concat a b =>
      run a c p (fun c' p' => run b c' p' k)
  | Alternate a b =>
      match run a c p k with
      | Some t => Some t
      | None => run b c p k
      end
  end.

Definition matchAt (re : Regexp) (p : Pos) : option Thread :=
  run re [] p (fun c p' => Some (c, p')).

(** The unanchored search: the first position, going rune by rune from
    the start of the text, at which the expression matches. *)
Fixpoint searchFrom (rounds : nat) (re : Regexp) (p : Pos)
  : option (nat * Thread) :=
  match matchAt re p with
  | Some t => Some (offset p, t)
  | None =>
      match rounds with
      | O => None
      | S rounds' =>
          match step p with
          | Some (_, p') => searchFrom rounds' re p'
          | None => None
          end
      end
  end.

Definition search (re : Regexp) (s : gostring) : option (nat * Thread) :=
  searchFrom (length s) re (start_of s).

Definition slice (s : gostring) (lo hi : nat) : gostring :=
  firstn (hi - lo) (skipn lo s).

Fixpoint NumSubexp (re : Regexp) : nat :=
  match re with
  | Capture index sub => Nat.max index (NumSubexp sub)
  | Star _ sub => NumSubexp sub
  | Concat a b | Alternate a b => Nat.max (NumSubexp a) (NumSubexp b)
  | _ => 0
  end.

Fixpoint capture (c : Caps) (index : nat) : option (nat * nat) :=
  match c with
  | [] => None
  | (i, se) :: c' => if Nat.eqb i index then Some se else capture c' index
  end.

(** [MatchString]: does the text contain a match? *)
Definition MatchString (re : Regexp) (s : gostring) : bool :=
  match search re s with Some _ => true | None => false end.

(** [FindString]: the text of the leftmost match, empty when there is
    none. *)
Definition FindString (re : Regexp) (s : gostring) : gostring :=
  match search re s with
  | Some (lo, (_, p)) => slice s lo (offset p)
  | None => []
  end.

(** [FindStringSubmatch]: the text of the leftmost match followed by
    the texts of its groups (empty for a group that took no part), [nil]
    when there is no match. *)
Definition FindStringSubmatch (re : Regexp) (s : gostring) : list gostring :=
  match search re s with
  | Some (lo, (c, p)) =>
      slice s lo (offset p)
      :: map (fun i => match capture c i with
                       | Some (a, b) => slice s a b
                       | None => []
                       end)
             (List.seq 1 (NumSubexp re))
  | None => []
  end.

End regexp.

(** ** Package [tools]: [internal/tools/intent.go] *)
Module tools.

Import regexp.

(** The values of a decoded JSON document ([interface{}]); a number is
    kept as its JSON text. *)
#[local] Unset Elimination Schemes.
Inductive Value : Type :=
| VNull
| VBool (b : bool)
| VNumber (text : gostring)
| VString (s : gostring)
| VArray (items : list Value)
| VObject (fields : list (gostring * Value)).
#[local] Set Elimination Schemes.

(** [map[string]interface{}], as its key/value pairs. *)
Definition Input : Type := list (gostring * Value).

(** A tool invocation as [Parser.ParseToolCalls] returns it. *)
Record ToolCall : Type := { Name : gostring; Input_ : Input }.

Record Intent : Type := {
  Action : gostring;   (* create_file, read_file, run_command, edit_file, list_dir *)
  FilePath : gostring;
  Content : gostring;
  Command : gostring
}.

(** The first rune of a literal, and the class of the runes of one. *)
Definition chr (s : string) : Z :=
  match utf8.range (lit s) with
  | (r, _) :: _ => r
  | [] => utf8.RuneError
  end.

Definition oneOf (s : string) : list (Z * Z) :=
  map (fun t => (fst t, fst t)) (utf8.range (lit s)).

Definition space : Regexp := CharClass false perl_s.       (* \s *)
Definition nonspace : Regexp := CharClass true perl_s.     (* \S *)
Definition word : Regexp := CharClass false perl_w.        (* \w *)
Definition quotes : list (Z * Z) := [(39, 39); (34, 34)]%Z.  (* ' and the double quote, written Q in the patterns below *)
Definition quote : Regexp := CharClass false quotes.       (* ['Q] *)
Definition nonquote : Regexp := CharClass true quotes.     (* [^'Q] *)

(** A literal under the flag [(?i)]: every ASCII letter matches in
    either case. *)
Definition fold (s : string) : Regexp :=
  seq (map (fun t =>
              let r := fst t in
              if ((97 <=? r) && (r <=? 122))%Z
              then CharClass false [((r - 32)%Z, (r - 32)%Z); (r, r)]
              else Literal r)
           (utf8.range (lit s))).

Definition lazyAny : Regexp := Star false AnyCharNotNL.    (* .*? *)

Definition createPatterns : list Regexp :=
  [ seq [str "创建"; lazyAny; str "文件"];      (* 创建.*?文件 *)
    seq [str "create"; lazyAny; str "file"];   (* create.*?file *)
    seq [str "写入"; lazyAny; str "文件"];      (* 写入.*?文件 *)
    seq [str "write"; lazyAny; str "to"];      (* write.*?to *)
    str "帮我创建";
    str "新建" ].

Definition readPatterns : list Regexp :=
  [ seq [str "读取"; lazyAny; str "文件"];      (* 读取.*?文件 *)
    seq [str "read"; lazyAny; str "file"];     (* read.*?file *)
    seq [str "查看"; lazyAny; str "文件"];      (* 查看.*?文件 *)
    seq [str "看"; lazyAny; str "内容"];        (* 看.*?内容 *)
    seq [str "cat"; Plus true space] ].        (* cat\s+ *)

Definition cmdPatterns : list Regexp :=
  [ seq [str "执行"; lazyAny; str "命令"];      (* 执行.*?命令 *)
    seq [str "run"; lazyAny; str "command"];   (* run.*?command *)
    str "运行";
    str "execute" ].

Definition pathPatterns : list Regexp :=
  [ (* ['Q](\/[^'Q]+)['QQ] *)
    seq [quote; Capture 1 (seq [str "/"; Plus true nonquote]); quote];
    (* ['QQ]([^'Q]+\.\w+)['QQ] *)
    seq [quote; Capture 1 (seq [Plus true nonquote; str "."; Plus true word]); quote];
    (* (\S+\.\w{1,5})\b *)
    seq [Capture 1 (seq [Plus true nonspace; str "."; Repeat 1 4 word]); WordBoundary] ].

Definition contentPatterns : list Regexp :=
  [ (* (?i)内容[是为:：\s]+['""]?(.+?)['""]?\s*$ *)
    seq [str "内容"; Plus true (CharClass false (oneOf "是为:：" ++ perl_s));
         Quest true quote; Capture 1 (Plus false AnyCharNotNL); Quest true quote;
         Star true space; EndText];
    (* (?i)content[:\s]+['""]?(.+?)['""]?\s*$ *)
    seq [fold "content"; Plus true (CharClass false (oneOf ":" ++ perl_s));
         Quest true quote; Capture 1 (Plus false AnyCharNotNL); Quest true quote;
         Star true space; EndText];
    (* ['QQ]([^'Q]+)['QQ] *)
    seq [quote; Capture 1 (Plus true nonquote); quote] ].

(** [for _, pattern := range patterns { if matched { ...; break } }]:
    does any pattern of the list match? *)
Definition anyMatch (patterns : list Regexp) (text : gostring) : bool :=
  existsb (fun pattern => MatchString pattern text) patterns.

(** [for _, re := range res { if matches := ...; len(matches) > 1 {
    ... = matches[1]; break } }]: the first group of the first expression
    that matches. *)
Fixpoint firstSubmatch (res : list Regexp) (s : gostring) : option gostring :=
  match res with
  | [] => None
  | re :: res' =>
      match FindStringSubmatch re s with
      | _ :: m1 :: _ => Some m1
      | _ => firstSubmatch res' s
      end
  end.

Definition orEmpty (o : option gostring) : gostring :=
  match o with Some s => s | None => [] end.

(** [ParseUserIntent]: the three action loops run one after the other
    and each assigns [intent.Action] when one of its patterns matches. *)
Definition ParseUserIntent (lower : Z -> Z) (messages : list gostring) : Intent :=
  let text := strings.ToLower lower (strings.Join messages (lit " ")) in
  let action0 : gostring := [] in
  let action1 := if anyMatch createPatterns text then lit "create_file" else action0 in
  let action2 := if anyMatch readPatterns text then lit "read_file" else action1 in
  let action3 := if anyMatch cmdPatterns text then lit "run_command" else action2 in
  {| Action := action3;
     FilePath := orEmpty (firstSubmatch pathPatterns (strings.Join messages (lit " ")));
     Content := orEmpty (firstSubmatch contentPatterns (strings.Join messages (lit " ")));
     Command := [] |}.

Definition refusalPatterns : list gostring :=
  [ lit "无法直接";
    lit "无法执行";
    lit "不能执行";
    lit "受到了限制";
    lit "没有权限";
    lit "无法帮你";
    lit "cannot directly";
    lit "unable to";
    lit "don't have access";
    lit "I can't";
    lit "我不能";
    lit "我无法";
    lit "请在你的终端";
    lit "请在本地";
    lit "你需要在";
    lit "你可以运行" ].

(** [DetectRefusal]: the loop returns [true] at the first phrase that
    the lowered response contains. *)
Definition DetectRefusal (lower : Z -> Z) (response : gostring) : bool :=
  let responseLower := strings.ToLower lower response in
  existsb (fun pattern =>
             strings.Contains responseLower (strings.ToLower lower pattern))
          refusalPatterns.

(** [```(?:bash|sh)?\s*\n([^`]+)\n```] *)
Definition codeBlockRe : Regexp :=
  seq [ str "```"; Quest true (Alternate (str "bash") (str "sh"));
        Star true space; Literal 10;
        Capture 1 (Plus true (CharClass true (oneOf "`")));
        Literal 10; str "```" ].

Definition lineCmdPatterns : list Regexp :=
  [ (* (?m)^\s*(cat|echo|mkdir|touch|rm|cp|mv|ls|cd|pwd)\s+.+$ *)
    seq [ BeginLine; Star true space;
          Capture 1 (alt (map str ["cat"; "echo"; "mkdir"; "touch"; "rm";
                                   "cp"; "mv"; "ls"; "cd"; "pwd"]%string));
          Plus true space; Plus true AnyCharNotNL; EndLine ];
    (* (?m)^\s*(\S+)\s+>\s+\S+ *)
    seq [ BeginLine; Star true space; Capture 1 (Plus true nonspace);
          Plus true space; str ">"; Plus true space; Plus true nonspace ] ].

(** The loop over [cmdPatterns]: the first expression with a non-empty
    match decides. *)
Fixpoint firstFind (res : list Regexp) (response : gostring) : gostring :=
  match res with
  | [] => []
  | re :: res' =>
      let matches := FindString re response in
      if is_empty matches then firstFind res' response
      else strings.TrimSpace matches
  end.

Definition ExtractCommandFromRefusal (response : gostring) : gostring :=
  match FindStringSubmatch codeBlockRe response with
  | _ :: m1 :: _ => strings.TrimSpace m1
  | _ => firstFind lineCmdPatterns response
  end.

End tools.

(** ** Package [handler]: [internal/handler/anthropic.go] *)
Module handler.

(** *** Request and response structures *)

(** [ContentBlock]: a [text] or a [tool_use] block; the fields a block
    does not use keep their zero values. *)
Module ContentBlock.
Record t : Type := {
  Type_ : gostring;
  Text : gostring;
  ID : gostring;            (* tool_use *)
  Name : gostring;          (* tool_use *)
  Input : tools.Input       (* tool_use *)
}.
End ContentBlock.

Module Usage.
Record t : Type := { InputTokens : Z; OutputTokens : Z }.
End Usage.

Module MessagesResponse.
Record t : Type := {
  ID : gostring;
  Type_ : gostring;
  Role : gostring;
  Content : list ContentBlock.t;
  Model : gostring;
  StopReason : gostring;
  StopSequence : option gostring;
  Usage_ : Usage.t
}.
End MessagesResponse.

(** [CursorSSEEvent]: an event of the upstream stream. *)
Module CursorSSEEvent.
Record t : Type := { Type_ : gostring; Delta : gostring }.
End CursorSSEEvent.

(** *** The collaborators of the handlers

    [toolParser], [toolExecutor] and the libraries whose results the
    two files only pass on.  [World] is whatever the executor acts on. *)
Record Services (World : Type) : Type := {
  (** [unicode.ToLower] *)
  unicode_ToLower : Z -> Z;
  (** [json.Unmarshal([]byte(data), &event)]; [None] when it returns an error *)
  json_Unmarshal : gostring -> option CursorSSEEvent.t;
  (** [json.Marshal] of a string and of a tool input *)
  json_Marshal_string : gostring -> gostring;
  json_Marshal_input : tools.Input -> gostring;
  (** the text of the [n]-th [uuid.New().String()] of the process *)
  uuid_New : nat -> gostring;
  (** [toolParser.ParseToolCalls]: the invocations and the remaining text *)
  ParseToolCalls : gostring -> list tools.ToolCall * gostring;
  (** [toolExecutor.Execute]: the output and the error, if any *)
  Execute : gostring -> tools.Input -> World -> (gostring * option gostring) * World
}.

(** *** The events written to the client

    One constructor per [event:]/[data:] pair that [handleStream]
    writes, with the values its format string is filled with; [wire]
    below gives the text of each. *)
Inductive SSE : Type :=
| message_start (id model : gostring)
| content_block_start_text (index : nat)
| content_block_start_tool_use (index : nat) (id name : gostring)
| content_block_delta_text (index : nat) (text : gostring)
| content_block_delta_input_json (index : nat) (input : tools.Input)
| content_block_stop (index : nat)
| error (message : gostring)
| message_delta (stop_reason : gostring)
| message_stop.

(** *** The state of one request

    The UUIDs drawn so far, the executor's world and the events written
    (and flushed) to the client, oldest first. *)
Record Proc (World : Type) : Type := {
  uuids : nat;
  world : World;
  written : list SSE
}.

Section Handlers.

Variable World : Type.
Variable svc : Services World.

Definition M (A : Type) : Type := Proc World -> A * Proc World.

Definition ret {A : Type} (a : A) : M A := fun p => (a, p).

Definition bind {A B : Type} (m : M A) (f : A -> M B) : M B :=
  fun p => let '(a, p') := m p in f a p'.

Local Notation "x <- m ;; k" := (bind m (fun x => k))
  (at level 61, m at next level, right associativity).
Local Notation "m ;;; k" := (bind m (fun _ => k))
  (at level 61, right associativity).

(** [c.Writer.WriteString] of one event, and [flusher.Flush()]. *)
Definition emit (e : SSE) : M unit :=
  fun p => (tt, {| uuids := uuids p; world := world p;
                   written := written p ++ [e] |}).

(** [generateID]: a UUID without its dashes, cut to 16 bytes. *)
Definition generateID : M gostring :=
  fun p =>
    (firstn 16 (strings.ReplaceAll (uuid_New svc (uuids p)) (lit "-") []),
     {| uuids := S (uuids p); world := world p; written := written p |}).

Definition execute (name : gostring) (input : tools.Input)
  : M (gostring * option gostring) :=
  fun p =>
    let '(res, w) := Execute svc name input (world p) in
    (res, {| uuids := uuids p; world := w; written := written p |}).

(** *** [handleStream] *)

(** The callback's first half: the chunk is appended to the buffer,
    the buffer is split at the line terminator, and the last segment
    is kept back when the buffer does not end in a terminator.  The
    result is the lines to process and the new buffer. *)
Definition reassemble (buffer chunk : gostring) : list gostring * gostring :=
  let content := buffer ++ chunk in
  let lines := strings.Split content NL in
  if negb (strings.HasSuffix content [NL]) && (0 <? length lines)%nat
  then (removelast lines, last lines [])
  else (lines, []).

(** The decoding of one line, shared by both handlers: the delta of a
    [text-delta] event with a non-empty delta. *)
Definition textDelta (line : gostring) : option gostring :=
  if negb (strings.HasPrefix line (lit "data: ")) then None
  else
    let data := strings.TrimPrefix line (lit "data: ") in
    if is_empty data then None
    else
      match json_Unmarshal svc data with
      | None => None
      | Some event =>
          if bytes_eqb (CursorSSEEvent.Type_ event) (lit "text-delta")
             && negb (is_empty (CursorSSEEvent.Delta event))
          then Some (CursorSSEEvent.Delta event)
          else None
      end.

(** The callback's second half, [for _, line := range lines]. *)
Fixpoint forLines (lines : list gostring) (fullResponse : gostring) : M gostring :=
  match lines with
  | [] => ret fullResponse
  | line :: lines' =>
      match textDelta line with
      | Some delta =>
          emit (content_block_delta_text 0 delta) ;;;
          forLines lines' (fullResponse ++ delta)
      | None => forLines lines' fullResponse
      end
  end.

(** The variables the callback closes over. *)
Record Accum : Type := { buffer : gostring; fullResponse : gostring }.

Definition onChunk (chunk : gostring) (a : Accum) : M Accum :=
  let '(lines, buffer') := reassemble (buffer a) chunk in
  full <- forLines lines (fullResponse a) ;;
  ret {| buffer := buffer'; fullResponse := full |}.

(** [svc.SendStreamRequest]: the callback runs on every chunk, in
    order of arrival. *)
Fixpoint forChunks (chunks : list gostring) (a : Accum) : M Accum :=
  match chunks with
  | [] => ret a
  | chunk :: chunks' => a' <- onChunk chunk a ;; forChunks chunks' a'
  end.

(** What the upstream request delivers: the chunks, and the error it
    ends with, if any. *)
Record Upstream : Type := { chunks : list gostring; err : option gostring }.

(** [for i, call := range toolCalls], with [i] counted from [i0]. *)
Fixpoint forCalls (i0 : nat) (toolCalls : list tools.ToolCall) : M unit :=
  match toolCalls with
  | [] => ret tt
  | call :: calls' =>
      id <- generateID ;;
      let toolID := lit "toolu_" ++ id in
      emit (content_block_start_tool_use (i0 + 1) toolID (tools.Name call)) ;;;
      emit (content_block_delta_input_json (i0 + 1) (tools.Input_ call)) ;;;
      emit (content_block_stop (i0 + 1)) ;;;
      forCalls (S i0) calls'
  end.

Definition handleStream (up : Upstream) (model : gostring) : M unit :=
  gid <- generateID ;;
  let id := lit "msg_" ++ gid in
  emit (message_start id model) ;;;
  emit (content_block_start_text 0) ;;;
  a <- forChunks (chunks up) {| buffer := []; fullResponse := [] |} ;;
  match err up with
  | Some e => emit (error e)
  | None => ret tt
  end ;;;
  emit (content_block_stop 0) ;;;
  let responseText := fullResponse a in
  let '(toolCalls, _) := ParseToolCalls svc responseText in
  stopReason <-
    (if (0 <? length toolCalls)%nat
     then forCalls 0 toolCalls ;;; ret (lit "tool_use")
     else ret (lit "end_turn")) ;;
  emit (message_delta stopReason) ;;;
  emit message_stop.

(** [escapeJSON] *)
Definition escapeJSON (s : gostring) : gostring :=
  let s := strings.ReplaceAll s (lit "\") (lit "\\") in
  let s := strings.ReplaceAll s [dq] (q "\^") in
  let s := strings.ReplaceAll s [NL] (lit "\n") in
  let s := strings.ReplaceAll s ["013"%byte] (lit "\r") in
  let s := strings.ReplaceAll s ["009"%byte] (lit "\t") in
  s.

(** [%d] of a block index. *)
Definition itoa (n : nat) : gostring :=
  lit (NilZero.string_of_uint (Nat.to_uint n)).

(** The text that goes to [c.Writer] for an event: the [event:] line,
    the [data:] line as the format strings of [handleStream] build it, and
    a blank line. *)
Definition wire (e : SSE) : gostring :=
  match e with
  | message_start id model =>
      lit "event: message_start" ++ [NL]
      ++ q "data: {^type^:^message_start^,^message^:{^id^:^" ++ id
      ++ q "^,^type^:^message^,^role^:^assistant^,^content^:[],^model^:^" ++ model
      ++ q "^,^stop_reason^:null,^stop_sequence^:null,^usage^:{^input_tokens^:100,^output_tokens^:0}}}"
      ++ [NL; NL]
  | content_block_start_text index =>
      lit "event: content_block_start" ++ [NL]
      ++ q "data: {^type^:^content_block_start^,^index^:" ++ itoa index
      ++ q ",^content_block^:{^type^:^text^,^text^:^^}}" ++ [NL; NL]
  | content_block_start_tool_use index id name =>
      lit "event: content_block_start" ++ [NL]
      ++ q "data: {^type^:^content_block_start^,^index^:" ++ itoa index
      ++ q ",^content_block^:{^type^:^tool_use^,^id^:^" ++ id
      ++ q "^,^name^:^" ++ name ++ q "^,^input^:{}}}" ++ [NL; NL]
  | content_block_delta_text index text =>
      lit "event: content_block_delta" ++ [NL]
      ++ q "data: {^type^:^content_block_delta^,^index^:" ++ itoa index
      ++ q ",^delta^:{^type^:^text_delta^,^text^:" ++ json_Marshal_string svc text
      ++ lit "}}" ++ [NL; NL]
  | content_block_delta_input_json index input =>
      lit "event: content_block_delta" ++ [NL]
      ++ q "data: {^type^:^content_block_delta^,^index^:" ++ itoa index
      ++ q ",^delta^:{^type^:^input_json_delta^,^partial_json^:^"
      ++ escapeJSON (json_Marshal_input svc input) ++ q "^}}" ++ [NL; NL]
  | content_block_stop index =>
      lit "event: content_block_stop" ++ [NL]
      ++ q "data: {^type^:^content_block_stop^,^index^:" ++ itoa index
      ++ lit "}" ++ [NL; NL]
  | error message =>
      lit "event: error" ++ [NL]
      ++ q "data: {^type^:^error^,^error^:{^message^:^" ++ message
      ++ q "^}}" ++ [NL; NL]
  | message_delta stop_reason =>
      lit "event: message_delta" ++ [NL]
      ++ q "data: {^type^:^message_delta^,^delta^:{^stop_reason^:^" ++ stop_reason
      ++ q "^,^stop_sequence^:null},^usage^:{^output_tokens^:100}}" ++ [NL; NL]
  | message_stop =>
      lit "event: message_stop" ++ [NL]
      ++ q "data: {^type^:^message_stop^}" ++ [NL; NL]
  end.

(** What the client has received once the events are written. *)
Definition responseBody (events : list SSE) : gostring :=
  concat (map wire events).

(** *** [parseResponseToBlocks] *)

Definition textBlock (text : gostring) : ContentBlock.t :=
  {| ContentBlock.Type_ := lit "text"; ContentBlock.Text := text;
     ContentBlock.ID := []; ContentBlock.Name := [];
     ContentBlock.Input := [] |}.

Definition toolUseBlock (id name : gostring) (input : tools.Input)
  : ContentBlock.t :=
  {| ContentBlock.Type_ := lit "tool_use"; ContentBlock.Text := [];
     ContentBlock.ID := id; ContentBlock.Name := name;
     ContentBlock.Input := input |}.

(** [for _, call := range toolCalls { blocks = append(blocks, ...) }] *)
Fixpoint appendCalls (blocks : list ContentBlock.t)
         (toolCalls : list tools.ToolCall) : M (list ContentBlock.t) :=
  match toolCalls with
  | [] => ret blocks
  | call :: calls' =>
      id <- generateID ;;
      appendCalls (blocks ++ [toolUseBlock (lit "toolu_" ++ id)
                                           (tools.Name call) (tools.Input_ call)])
                  calls'
  end.

(** The text of the result block:
    [fmt.Sprintf("\n\n%s:\n```\n%s\n```", statusText, resultText)]. *)
Definition resultBlockText (statusText resultText : gostring) : gostring :=
  [NL; NL] ++ statusText ++ lit ":" ++ [NL] ++ lit "```" ++ [NL]
  ++ resultText ++ [NL] ++ lit "```".

(** The statements after the refusal check: the text block, the tool
    blocks, and the text block of last resort. *)
Definition plainBlocks (text : gostring) (toolCalls : list tools.ToolCall)
           (remainingText : gostring) : M (list ContentBlock.t) :=
  let blocks : list ContentBlock.t :=
    if negb (is_empty remainingText) then [textBlock remainingText] else [] in
  blocks <- appendCalls blocks toolCalls ;;
  if (length blocks =? 0)%nat then ret (blocks ++ [textBlock text])
  else ret blocks.

Definition parseResponseToBlocks (text : gostring) (userMessages : list gostring)
  : M (list ContentBlock.t) :=
  let '(toolCalls, remainingText) := ParseToolCalls svc text in
  if (length toolCalls =? 0)%nat
     && tools.DetectRefusal (unicode_ToLower svc) text
  then
    let cmd := tools.ExtractCommandFromRefusal text in
    if negb (is_empty cmd) then
      res <- execute (lit "bash") [(lit "command", tools.VString cmd)] ;;
      let '(output, err) := res in
      let '(resultText, isError) :=
        match err with
        | Some e => (e, true)
        | None => (output, false)
        end in
      id <- generateID ;;
      let toolID := lit "toolu_" ++ id in
      let statusText :=
        if isError then lit "❌ 命令执行失败" else lit "✅ 命令执行成功" in
      ret [ textBlock (lit "正在执行命令...");
            toolUseBlock toolID (lit "bash") [(lit "command", tools.VString cmd)];
            textBlock (resultBlockText statusText resultText) ]
    else plainBlocks text toolCalls remainingText
  else plainBlocks text toolCalls remainingText.

(** *** [handleNonStream] *)

(** The answer of [c.JSON]: the status with an error message, or
    with the message. *)
Inductive Response : Type :=
| JSONError (status : Z) (message : gostring)
| JSONMessage (status : Z) (body : MessagesResponse.t).

(** [for _, line := range lines] over the whole upstream answer. *)
Fixpoint fullTextOf (lines : list gostring) (fullText : gostring) : gostring :=
  match lines with
  | [] => fullText
  | line :: lines' =>
      match textDelta line with
      | Some delta => fullTextOf lines' (fullText ++ delta)
      | None => fullTextOf lines' fullText
      end
  end.

(** The loop that looks for a [tool_use] block. *)
Definition stopReasonOf (contentBlocks : list ContentBlock.t) : gostring :=
  if existsb (fun block => bytes_eqb (ContentBlock.Type_ block) (lit "tool_use"))
             contentBlocks
  then lit "tool_use" else lit "end_turn".

(** [result] is what [svc.SendRequest] returned: the answer, or the
    error on the right. *)
Definition handleNonStream (result : gostring + gostring) (model : gostring)
  : M Response :=
  match result with
  | inr e => ret (JSONError 500 e)
  | inl result =>
      let lines := strings.Split result NL in
      let responseText := fullTextOf lines [] in
      contentBlocks <- parseResponseToBlocks responseText [] ;;
      let stopReason := stopReasonOf contentBlocks in
      gid <- generateID ;;
      ret (JSONMessage 200
             {| MessagesResponse.ID := lit "msg_" ++ gid;
                MessagesResponse.Type_ := lit "message";
                MessagesResponse.Role := lit "assistant";
                MessagesResponse.Content := contentBlocks;
                MessagesResponse.Model := model;
                MessagesResponse.StopReason := stopReason;
                MessagesResponse.StopSequence := None;
                MessagesResponse.Usage_ :=
                  {| Usage.InputTokens := 100; Usage.OutputTokens := 100 |} |})
  end.

End Handlers.

End handler.

(** ** Package [browser]: the request that goes upstream

    The structures of [internal/browser] that [convertToCursor] fills,
    with the fields its composite literals name. *)
Module browser.

Module CursorPart.
Record t : Type := { Type_ : gostring; Text : gostring }.
End CursorPart.

Module CursorMessage.
Record t : Type := {
  Parts : list CursorPart.t;
  ID : gostring;
  Role : gostring
}.
End CursorMessage.

Module CursorContext.
Record t : Type := { Type_ : gostring; Content : gostring; FilePath : gostring }.
End CursorContext.

Module CursorChatRequest.
Record t : Type := {
  Context : list CursorContext.t;
  Model : gostring;
  ID : gostring;
  Messages : list CursorMessage.t;
  Trigger : gostring
}.
End CursorChatRequest.

End browser.

(** ** Package [handler], the request side: [internal/handler/anthropic.go]

    The conversion of an Anthropic request into the upstream request, the
    token estimate and the entry point [Messages]. *)
Module anthropic.

(** [Message]: the content is a string, a list of blocks, or whatever
    else the JSON document held. *)
Module Message.
Record t : Type := { Role : gostring; Content : tools.Value }.
End Message.

Module MessagesRequest.
Record t (ToolDefinition : Type) : Type := {
  Model : gostring;
  Messages : list Message.t;
  MaxTokens : Z;
  Stream : bool;
  System : tools.Value;            (* a string or a list of blocks *)
  Tools : list ToolDefinition
}.
End MessagesRequest.

(** *** The collaborators of the request side

    [ToolDefinition] and [GenerateToolPrompt] belong to a file of package
    [tools] other than [intent.go]; the browser service answers a request
    with the upstream stream, or with the whole upstream answer. *)
Record Collaborators (ToolDefinition : Type) : Type := {
  (** [fmt.Sprintf("%v", v)] *)
  fmt_Sprint : tools.Value -> gostring;
  (** [tools.GenerateToolPrompt] *)
  GenerateToolPrompt : list ToolDefinition -> gostring;
  (** [svc.SendStreamRequest]: the chunks handed to the callback and the error *)
  SendStreamRequest : browser.CursorChatRequest.t -> handler.Upstream;
  (** [svc.SendRequest]: the answer, or the error on the right *)
  SendRequest : browser.CursorChatRequest.t -> gostring + gostring
}.

(** *** Dynamic values *)

(** [block[key]] on a [map[string]interface{}], whose pairs have
    distinct keys: the value of the pair with that key, [nil] when the map
    has none. *)
Fixpoint index (block : list (gostring * tools.Value)) (key : gostring)
  : tools.Value :=
  match block with
  | [] => tools.VNull
  | (k, v) :: block' => if bytes_eqb k key then v else index block' key
  end.

(** [v == "..."] on an [interface{}]: the value is a string, and that one. *)
Definition equalsString (v : tools.Value) (s : gostring) : bool :=
  match v with
  | tools.VString x => bytes_eqb x s
  | _ => false
  end.

(** [s, _ := v.(string)] and [b, _ := v.(bool)]: the zero value when the
    assertion fails. *)
Definition stringOrZero (v : tools.Value) : gostring :=
  match v with
  | tools.VString s => s
  | _ => []
  end.

Definition boolOrZero (v : tools.Value) : bool :=
  match v with
  | tools.VBool b => b
  | _ => false
  end.

(** The body of the loops over text blocks: what an item adds to the
    texts, which is its text when the item is a map whose [type] is
    [text] and whose [text] is a string. *)
Definition textOfItem (item : tools.Value) : list gostring :=
  match item with
  | tools.VObject block =>
      if equalsString (index block (lit "type")) (lit "text") then
        match index block (lit "text") with
        | tools.VString text => [text]
        | _ => []
        end
      else []
  | _ => []
  end.

(** The text of a [tool_result] block: the header with the prefix and
    the identifier, a line feed, and the result text, which is the content
    when that is a string and the texts of its text blocks, put together
    without a separator, when it is a list. *)
Definition resultTextOf (resultContent : tools.Value) : gostring :=
  match resultContent with
  | tools.VString rc => rc
  | tools.VArray rc => concat (flat_map textOfItem rc)
  | _ => []
  end.

Definition toolResultText (block : list (gostring * tools.Value)) : gostring :=
  let toolUseID := stringOrZero (index block (lit "tool_use_id")) in
  let resultContent := index block (lit "content") in
  let isError := boolOrZero (index block (lit "is_error")) in
  let resultText := resultTextOf resultContent in
  let prefix := if isError then lit "工具执行错误" else lit "工具执行结果" in
  (* fmt.Sprintf("[%s (ID: %s)]\n%s", prefix, toolUseID, resultText) *)
  lit "[" ++ prefix ++ lit " (ID: " ++ toolUseID ++ lit ")]" ++ [NL] ++ resultText.

(** The body of the loop of [extractMessageText]. *)
Definition textsOfItem (item : tools.Value) : list gostring :=
  match item with
  | tools.VObject block =>
      let blockType := stringOrZero (index block (lit "type")) in
      if bytes_eqb blockType (lit "text") then
        match index block (lit "text") with
        | tools.VString text => [text]
        | _ => []
        end
      else if bytes_eqb blockType (lit "tool_result") then
        [toolResultText block]
      else []
  | _ => []
  end.

(** [len(s)] as an [int]. *)
Definition len (s : gostring) : Z := Z.of_nat (length s).

Section Requests.

Variable World : Type.
Variable svc : handler.Services World.
Variable ToolDefinition : Type.
Variable lib : Collaborators ToolDefinition.

Local Notation "x <- m ;; k" := (handler.bind m (fun x => k))
  (at level 61, m at next level, right associativity).
Local Notation "m ;;; k" := (handler.bind m (fun _ => k))
  (at level 61, right associativity).

(** [getTextContent] *)
Definition getTextContent (content : tools.Value) : gostring :=
  match content with
  | tools.VNull => []
  | tools.VString v => v
  | tools.VArray v => strings.Join (flat_map textOfItem v) [NL]
  | v => fmt_Sprint lib v
  end.

(** [mapModelName] *)
Definition mapModelName (model : gostring) : gostring :=
  let model := strings.ToLower (handler.unicode_ToLower svc) model in
  if strings.Contains model (lit "/") then model
  else if strings.Contains model (lit "claude") then lit "anthropic/claude-sonnet-4.5"
  else if strings.Contains model (lit "gpt") then lit "openai/gpt-5-nano"
  else if strings.Contains model (lit "gemini") then lit "google/gemini-2.5-flash"
  else lit "anthropic/claude-sonnet-4.5".

(** *** [CountTokens] *)

(** The answer of [c.JSON]: the status with an error message, or with
    the estimate. *)
Inductive TokenCount : Type :=
| CountError (status : Z) (message : gostring)
| CountOK (status : Z) (input_tokens : Z).

(** [bound] is what [c.ShouldBindJSON] made of the body: the request,
    or the text of the error on the right.  The lengths added up are those
    of strings that are in memory together, so the sum stays within the
    range of [int] and [/] is the division of non-negative numbers. *)
Definition CountTokens (bound : MessagesRequest.t ToolDefinition + gostring)
  : TokenCount :=
  match bound with
  | inr err => CountError 400 err
  | inl req =>
      let totalChars :=
        fold_left (fun totalChars msg =>
                     (totalChars + len (getTextContent (Message.Content msg)))%Z)
                  (MessagesRequest.Messages req)
                  (len (getTextContent (MessagesRequest.System req))) in
      let tokens := Z.quot totalChars 4 in
      let tokens := if (tokens <? 1)%Z then 1%Z else tokens in
      CountOK 200 tokens
  end.

(** *** [extractMessageText] and [convertToCursor] *)

Definition extractMessageText (msg : Message.t) : gostring :=
  match Message.Content msg with
  | tools.VNull => []
  | tools.VString v => v
  | tools.VArray v => strings.Join (flat_map textsOfItem v) [NL]
  | v => fmt_Sprint lib v
  end.

(** A [CursorMessage] with one text part. *)
Definition cursorMessage (text id role : gostring) : browser.CursorMessage.t :=
  {| browser.CursorMessage.Parts :=
       [ {| browser.CursorPart.Type_ := lit "text";
            browser.CursorPart.Text := text |} ];
     browser.CursorMessage.ID := id;
     browser.CursorMessage.Role := role |}.

(** [for _, msg := range req.Messages]: a message is appended for every
    message of the request whose text is not empty. *)
Fixpoint forMessages (msgs : list Message.t)
         (messages : list browser.CursorMessage.t)
  : handler.M World (list browser.CursorMessage.t) :=
  match msgs with
  | [] => handler.ret messages
  | msg :: msgs' =>
      let text := extractMessageText msg in
      if negb (is_empty text) then
        id <- handler.generateID svc ;;
        forMessages msgs' (messages ++ [cursorMessage text id (Message.Role msg)])
      else forMessages msgs' messages
  end.

Definition convertToCursor (req : MessagesRequest.t ToolDefinition)
  : handler.M World browser.CursorChatRequest.t :=
  let sysText := getTextContent (MessagesRequest.System req) in
  let sysText :=
    if (0 <? length (MessagesRequest.Tools req))%nat
    then sysText ++ GenerateToolPrompt lib (MessagesRequest.Tools req)
    else sysText in
  messages <-
    (if negb (is_empty sysText) then
       id <- handler.generateID svc ;;
       handler.ret [cursorMessage sysText id (lit "system")]
     else handler.ret []) ;;
  messages <- forMessages (MessagesRequest.Messages req) messages ;;
  id <- handler.generateID svc ;;
  handler.ret
    {| browser.CursorChatRequest.Context :=
         [ {| browser.CursorContext.Type_ := lit "file";
              browser.CursorContext.Content := [];
              browser.CursorContext.FilePath := lit "/docs/" |} ];
       browser.CursorChatRequest.Model := mapModelName (MessagesRequest.Model req);
       browser.CursorChatRequest.ID := id;
       browser.CursorChatRequest.Messages := messages;
       browser.CursorChatRequest.Trigger := lit "submit-message" |}.

(** *** [Messages] *)

(** The answer is the JSON response, or nothing when the events of
    the stream are the answer. *)
Definition Messages (bound : MessagesRequest.t ToolDefinition + gostring)
  : handler.M World (option handler.Response) :=
  match bound with
  | inr err => handler.ret (Some (handler.JSONError 400 err))
  | inl req =>
      cursorReq <- convertToCursor req ;;
      if MessagesRequest.Stream req then
        handler.handleStream svc (SendStreamRequest lib cursorReq)
                             (MessagesRequest.Model req) ;;;
        handler.ret None
      else
        response <- handler.handleNonStream svc (SendRequest lib cursorReq)
                                            (MessagesRequest.Model req) ;;
        handler.ret (Some response)
  end.

End Requests.

End anthropic.

(** * Specification-side notions *)

(** ** The chunk reassembler over a whole stream *)

(** The lines that the callback goes through when the chunks are fed
    one after the other, starting from the pending buffer [buffer], and
    the buffer left. *)
Fixpoint feedAll (buffer : gostring) (chunks : list gostring)
  : list gostring * gostring :=
  match chunks with
  | [] => ([], buffer)
  | chunk :: chunks' =>
      let '(lines, buffer') := handler.reassemble buffer chunk in
      let '(lines', buffer'') := feedAll buffer' chunks' in
      (lines ++ lines', buffer'')
  end.

(** The lines of a text that a terminator closes, and what follows the
    last terminator. *)
Definition completeLines (s : gostring) : list gostring :=
  removelast (strings.Split s NL).

Definition pendingTail (s : gostring) : gostring :=
  last (strings.Split s NL) [].

(** Frames written back with their terminators. *)
Definition terminated (frames : list gostring) : gostring :=
  flat_map (fun f => f ++ [NL]) frames.

Definition nonEmpty (frames : list gostring) : list gostring :=
  filter (fun f => negb (is_empty f)) frames.

(** The second list is the first with empty lines put in between. *)
Inductive Padded : list gostring -> list gostring -> Prop :=
| Padded_nil : Padded [] []
| Padded_line (l : gostring) (ls fs : list gostring) :
    Padded ls fs -> Padded (l :: ls) (l :: fs)
| Padded_empty (ls fs : list gostring) :
    Padded ls fs -> Padded ls ([] :: fs).

(** ** Frames

    A Frame is a line that a terminator closes.  [strings.Split] returns
    one segment more than the buffer has terminators, the last being what
    follows the last terminator: the callback keeps that segment back as
    its buffer when the buffer does not end in a terminator, and leaves
    it, empty, among its lines when it does.  The Frames of a call are
    the other segments. *)
Definition framesOf (buffer chunk : gostring) : list gostring :=
  let lines := fst (handler.reassemble buffer chunk) in
  if strings.HasSuffix (buffer ++ chunk) [NL] then removelast lines else lines.

(** The Frames returned by feeding the chunks one after the other,
    starting from the pending buffer [buffer], and the buffer left. *)
Fixpoint feedFrames (buffer : gostring) (chunks : list gostring)
  : list gostring * gostring :=
  match chunks with
  | [] => ([], buffer)
  | chunk :: chunks' =>
      let '(frames', buffer'') :=
        feedFrames (snd (handler.reassemble buffer chunk)) chunks' in
      (framesOf buffer chunk ++ frames', buffer'')
  end.

(** The number of terminators of a text. *)
Definition terminators (s : gostring) : nat :=
  length (filter (Byte.eqb NL) s).

(** ** The event stream as the client reads it *)

Section StreamNotions.

Variable World : Type.
Variable svc : handler.Services World.

(** The state of a request that has written nothing yet. *)
Definition initial (u : nat) (w : World) : handler.Proc World :=
  {| handler.uuids := u; handler.world := w; handler.written := [] |}.

(** The deltas that the lines carry: for each line, what the decoding
    step of the handlers makes of it. *)
Definition deltasOf (lines : list gostring) : list gostring :=
  flat_map (fun line => match handler.textDelta svc line with
                        | Some delta => [delta]
                        | None => []
                        end) lines.

(** The deltas of a chunked stream, and the accumulated text: the
    deltas of all frames, in order of arrival, put together. *)
Definition deltas (chunks : list gostring) : list gostring :=
  deltasOf (fst (feedAll [] chunks)).

Definition AccumulatedText (chunks : list gostring) : gostring :=
  concat (deltas chunks).

(** The identifier that [generateID] makes of the [n]-th UUID. *)
Definition idAt (n : nat) : gostring :=
  firstn 16 (strings.ReplaceAll (handler.uuid_New svc n) (lit "-") []).

(** Does the refusal fallback of [parseResponseToBlocks] fire on the
    text? *)
Definition recovers (text : gostring) : bool :=
  (length (fst (handler.ParseToolCalls svc text)) =? 0)%nat
  && tools.DetectRefusal (handler.unicode_ToLower svc) text
  && negb (is_empty (tools.ExtractCommandFromRefusal text)).

(** The state after [n] more UUIDs and the events [es]. *)
Definition advance (p : handler.Proc World) (n : nat) (es : list handler.SSE) : handler.Proc World :=
  {| handler.uuids := handler.uuids p + n;
     handler.world := handler.world p;
     handler.written := handler.written p ++ es |}.

(** The events of the tool blocks: for the [k]-th invocation after
    [i0], a start, one delta and a stop with the index [i0 + k + 1]. *)
Fixpoint toolEvents (i0 u : nat) (calls : list tools.ToolCall) : list handler.SSE :=
  match calls with
  | [] => []
  | call :: calls' =>
      [ handler.content_block_start_tool_use (i0 + 1) (lit "toolu_" ++ idAt u)
                                             (tools.Name call);
        handler.content_block_delta_input_json (i0 + 1) (tools.Input_ call);
        handler.content_block_stop (i0 + 1) ]
      ++ toolEvents (S i0) (S u) calls'
  end.

(** Everything [handleStream] writes for a request, in order. *)
Definition streamEvents (up : handler.Upstream) (model : gostring) (u : nat)
  : list handler.SSE :=
  let calls := fst (handler.ParseToolCalls svc (AccumulatedText (handler.chunks up))) in
  [ handler.message_start (lit "msg_" ++ idAt u) model;
    handler.content_block_start_text 0 ]
  ++ map (handler.content_block_delta_text 0) (deltas (handler.chunks up))
  ++ match handler.err up with Some e => [handler.error e] | None => [] end
  ++ [ handler.content_block_stop 0 ]
  ++ toolEvents 0 (S u) calls
  ++ [ handler.message_delta
         (if (0 <? length calls)%nat then lit "tool_use" else lit "end_turn");
       handler.message_stop ].

(** The [tool_use] blocks of the invocations, the [k]-th with the
    identifier made of the UUID number [u + k]. *)
Fixpoint toolBlocks (u : nat) (calls : list tools.ToolCall)
  : list handler.ContentBlock.t :=
  match calls with
  | [] => []
  | call :: calls' =>
      handler.toolUseBlock (lit "toolu_" ++ idAt u) (tools.Name call)
                           (tools.Input_ call)
      :: toolBlocks (S u) calls'
  end.

(** The three blocks of the refusal fallback for the command [cmd],
    given what the executor returned. *)
Definition recoveryBlocks (u : nat) (cmd : gostring)
           (res : gostring * option gostring) : list handler.ContentBlock.t :=
  [ handler.textBlock (lit "正在执行命令...");
    handler.toolUseBlock (lit "toolu_" ++ idAt u) (lit "bash")
                         [(lit "command", tools.VString cmd)];
    handler.textBlock
      match snd res with
      | None => handler.resultBlockText (lit "✅ 命令执行成功") (fst res)
      | Some e => handler.resultBlockText (lit "❌ 命令执行失败") e
      end ].

(** The blocks of the ordinary path of [parseResponseToBlocks]: the
    remaining text, if any, the tool blocks, and the input text as the
    block of last resort. *)
Definition ordinaryBlocks (u : nat) (text : gostring)
           (calls : list tools.ToolCall) (rem : gostring)
  : list handler.ContentBlock.t :=
  match rem, calls with
  | [], [] => [handler.textBlock text]
  | [], _ :: _ => toolBlocks u calls
  | _ :: _, _ => handler.textBlock rem :: toolBlocks u calls
  end.

End StreamNotions.

(** ** The upstream events as the specification reads them

    The notions of the data model, written from their description and
    not from the handlers: the payload of a Frame, the event it decodes
    to, and the deltas that count. *)

(** What follows the prefix, when the text starts with it. *)
Fixpoint stripPrefix (prefix s : gostring) : option gostring :=
  match prefix, s with
  | [], _ => Some s
  | p :: prefix', c :: s' =>
      if Byte.eqb p c then stripPrefix prefix' s' else None
  | _ :: _, [] => None
  end.

(** An event of kind [text-delta] whose delta is not empty. *)
Definition isTextDelta (event : handler.CursorSSEEvent.t) : bool :=
  match handler.CursorSSEEvent.Delta event with
  | [] => false
  | _ :: _ => bytes_eqb (handler.CursorSSEEvent.Type_ event) (lit "text-delta")
  end.

Section DecoderNotions.

Variable World : Type.
Variable svc : handler.Services World.

(** The event of a Frame: the Frame starts with the marker [data: ],
    the payload after it is not empty and decodes as a JSON object. *)
Definition decode (frame : gostring) : option handler.CursorSSEEvent.t :=
  match stripPrefix (lit "data: ") frame with
  | Some (b :: payload) => handler.json_Unmarshal svc (b :: payload)
  | _ => None
  end.

(** The events of a sequence of Frames, in order of arrival. *)
Definition upstreamEvents (frames : list gostring) : list handler.CursorSSEEvent.t :=
  flat_map (fun frame => match decode frame with
                         | Some event => [event]
                         | None => []
                         end) frames.

(** The non-empty deltas of the [text-delta] events, in order of
    arrival; put together they are the accumulated text. *)
Definition upstreamDeltas (frames : list gostring) : list gostring :=
  map handler.CursorSSEEvent.Delta (filter isTextDelta (upstreamEvents frames)).

End DecoderNotions.

(** The text of an upstream that sends the events one per Frame, each
    written by [encode]. *)
Definition sent (encode : handler.CursorSSEEvent.t -> gostring)
           (events : list handler.CursorSSEEvent.t) : gostring :=
  flat_map (fun event => lit "data: " ++ encode event ++ [NL]) events.

(** The [content_block_delta] events of block [i], and the texts of its
    text deltas. *)
Definition deltaEventsAt (i : nat) (events : list handler.SSE) : list handler.SSE :=
  filter (fun e => match e with
                   | handler.content_block_delta_text j _
                   | handler.content_block_delta_input_json j _ => Nat.eqb j i
                   | _ => false
                   end) events.

Definition textDeltasAt (i : nat) (events : list handler.SSE) : list gostring :=
  flat_map (fun e => match e with
                     | handler.content_block_delta_text j text =>
                         if Nat.eqb j i then [text] else []
                     | _ => []
                     end) events.

(** The block indices of the [content_block_start] events and of the
    [content_block_stop] events, in order of emission. *)
Definition startIndices (events : list handler.SSE) : list nat :=
  flat_map (fun e => match e with
                     | handler.content_block_start_text i
                     | handler.content_block_start_tool_use i _ _ => [i]
                     | _ => []
                     end) events.

Definition stopIndices (events : list handler.SSE) : list nat :=
  flat_map (fun e => match e with
                     | handler.content_block_stop i => [i]
                     | _ => []
                     end) events.

(** The types of the blocks that the stream opens. *)
Definition startTypes (events : list handler.SSE) : list gostring :=
  flat_map (fun e => match e with
                     | handler.content_block_start_text _ => [lit "text"]
                     | handler.content_block_start_tool_use _ _ _ => [lit "tool_use"]
                     | _ => []
                     end) events.

(** The discipline of block indices, as a checker that reads the events
    in order: a block starts only when none is open and takes the next
    unused index, deltas and the stop carry the index of the open block,
    and no block is left open. *)
Fixpoint blocksSequential (next : nat) (open : option nat) (events : list handler.SSE)
  : bool :=
  match events with
  | [] => match open with None => true | Some _ => false end
  | e :: events' =>
      match e with
      | handler.content_block_start_text i
      | handler.content_block_start_tool_use i _ _ =>
          match open with
          | None => Nat.eqb i next && blocksSequential (S next) (Some i) events'
          | Some _ => false
          end
      | handler.content_block_delta_text i _
      | handler.content_block_delta_input_json i _ =>
          match open with
          | Some j => Nat.eqb i j && blocksSequential next open events'
          | None => false
          end
      | handler.content_block_stop i =>
          match open with
          | Some j => Nat.eqb i j && blocksSequential next None events'
          | None => false
          end
      | _ => blocksSequential next open events'
      end
  end.

(** The stop reasons that the [message_delta] events announce. *)
Definition stopReasons (events : list handler.SSE) : list gostring :=
  flat_map (fun e => match e with
                     | handler.message_delta r => [r]
                     | _ => []
                     end) events.

Definition isToolUseStart (e : handler.SSE) : bool :=
  match e with
  | handler.content_block_start_tool_use _ _ _ => true
  | _ => false
  end.

Definition isToolUse (b : handler.ContentBlock.t) : bool :=
  bytes_eqb (handler.ContentBlock.Type_ b) (lit "tool_use").

(** The content blocks that a client assembles from the event stream: a
    start event opens a block, the deltas fill its text or its input, the
    stop event closes it. *)
Fixpoint assemble (open : option handler.ContentBlock.t) (events : list handler.SSE)
  : list handler.ContentBlock.t :=
  match events with
  | [] => []
  | e :: events' =>
      match e, open with
      | handler.content_block_start_text _, _ =>
          assemble (Some (handler.textBlock [])) events'
      | handler.content_block_start_tool_use _ id name, _ =>
          assemble (Some (handler.toolUseBlock id name [])) events'
      | handler.content_block_delta_text _ text, Some b =>
          assemble (Some (handler.textBlock (handler.ContentBlock.Text b ++ text))) events'
      | handler.content_block_delta_input_json _ input, Some b =>
          assemble (Some (handler.toolUseBlock (handler.ContentBlock.ID b)
                                               (handler.ContentBlock.Name b) input))
                   events'
      | handler.content_block_stop _, Some b => b :: assemble None events'
      | _, _ => assemble open events'
      end
  end.

Definition clientBlocks (events : list handler.SSE) : list handler.ContentBlock.t :=
  assemble None events.


(** ** UTF-8: the shape of decoded and encoded runes *)

Open Scope Z_scope.

(** The text is empty or starts with a byte that can start a rune. *)
Definition startsOrEnds (x : gostring) : Prop :=
  match x with
  | [] => True
  | y :: _ => utf8.RuneStart y = true
  end.

(** What a decoding step found: a rune whose [w] bytes decode to it
    whatever follows, or a single byte that starts no encoding. *)
Inductive Decoded (s : gostring) : Z -> nat -> Prop :=
| Decoded_valid (r : Z) (w : nat) :
    (1 <= w <= length s)%nat ->
    (forall t, utf8.DecodeRuneInString (firstn w s ++ t) = (r, w)) ->
    startsOrEnds s ->
    Decoded s r w
| Decoded_invalid :
    (1 <= length s)%nat ->
    Decoded s utf8.RuneError 1.

(** The tokens of [utf8.range]: a rune with the bytes that encode it,
    or [RuneError] with the one byte that was not part of an encoding. *)
Definition validTok (t : Z * gostring) : Prop :=
  snd t <> [] /\ startsOrEnds (snd t)
  /\ forall rest, utf8.DecodeRuneInString (snd t ++ rest) = (fst t, length (snd t)).

Definition errorTok (t : Z * gostring) : Prop :=
  fst t = utf8.RuneError /\ length (snd t) = 1%nat.

(** A continuation byte. *)
Definition isCont (b : byte) : bool := negb (utf8.RuneStart b).

(** The number of continuation bytes that a leading byte announces. *)
Definition extraLen (b : byte) : nat :=
  if byteZ b <? 0x80 then 0
  else if byteZ b <? 0xE0 then 1
  else if byteZ b <? 0xF0 then 2
  else 3.

(** A leading byte that announces [extra] continuation bytes. *)
Definition leadOf (extra : nat) (b : byte) : bool :=
  utf8.RuneStart b && Nat.eqb (extraLen b) extra.

(** One rune in its encoding: a leading byte and the continuation
    bytes it announces. *)
Definition isUnit (u : gostring) : Prop :=
  exists b0 bs,
    u = b0 :: bs /\ utf8.RuneStart b0 = true
    /\ forallb isCont bs = true /\ length bs = extraLen b0.

(** What [strings.Map] writes for one rune: nothing, or one encoding. *)
Definition isPiece (p : gostring) : Prop := p = [] \/ isUnit p.

(** The runes whose lower case [unicode.LowerTable] fixes: ASCII and
    the CJK ideographs. *)
Definition okRune (c : Z) : bool :=
  ((0 <=? c) && (c <? 0x80)) || ((0x4E00 <=? c) && (c <=? 0x9FFF)).

(** A phrase on which the search is monotone: not empty, made of such
    runes, and without the first byte of the replacement character. *)
Definition goodPhrase (p : gostring) : bool :=
  negb (is_empty p)
  && forallb (fun t => okRune (fst t)) (utf8.range p)
  && negb (existsb (Byte.eqb "239"%byte) (strings.Map unicode.asciiToLower p)).

(** The piece that [ToLower] writes for a token. *)
Definition lowered (lower : Z -> Z) (t : Z * gostring) : gostring :=
  strings.writeMapped (lower (fst t)).

Close Scope Z_scope.

(** ** The guessed action, read as one ordered list of patterns *)

(** The candidate patterns in the order of the source, each with the
    action of its group. *)
Definition actionPatterns : list (regexp.Regexp * gostring) :=
  map (fun re => (re, lit "create_file")) tools.createPatterns
  ++ map (fun re => (re, lit "read_file")) tools.readPatterns
  ++ map (fun re => (re, lit "run_command")) tools.cmdPatterns.

(** The action of the first pattern of that list that matches the text,
    empty when none does. *)
Definition firstMatchingAction (text : gostring) : gostring :=
  match find (fun pa => regexp.MatchString (fst pa) text) actionPatterns with
  | Some pa => snd pa
  | None => []
  end.

(** The action of the last group, in the order create, read, run, that
    has a pattern matching the text, empty when none has. *)
Definition lastGroupAction (text : gostring) : gostring :=
  if tools.anyMatch tools.cmdPatterns text then lit "run_command"
  else if tools.anyMatch tools.readPatterns text then lit "read_file"
  else if tools.anyMatch tools.createPatterns text then lit "create_file"
  else [].

(** ** Escaping, read byte by byte *)

Definition CR : byte := "013"%byte.
Definition TAB : byte := "009"%byte.

(** What the five passes of [escapeJSON] make of one byte. *)
Definition escapeByte (b : byte) : gostring :=
  if Byte.eqb b "\"%byte then lit "\\"
  else if Byte.eqb b dq then q "\^"
  else if Byte.eqb b NL then lit "\n"
  else if Byte.eqb b CR then lit "\r"
  else if Byte.eqb b TAB then lit "\t"
  else [b].

(** The byte that an escape letter stands for. *)
Definition escapedBy (c : byte) : option byte :=
  if Byte.eqb c "\"%byte then Some "\"%byte
  else if Byte.eqb c dq then Some dq
  else if Byte.eqb c "n"%byte then Some NL
  else if Byte.eqb c "r"%byte then Some CR
  else if Byte.eqb c "t"%byte then Some TAB
  else None.

(** A reader of the body of a JSON string literal that knows those five
    escapes: it gives up at a bare quote, at a raw line feed, carriage
    return or tab, at any other escape and at a backslash that ends the
    text. *)
Fixpoint unescapeFrom (escaped : bool) (s : gostring) : option gostring :=
  match s with
  | [] => if escaped then None else Some []
  | c :: s' =>
      if escaped then
        match escapedBy c with
        | Some b => option_map (cons b) (unescapeFrom false s')
        | None => None
        end
      else if Byte.eqb c "\"%byte then unescapeFrom true s'
      else if Byte.eqb c dq || Byte.eqb c NL || Byte.eqb c CR || Byte.eqb c TAB
      then None
      else option_map (cons c) (unescapeFrom false s')
  end.

Definition unescapeJSON (s : gostring) : option gostring := unescapeFrom false s.

(** A UUID without its dashes. *)
Definition undashed (uuid : gostring) : gostring :=
  filter (fun b => negb (Byte.eqb b "-"%byte)) uuid.

(** ** The blocks of a message content *)

(** The item is a block, that is a map, whose [type] is the string [ty]. *)
Definition isBlockOfType (ty : gostring) (item : tools.Value) : bool :=
  match item with
  | tools.VObject block => anthropic.equalsString (anthropic.index block (lit "type")) ty
  | _ => false
  end.

(** The content is a list that holds a [tool_result] block. *)
Definition hasToolResult (content : tools.Value) : bool :=
  match content with
  | tools.VArray items => existsb (isBlockOfType (lit "tool_result")) items
  | _ => false
  end.

(** The items of a list that [extractMessageText] reads. *)
Definition readBlocks (items : list tools.Value) : list tools.Value :=
  filter (fun item => isBlockOfType (lit "text") item
                      || isBlockOfType (lit "tool_result") item) items.

(** ** The request as a conversation *)

Section RequestNotions.

Variable World : Type.
Variable svc : handler.Services World.
Variable ToolDefinition : Type.
Variable lib : anthropic.Collaborators ToolDefinition.

(** The number of bytes of the system text and of the texts of the
    messages, as [getTextContent] reads them. *)
Definition textLength (req : anthropic.MessagesRequest.t ToolDefinition) : nat :=
  length (anthropic.getTextContent lib (anthropic.MessagesRequest.System req))
  + list_sum (map (fun msg => length (anthropic.getTextContent
                                        lib (anthropic.Message.Content msg)))
                  (anthropic.MessagesRequest.Messages req)).

(** The system text that goes upstream: the text of [system], followed
    by the tool prompt when the request defines tools. *)
Definition systemText (req : anthropic.MessagesRequest.t ToolDefinition) : gostring :=
  anthropic.getTextContent lib (anthropic.MessagesRequest.System req)
  ++ match anthropic.MessagesRequest.Tools req with
     | [] => []
     | _ :: _ => anthropic.GenerateToolPrompt lib (anthropic.MessagesRequest.Tools req)
     end.

(** The turns of the conversation that goes upstream, each a role with
    a text: the system text, when it is not empty, and then the messages
    of the request whose text is not empty, in their order. *)
Definition turns (req : anthropic.MessagesRequest.t ToolDefinition)
  : list (gostring * gostring) :=
  (if is_empty (systemText req) then [] else [(lit "system", systemText req)])
  ++ filter (fun turn => negb (is_empty (snd turn)))
            (map (fun msg => (anthropic.Message.Role msg,
                              anthropic.extractMessageText lib msg))
                 (anthropic.MessagesRequest.Messages req)).

(** The upstream messages of turns, the [k]-th with the identifier
    made of the UUID number [u + k]. *)
Fixpoint cursorMessages (u : nat) (ts : list (gostring * gostring))
  : list browser.CursorMessage.t :=
  match ts with
  | [] => []
  | (role, text) :: ts' =>
      anthropic.cursorMessage text (idAt svc u) role :: cursorMessages (S u) ts'
  end.

(** The role and the text of an upstream message with one part. *)
Definition turnOf (m : browser.CursorMessage.t) : gostring * gostring :=
  (browser.CursorMessage.Role m,
   concat (map browser.CursorPart.Text (browser.CursorMessage.Parts m))).

End RequestNotions.

(** ** The frame of the event stream *)

(** The events that open and close the message. *)
Definition isMessageEvent (e : handler.SSE) : bool :=
  match e with
  | handler.message_start _ _ | handler.message_delta _ | handler.message_stop => true
  | _ => false
  end.

Definition isErrorEvent (e : handler.SSE) : bool :=
  match e with
  | handler.error _ => true
  | _ => false
  end.

(** The name and the input of a block. *)
Definition invocation (b : handler.ContentBlock.t) : gostring * tools.Input :=
  (handler.ContentBlock.Name b, handler.ContentBlock.Input b).

(** ** Pieces of a text *)

(** The text [piece] stands in [s], byte for byte. *)
Definition occursIn (piece s : gostring) : Prop :=
  exists before after, s = before ++ piece ++ after.

(** ** One event on the wire *)

(** The texts that [wire] puts into the data line as they are. *)
Definition rawTexts (World : Type) (svc : handler.Services World)
           (e : handler.SSE) : list gostring :=
  match e with
  | handler.message_start id model => [id; model]
  | handler.content_block_start_tool_use _ id name => [id; name]
  | handler.content_block_delta_text _ text => [handler.json_Marshal_string svc text]
  | handler.error message => [message]
  | handler.message_delta stop_reason => [stop_reason]
  | _ => []
  end.

(** A well-formed frame of the event stream: the [event:] line, one
    [data:] line and a blank line. *)
Definition oneFrame (w : gostring) : Prop :=
  exists name data,
    w = lit "event: " ++ name ++ [NL] ++ lit "data: " ++ data ++ [NL; NL]
    /\ ~ In NL name /\ ~ In NL data.

(** ** Instances for the examples

    Collaborators simple enough to run: a decoder for the frames of the
    examples, a parser that knows one line of markup, an executor that
    logs the commands it is given. *)
Module Example.

(** The characters of a JSON string up to its closing quote, with the
    escapes of the quote, the backslash and the line feed undone. *)
Fixpoint jsonString (s : gostring) (skip : bool) : option (gostring * gostring) :=
  match s with
  | [] => None
  | c :: s' =>
      if skip then
        match jsonString s' false with
        | Some (v, r) =>
            Some ((if Byte.eqb c "n"%byte then NL else c) :: v, r)
        | None => None
        end
      else if Byte.eqb c dq then Some ([], s')
      else if Byte.eqb c "\"%byte then jsonString s' true
      else match jsonString s' false with
           | Some (v, r) => Some (c :: v, r)
           | None => None
           end
  end.

(** Decodes [{^type^:^...^,^delta^:^...^}], and nothing else. *)
Definition Unmarshal (data : gostring) : option handler.CursorSSEEvent.t :=
  if strings.HasPrefix data (q "{^type^:^") then
    match jsonString (strings.TrimPrefix data (q "{^type^:^")) false with
    | Some (ty, r) =>
        if strings.HasPrefix r (q ",^delta^:^") then
          match jsonString (strings.TrimPrefix r (q ",^delta^:^")) false with
          | Some (delta, r') =>
              if bytes_eqb r' (lit "}")
              then Some {| handler.CursorSSEEvent.Type_ := ty;
                           handler.CursorSSEEvent.Delta := delta |}
              else None
          | None => None
          end
        else None
    | None => None
    end
  else None.

(** A response that starts with [CALL ] asks for [read_file] on the
    path that follows; any other response has no invocation. *)
Definition Parse (text : gostring) : list tools.ToolCall * gostring :=
  if strings.HasPrefix text (lit "CALL ") then
    ([ {| tools.Name := lit "read_file";
          tools.Input_ := [(lit "path",
                            tools.VString (strings.TrimPrefix text (lit "CALL ")))] |} ],
     [])
  else ([], text).

(** The world is the list of the commands run so far; the command
    [false] fails, every other one prints [done]. *)
Definition Run (name : gostring) (input : tools.Input) (w : list gostring)
  : (gostring * option gostring) * list gostring :=
  match input with
  | [(_, tools.VString cmd)] =>
      if bytes_eqb cmd (lit "false")
      then (([], Some (lit "exit status 1")), w ++ [cmd])
      else ((lit "done", None), w ++ [cmd])
  | _ => (([], Some (lit "bad input")), w)
  end.

Definition services : handler.Services (list gostring) :=
  {| handler.unicode_ToLower := unicode.asciiToLower;
     handler.json_Unmarshal := Unmarshal;
     handler.json_Marshal_string := fun s => [dq] ++ s ++ [dq];
     handler.json_Marshal_input := fun _ => lit "{}";
     handler.uuid_New := fun _ => lit "123e4567-e89b-12d3-a456-426614174000";
     handler.ParseToolCalls := Parse;
     handler.Execute := Run |}.

(** A refusal that names a command in a fenced block. *)
Definition refusal : gostring :=
  lit "I can't run it. Run:" ++ [NL] ++ lit "```bash" ++ [NL]
  ++ lit "ls -la" ++ [NL] ++ lit "```".

(** The same refusal as one upstream frame, cut into two chunks. *)
Definition refusalChunks : list gostring :=
  [ q "data: {^type^:^text-delta^,^delta^:^I can't run it. Run:\n```ba";
    q "sh\nls -la\n```^}" ++ [NL] ].

End Example.

(** A request to try the conversion on: collaborators that print any
    other value as [<value>] and every list of tools as [<tools>], and
    an upstream service that answers nothing. *)
Module ExampleRequest.

Definition lib : anthropic.Collaborators unit :=
  {| anthropic.fmt_Sprint := fun _ => lit "<value>";
     anthropic.GenerateToolPrompt := fun _ => lit "<tools>";
     anthropic.SendStreamRequest :=
       fun _ => {| handler.chunks := []; handler.err := None |};
     anthropic.SendRequest := fun _ => inl [] |}.

Definition textBlock (text : gostring) : tools.Value :=
  tools.VObject [ (lit "type", tools.VString (lit "text"));
                  (lit "text", tools.VString text) ].

(** The result of the invocation [toolu_1], without content. *)
Definition emptyResult : list (gostring * tools.Value) :=
  [ (lit "type", tools.VString (lit "tool_result"));
    (lit "tool_use_id", tools.VString (lit "toolu_1")) ].

Definition toolUse : tools.Value :=
  tools.VObject [ (lit "type", tools.VString (lit "tool_use"));
                  (lit "id", tools.VString (lit "toolu_1"));
                  (lit "name", tools.VString (lit "bash")) ].

End ExampleRequest.

(** Parsers that do not hand the text back as they got it, and an
    encoder of upstream events. *)
Module ExampleParsers.

(** A parser that finds no invocation and trims the text it leaves. *)
Definition trimming : handler.Services (list gostring) :=
  {| handler.unicode_ToLower := unicode.asciiToLower;
     handler.json_Unmarshal := Example.Unmarshal;
     handler.json_Marshal_string := fun s => [dq] ++ s ++ [dq];
     handler.json_Marshal_input := fun _ => lit "{}";
     handler.uuid_New := fun _ => lit "123e4567-e89b-12d3-a456-426614174000";
     handler.ParseToolCalls := fun text => ([], strings.TrimSpace text);
     handler.Execute := Example.Run |}.

(** A parser that takes all of the text for markup: it finds no
    invocation in it and leaves no text. *)
Definition consuming : handler.Services (list gostring) :=
  {| handler.unicode_ToLower := unicode.asciiToLower;
     handler.json_Unmarshal := Example.Unmarshal;
     handler.json_Marshal_string := fun s => [dq] ++ s ++ [dq];
     handler.json_Marshal_input := fun _ => lit "{}";
     handler.uuid_New := fun _ => lit "123e4567-e89b-12d3-a456-426614174000";
     handler.ParseToolCalls := fun _ => ([], []);
     handler.Execute := Example.Run |}.

(** The JSON text of an event whose fields need no escape. *)
Definition encode (event : handler.CursorSSEEvent.t) : gostring :=
  q "{^type^:^" ++ handler.CursorSSEEvent.Type_ event
  ++ q "^,^delta^:^" ++ handler.CursorSSEEvent.Delta event ++ q "^}".

Definition event (type delta : string) : handler.CursorSSEEvent.t :=
  {| handler.CursorSSEEvent.Type_ := lit type;
     handler.CursorSSEEvent.Delta := lit delta |}.

(** One [text-delta] frame that arrives in two chunks. *)
Definition helloChunks : list gostring :=
  [ q "data: {^type^:^text-delta^,^delta^:^Hel"; q "lo^}" ++ [NL] ].

(** A refusal that names a command that fails. *)
Definition failingRefusal : gostring :=
  lit "I can't run it. Run:" ++ [NL] ++ lit "```bash" ++ [NL]
  ++ lit "false" ++ [NL] ++ lit "```".

End ExampleParsers.

Unset Implicit Arguments.

(** * Proofs *)

(** ** Bytes and Go strings *)

Lemma byte_eqb_eq (a b : byte) : Byte.eqb a b = true <-> a = b.
Proof.
  split; [apply Byte.byte_dec_bl | apply Byte.byte_dec_lb].
Qed.

Lemma byte_eqb_refl (a : byte) : Byte.eqb a a = true.
Proof. now apply byte_eqb_eq. Qed.

Lemma byte_eqb_neq (a b : byte) : Byte.eqb a b = false <-> a <> b.
Proof.
  rewrite <- byte_eqb_eq. destruct (Byte.eqb a b); intuition congruence.
Qed.

Lemma bytes_eqb_eq (a b : gostring) : bytes_eqb a b = true <-> a = b.
Proof.
  revert b; induction a as [|x a IH]; intros [|y b]; simpl;
    try (split; congruence).
  rewrite andb_true_iff, byte_eqb_eq, IH. split.
  - intros [-> ->]; reflexivity.
  - intros H; inversion H; auto.
Qed.

Lemma is_empty_true (s : gostring) : is_empty s = true <-> s = [].
Proof. destruct s; simpl; split; congruence. Qed.

Lemma is_empty_false (s : gostring) : is_empty s = false <-> s <> [].
Proof. destruct s; simpl; split; congruence. Qed.

(** ** [strings.Split] and the reassembler *)

Lemma Split_not_nil (s : gostring) (sep : byte) : strings.Split s sep <> [].
Proof.
  destruct s as [|c s]; simpl; [discriminate|].
  destruct (Byte.eqb c sep); [discriminate|].
  destruct (strings.Split s sep); discriminate.
Qed.

Lemma Split_cons_sep (s : gostring) (sep : byte) :
  strings.Split (sep :: s) sep = [] :: strings.Split s sep.
Proof. simpl. now rewrite byte_eqb_refl. Qed.

Lemma Split_cons_other (c : byte) (s : gostring) (sep : byte) :
  c <> sep ->
  strings.Split (c :: s) sep =
    (c :: hd [] (strings.Split s sep)) :: tl (strings.Split s sep).
Proof.
  intros Hc. simpl. apply byte_eqb_neq in Hc. rewrite Hc.
  pose proof (Split_not_nil s sep).
  destruct (strings.Split s sep); [contradiction | reflexivity].
Qed.

Lemma completeLines_cons_NL (s : gostring) :
  completeLines (NL :: s) = [] :: completeLines s.
Proof.
  unfold completeLines. rewrite Split_cons_sep.
  pose proof (Split_not_nil s NL).
  destruct (strings.Split s NL); [contradiction | reflexivity].
Qed.

Lemma pendingTail_cons_NL (s : gostring) : pendingTail (NL :: s) = pendingTail s.
Proof.
  unfold pendingTail. rewrite Split_cons_sep.
  pose proof (Split_not_nil s NL).
  destruct (strings.Split s NL); [contradiction | reflexivity].
Qed.

(** A byte other than the terminator joins the first line, or the pending
    tail when no line is complete yet. *)
Lemma completeLines_cons_other (c : byte) (s : gostring) :
  c <> NL ->
  completeLines (c :: s) =
    match completeLines s with
    | [] => []
    | l :: ls => (c :: l) :: ls
    end.
Proof.
  intros Hc. unfold completeLines. rewrite Split_cons_other by assumption.
  pose proof (Split_not_nil s NL).
  destruct (strings.Split s NL) as [|l [|l' ls]]; [contradiction | reflexivity |].
  reflexivity.
Qed.

Lemma pendingTail_cons_other (c : byte) (s : gostring) :
  c <> NL ->
  pendingTail (c :: s) =
    match completeLines s with
    | [] => c :: pendingTail s
    | _ :: _ => pendingTail s
    end.
Proof.
  intros Hc. unfold pendingTail, completeLines.
  rewrite Split_cons_other by assumption.
  pose proof (Split_not_nil s NL).
  destruct (strings.Split s NL) as [|l [|l' ls]]; [contradiction | reflexivity |].
  reflexivity.
Qed.

Lemma Split_complete_pending (s : gostring) :
  strings.Split s NL = completeLines s ++ [pendingTail s].
Proof.
  unfold completeLines, pendingTail.
  apply app_removelast_last, Split_not_nil.
Qed.

(** The text is its complete lines, each with its terminator, followed
    by the pending tail. *)
Lemma terminated_complete_pending (s : gostring) :
  s = terminated (completeLines s) ++ pendingTail s.
Proof.
  induction s as [|c s IH]; [reflexivity|].
  destruct (Byte.byte_eq_dec c NL) as [->|Hc].
  - rewrite completeLines_cons_NL, pendingTail_cons_NL.
    simpl. now rewrite <- IH.
  - rewrite completeLines_cons_other, pendingTail_cons_other by assumption.
    destruct (completeLines s) as [|l ls] eqn:E.
    + simpl in *. now rewrite <- IH.
    + simpl in *. rewrite <- app_assoc in IH. simpl in IH. rewrite <- app_assoc.
      simpl. now rewrite <- IH.
Qed.

Lemma completeLines_app (s t : gostring) :
  completeLines (s ++ t) = completeLines s ++ completeLines (pendingTail s ++ t).
Proof.
  induction s as [|c s IH]; [reflexivity|].
  destruct (Byte.byte_eq_dec c NL) as [->|Hc].
  - simpl app. rewrite !completeLines_cons_NL, pendingTail_cons_NL, IH. reflexivity.
  - simpl app. rewrite (completeLines_cons_other c (s ++ t)) by assumption.
    rewrite (completeLines_cons_other c s), pendingTail_cons_other by assumption.
    rewrite IH.
    destruct (completeLines s) as [|l ls] eqn:E; simpl.
    + now rewrite completeLines_cons_other by assumption.
    + reflexivity.
Qed.

Lemma pendingTail_app (s t : gostring) :
  pendingTail (s ++ t) = pendingTail (pendingTail s ++ t).
Proof.
  induction s as [|c s IH]; [reflexivity|].
  destruct (Byte.byte_eq_dec c NL) as [->|Hc].
  - simpl app. rewrite !pendingTail_cons_NL. exact IH.
  - simpl app. rewrite (pendingTail_cons_other c (s ++ t)) by assumption.
    rewrite (pendingTail_cons_other c s) by assumption.
    rewrite completeLines_app, IH.
    destruct (completeLines s) as [|l ls] eqn:E; simpl.
    + rewrite pendingTail_cons_other by assumption.
      destruct (completeLines (pendingTail s ++ t)); reflexivity.
    + reflexivity.
Qed.

Lemma completeLines_snoc_NL (s : gostring) : completeLines (s ++ [NL]) <> [].
Proof.
  induction s as [|c s IH]; simpl app.
  - rewrite completeLines_cons_NL. discriminate.
  - destruct (Byte.byte_eq_dec c NL) as [->|Hc].
    + rewrite completeLines_cons_NL. discriminate.
    + rewrite completeLines_cons_other by assumption.
      destruct (completeLines (s ++ [NL])); [contradiction | discriminate].
Qed.

Lemma pendingTail_snoc_NL (s : gostring) : pendingTail (s ++ [NL]) = [].
Proof.
  induction s as [|c s IH]; simpl app.
  - now rewrite pendingTail_cons_NL.
  - destruct (Byte.byte_eq_dec c NL) as [->|Hc].
    + now rewrite pendingTail_cons_NL.
    + rewrite pendingTail_cons_other by assumption.
      pose proof (completeLines_snoc_NL s).
      destruct (completeLines (s ++ [NL])); [contradiction | assumption].
Qed.

Lemma HasPrefix_app (s p : gostring) :
  strings.HasPrefix s p = true <-> exists r, s = p ++ r.
Proof.
  revert s; induction p as [|x p IH]; intros s; simpl.
  - split; [intros _; now exists s | reflexivity].
  - destruct s as [|c s]; simpl.
    + split; [discriminate | intros [r Hr]; discriminate].
    + rewrite andb_true_iff, byte_eqb_eq, IH. split.
      * intros [-> [r ->]]. now exists r.
      * intros [r Hr]. inversion Hr; subst. split; [reflexivity | now exists r].
Qed.

Lemma HasSuffix_NL (s : gostring) :
  strings.HasSuffix s [NL] = true <-> exists s', s = s' ++ [NL].
Proof.
  unfold strings.HasSuffix. rewrite HasPrefix_app. simpl rev. split.
  - intros [r Hr]. exists (rev r).
    rewrite <- (rev_involutive s), Hr. reflexivity.
  - intros [s' ->]. exists (rev s'). now rewrite rev_app_distr.
Qed.

(** What one call of the reassembler returns: the complete lines of the
    buffer, one empty line more when the buffer ends in a terminator, and
    the pending tail as the new buffer. *)
Lemma reassemble_spec (buffer chunk : gostring) :
  handler.reassemble buffer chunk =
    (completeLines (buffer ++ chunk)
       ++ (if strings.HasSuffix (buffer ++ chunk) [NL] then [[]] else []),
     pendingTail (buffer ++ chunk)).
Proof.
  unfold handler.reassemble.
  pose proof (Split_not_nil (buffer ++ chunk) NL) as Hne.
  destruct (strings.HasSuffix (buffer ++ chunk) [NL]) eqn:Hs; simpl negb; simpl andb.
  - apply HasSuffix_NL in Hs. destruct Hs as [s' Hs'].
    rewrite Split_complete_pending at 1. rewrite Hs', pendingTail_snoc_NL.
    reflexivity.
  - destruct (strings.Split (buffer ++ chunk) NL) eqn:E; [contradiction|].
    simpl Nat.ltb. cbv iota. unfold completeLines, pendingTail. rewrite E.
    now rewrite app_nil_r.
Qed.

Lemma Padded_refl (ls : list gostring) : Padded ls ls.
Proof. induction ls; constructor; assumption. Qed.

Lemma Padded_app (a a' b b' : list gostring) :
  Padded a a' -> Padded b b' -> Padded (a ++ b) (a' ++ b').
Proof.
  intros Ha Hb. induction Ha; simpl; try constructor; assumption.
Qed.

Lemma Padded_nonEmpty (ls fs : list gostring) :
  Padded ls fs -> nonEmpty fs = nonEmpty ls.
Proof.
  unfold nonEmpty. induction 1; simpl; [reflexivity | | assumption].
  destruct (is_empty l); simpl; congruence.
Qed.

Lemma completeLines_pendingTail (s : gostring) : completeLines (pendingTail s) = [].
Proof.
  pose proof (completeLines_app s []) as H. rewrite !app_nil_r in H.
  rewrite <- (app_nil_r (completeLines s)) in H at 1.
  apply app_inv_head in H. now symmetry.
Qed.

Lemma pendingTail_idem (s : gostring) : pendingTail (pendingTail s) = pendingTail s.
Proof.
  pose proof (pendingTail_app s []) as H. rewrite !app_nil_r in H. now symmetry.
Qed.

(** Feeding chunks after a text [s] has gone through: the lines are the
    complete lines that the chunks add, padded, and the buffer is the
    pending tail of everything. *)
Lemma feedAll_spec (chunks : list gostring) (s : gostring) :
  Padded (completeLines (pendingTail s ++ concat chunks))
         (fst (feedAll (pendingTail s) chunks))
  /\ snd (feedAll (pendingTail s) chunks) = pendingTail (s ++ concat chunks).
Proof.
  revert s; induction chunks as [|chunk chunks IH]; intros s; simpl.
  - rewrite !app_nil_r, completeLines_pendingTail. split; constructor.
  - rewrite reassemble_spec.
    assert (Hp : pendingTail (pendingTail s ++ chunk) = pendingTail (s ++ chunk))
      by (symmetry; apply pendingTail_app).
    rewrite Hp. specialize (IH (s ++ chunk)).
    destruct (feedAll (pendingTail (s ++ chunk)) chunks) as [lines' buffer''].
    simpl in *. destruct IH as [IH1 IH2]. split.
    + rewrite app_assoc, completeLines_app, Hp.
      apply Padded_app; [|assumption].
      destruct (strings.HasSuffix _ _).
      * rewrite <- (app_nil_r (completeLines _)) at 1.
        apply Padded_app; [apply Padded_refl | repeat constructor].
      * rewrite app_nil_r. apply Padded_refl.
    + now rewrite IH2, <- app_assoc.
Qed.

Lemma feedAll_from_empty (chunks : list gostring) :
  Padded (completeLines (concat chunks)) (fst (feedAll [] chunks))
  /\ snd (feedAll [] chunks) = pendingTail (concat chunks).
Proof. exact (feedAll_spec chunks []). Qed.

(** ** The handlers, step by step *)

Section HandlerFacts.

Variable World : Type.
Variable svc : handler.Services World.

Lemma advance_advance (p : handler.Proc World) (n m : nat) (es fs : list handler.SSE) :
  advance (advance p n es) m fs = advance p (n + m) (es ++ fs).
Proof.
  unfold advance; simpl. now rewrite Nat.add_assoc, app_assoc.
Qed.

Lemma advance_0_nil (p : handler.Proc World) : advance p 0 [] = p.
Proof.
  destruct p. unfold advance; simpl. now rewrite Nat.add_0_r, app_nil_r.
Qed.

Lemma emit_advance (e : handler.SSE) (p : handler.Proc World) :
  handler.emit e p = (tt, advance p 0 [e]).
Proof. unfold handler.emit, advance. now rewrite Nat.add_0_r. Qed.

Lemma generateID_advance (p : handler.Proc World) :
  handler.generateID svc p = (idAt svc (handler.uuids p), advance p 1 []).
Proof.
  unfold handler.generateID, advance, idAt.
  now rewrite Nat.add_1_r, app_nil_r.
Qed.

(** The loop over the lines writes one text delta of block 0 per delta
    that the lines carry, and appends the deltas to the response. *)
Lemma forLines_spec (lines : list gostring) (full : gostring) (p : handler.Proc World) :
  handler.forLines svc lines full p =
    (full ++ concat (deltasOf svc lines),
     advance p 0 (map (handler.content_block_delta_text 0) (deltasOf svc lines))).
Proof.
  revert full p; induction lines as [|line lines IH]; intros full p; simpl.
  - unfold handler.ret. now rewrite app_nil_r, advance_0_nil.
  - unfold deltasOf in *; simpl.
    destruct (handler.textDelta svc line) as [delta|]; simpl.
    + unfold handler.bind. rewrite emit_advance, IH, advance_advance.
      now rewrite <- app_assoc.
    + apply IH.
Qed.

Lemma deltasOf_app (a b : list gostring) :
  deltasOf svc (a ++ b) = deltasOf svc a ++ deltasOf svc b.
Proof. unfold deltasOf. apply flat_map_app. Qed.

Lemma forChunks_spec (chunks : list gostring) (a : handler.Accum) (p : handler.Proc World) :
  handler.forChunks svc chunks a p =
    ({| handler.buffer := snd (feedAll (handler.buffer a) chunks);
        handler.fullResponse :=
          handler.fullResponse a
            ++ concat (deltasOf svc (fst (feedAll (handler.buffer a) chunks))) |},
     advance p 0 (map (handler.content_block_delta_text 0)
                      (deltasOf svc (fst (feedAll (handler.buffer a) chunks))))).
Proof.
  revert a p; induction chunks as [|chunk chunks IH]; intros a p; simpl.
  - unfold handler.ret. rewrite app_nil_r, advance_0_nil. now destruct a.
  - unfold handler.bind, handler.onChunk.
    destruct (handler.reassemble (handler.buffer a) chunk) as [lines buffer'].
    unfold handler.bind. rewrite forLines_spec. unfold handler.ret.
    rewrite IH; simpl.
    destruct (feedAll buffer' chunks) as [lines' buffer'']; simpl.
    rewrite advance_advance, deltasOf_app, concat_app, map_app.
    now rewrite <- app_assoc.
Qed.

Lemma forCalls_spec (calls : list tools.ToolCall) (i0 : nat) (p : handler.Proc World) :
  handler.forCalls svc i0 calls p =
    (tt, advance p (length calls) (toolEvents svc i0 (handler.uuids p) calls)).
Proof.
  revert i0 p; induction calls as [|call calls IH]; intros i0 p; simpl.
  - unfold handler.ret. now rewrite advance_0_nil.
  - unfold handler.bind. rewrite generateID_advance.
    rewrite !emit_advance, IH, !advance_advance. simpl.
    now rewrite (Nat.add_1_r (handler.uuids p)).
Qed.

Lemma handleStream_spec (up : handler.Upstream) (model : gostring) (p : handler.Proc World) :
  handler.handleStream svc up model p =
    (tt, advance p
           (S (length (fst (handler.ParseToolCalls svc
                              (AccumulatedText svc (handler.chunks up))))))
           (streamEvents svc up model (handler.uuids p))).
Proof.
  unfold handler.handleStream, streamEvents, AccumulatedText, deltas, handler.bind.
  rewrite generateID_advance, !emit_advance, forChunks_spec.
  cbn [handler.buffer handler.fullResponse app].
  destruct (handler.ParseToolCalls svc
              (concat (deltasOf svc (fst (feedAll [] (handler.chunks up))))))
    as [calls rem]; cbn [fst].
  destruct (handler.err up) as [e|];
    [rewrite emit_advance | unfold handler.ret at 1];
    rewrite emit_advance;
    (destruct calls as [|call calls];
     [ cbn [length Nat.ltb Nat.leb]; cbv beta iota; unfold handler.ret
     | change (0 <? length (call :: calls))%nat with true; cbv beta iota;
       rewrite forCalls_spec; unfold handler.ret ]);
    rewrite !emit_advance, !advance_advance;
    cbn [handler.uuids advance Nat.add app toolEvents length];
    rewrite <- ?app_assoc; cbn [app];
    rewrite ?Nat.add_0_r, ?(Nat.add_1_r (handler.uuids p)), ?app_nil_r;
    reflexivity.
Qed.

End HandlerFacts.

(** ** The events of the stream and its block indices (C5) *)

Section StreamFacts.

Variable World : Type.
Variable svc : handler.Services World.

Lemma textDeltasAt_app (i : nat) (a b : list handler.SSE) :
  textDeltasAt i (a ++ b) = textDeltasAt i a ++ textDeltasAt i b.
Proof. apply flat_map_app. Qed.

Lemma deltaEventsAt_app (i : nat) (a b : list handler.SSE) :
  deltaEventsAt i (a ++ b) = deltaEventsAt i a ++ deltaEventsAt i b.
Proof. apply filter_app. Qed.

Lemma textDeltasAt_text (i : nat) (ds : list gostring) :
  textDeltasAt i (map (handler.content_block_delta_text i) ds) = ds.
Proof.
  induction ds as [|d ds IH]; simpl; [reflexivity|].
  now rewrite Nat.eqb_refl, IH.
Qed.

Lemma deltaEventsAt_text (i : nat) (ds : list gostring) :
  deltaEventsAt i (map (handler.content_block_delta_text i) ds) =
    map (handler.content_block_delta_text i) ds.
Proof.
  induction ds as [|d ds IH]; simpl; [reflexivity|].
  now rewrite Nat.eqb_refl, IH.
Qed.

Lemma textDeltasAt_toolEvents (i i0 u : nat) (calls : list tools.ToolCall) :
  textDeltasAt i (toolEvents svc i0 u calls) = [].
Proof.
  revert i0 u; induction calls as [|c calls IH]; intros i0 u; simpl; auto.
Qed.

(** The tool blocks carry indices above [i0]. *)
Lemma deltaEventsAt_toolEvents_below (i i0 u : nat) (calls : list tools.ToolCall) :
  i <= i0 -> deltaEventsAt i (toolEvents svc i0 u calls) = [].
Proof.
  revert i0 u; induction calls as [|c calls IH]; intros i0 u Hi; simpl; auto.
  replace (i0 + 1 =? i) with false by (symmetry; apply Nat.eqb_neq; lia).
  apply IH. lia.
Qed.

(** Every tool block has exactly one delta. *)
Lemma deltaEventsAt_toolEvents_length (i i0 u : nat) (calls : list tools.ToolCall) :
  i0 < i <= i0 + length calls ->
  length (deltaEventsAt i (toolEvents svc i0 u calls)) = 1.
Proof.
  revert i0 u; induction calls as [|c calls IH]; intros i0 u Hi; simpl in *; [lia|].
  destruct (Nat.eq_dec (i0 + 1) i) as [E|E].
  - rewrite (proj2 (Nat.eqb_eq _ _) E). simpl.
    rewrite deltaEventsAt_toolEvents_below by lia. reflexivity.
  - rewrite (proj2 (Nat.eqb_neq _ _) E). apply IH. lia.
Qed.

Lemma startIndices_toolEvents (i0 u : nat) (calls : list tools.ToolCall) :
  startIndices (toolEvents svc i0 u calls) = seq (i0 + 1) (length calls).
Proof.
  revert i0 u; induction calls as [|c calls IH]; intros i0 u; simpl; auto.
  rewrite IH. now rewrite (Nat.add_1_r i0), (Nat.add_1_r (S i0)).
Qed.

Lemma stopIndices_toolEvents (i0 u : nat) (calls : list tools.ToolCall) :
  stopIndices (toolEvents svc i0 u calls) = seq (i0 + 1) (length calls).
Proof.
  revert i0 u; induction calls as [|c calls IH]; intros i0 u; simpl; auto.
  rewrite IH. now rewrite (Nat.add_1_r i0), (Nat.add_1_r (S i0)).
Qed.

Lemma startTypes_toolEvents (i0 u : nat) (calls : list tools.ToolCall) :
  startTypes (toolEvents svc i0 u calls) = repeat (lit "tool_use") (length calls).
Proof.
  revert i0 u; induction calls as [|c calls IH]; intros i0 u; simpl; auto.
  now rewrite IH.
Qed.

Lemma blocksSequential_toolEvents (i0 u : nat) (calls : list tools.ToolCall)
      (rest : list handler.SSE) :
  blocksSequential (i0 + 1) None (toolEvents svc i0 u calls ++ rest) =
    blocksSequential (i0 + 1 + length calls) None rest.
Proof.
  revert i0 u; induction calls as [|c calls IH]; intros i0 u; simpl.
  - now rewrite Nat.add_0_r.
  - rewrite !Nat.eqb_refl. simpl.
    replace (S (i0 + 1)) with (S i0 + 1) by lia. rewrite IH.
    f_equal. lia.
Qed.

Lemma blocksSequential_text (next i : nat) (ds : list gostring)
      (rest : list handler.SSE) :
  blocksSequential next (Some i)
    (map (handler.content_block_delta_text i) ds ++ rest) =
    blocksSequential next (Some i) rest.
Proof.
  induction ds as [|d ds IH]; simpl; [reflexivity|].
  now rewrite Nat.eqb_refl.
Qed.

Lemma events_of_handleStream (up : handler.Upstream) (model : gostring)
      (u : nat) (w : World) :
  handler.written (snd (handler.handleStream svc up model (initial u w))) =
    streamEvents svc up model u.
Proof. rewrite handleStream_spec. reflexivity. Qed.

(** At the end of the stream the response text that goes to the
    parser is the accumulated text. *)
Lemma fullResponse_accumulated (chunks : list gostring) (p : handler.Proc World) :
  handler.fullResponse
    (fst (handler.forChunks svc chunks
            {| handler.buffer := []; handler.fullResponse := [] |} p)) =
    AccumulatedText svc chunks.
Proof. rewrite forChunks_spec. reflexivity. Qed.

(** C5. In every streaming response the block indices of the start
    events are 0, 1, ..., n for n tool invocations, and so are those of
    the stop events; block 0 is the text block and the others are
    [tool_use] blocks; the events obey the sequential discipline (a
    block starts only after the one before it has stopped, with the next
    unused index, and its deltas and stop carry its index); and every
    tool block has exactly one delta. *)
Theorem stream_block_indices
        (up : handler.Upstream) (model : gostring) (u : nat) (w : World) :
  let events :=
    handler.written (snd (handler.handleStream svc up model (initial u w))) in
  let n :=
    length (fst (handler.ParseToolCalls svc
                   (AccumulatedText svc (handler.chunks up)))) in
  startIndices events = seq 0 (S n)
  /\ stopIndices events = seq 0 (S n)
  /\ startTypes events = lit "text" :: repeat (lit "tool_use") n
  /\ blocksSequential 0 None events = true
  /\ (forall i, 1 <= i <= n -> length (deltaEventsAt i events) = 1).
Proof.
  intros events n. subst events n. rewrite events_of_handleStream.
  unfold streamEvents.
  set (calls := fst (handler.ParseToolCalls svc _)).
  set (ds := deltas svc (handler.chunks up)).
  assert (Hs : forall e : option gostring,
             startIndices match e with Some e => [handler.error e] | None => [] end = []
             /\ stopIndices match e with Some e => [handler.error e] | None => [] end = []
             /\ startTypes match e with Some e => [handler.error e] | None => [] end = [])
    by (intros [e|]; repeat split).
  assert (Hd : startIndices (map (handler.content_block_delta_text 0) ds) = []
               /\ stopIndices (map (handler.content_block_delta_text 0) ds) = []
               /\ startTypes (map (handler.content_block_delta_text 0) ds) = [])
    by (induction ds; simpl; auto).
  destruct (Hs (handler.err up)) as (Hs1 & Hs2 & Hs3).
  destruct Hd as (Hd1 & Hd2 & Hd3).
  assert (Ha1 : forall a b, startIndices (a ++ b) = startIndices a ++ startIndices b)
    by (intros; apply flat_map_app).
  assert (Ha2 : forall a b, stopIndices (a ++ b) = stopIndices a ++ stopIndices b)
    by (intros; apply flat_map_app).
  assert (Ha3 : forall a b, startTypes (a ++ b) = startTypes a ++ startTypes b)
    by (intros; apply flat_map_app).
  repeat split.
  - rewrite !Ha1, Hs1, Hd1, startIndices_toolEvents. simpl.
    now rewrite app_nil_r.
  - rewrite !Ha2, Hs2, Hd2, stopIndices_toolEvents. simpl.
    now rewrite app_nil_r.
  - rewrite !Ha3, Hs3, Hd3, startTypes_toolEvents. simpl.
    now rewrite app_nil_r.
  - cbn [app blocksSequential Nat.eqb andb].
    rewrite blocksSequential_text.
    assert (Hrest : blocksSequential 1 (Some 0)
                      ([handler.content_block_stop 0] ++
                       toolEvents svc 0 (S u) calls ++
                       [handler.message_delta
                          (if (0 <? length calls)%nat
                           then lit "tool_use" else lit "end_turn");
                        handler.message_stop]) = true).
    { cbn [app blocksSequential Nat.eqb andb].
      change 1 with (0 + 1). rewrite blocksSequential_toolEvents. reflexivity. }
    destruct (handler.err up); exact Hrest.
  - intros i Hi. rewrite !deltaEventsAt_app.
    rewrite !length_app. simpl length.
    assert (H0 : length (deltaEventsAt i (map (handler.content_block_delta_text 0) ds)) = 0).
    { clear - Hi. induction ds as [|d ds IH]; simpl; [reflexivity|].
      destruct i; [lia|]. simpl. exact IH. }
    assert (He : length (deltaEventsAt i
                           match handler.err up with
                           | Some e => [handler.error e]
                           | None => []
                           end) = 0) by (destruct (handler.err up); reflexivity).
    rewrite H0, He, deltaEventsAt_toolEvents_length by (fold calls; lia).
    reflexivity.
Qed.

End StreamFacts.

(** ** The chunk reassembler: fragmentation (C6) and the invariant (C7) *)

Lemma textDelta_empty_frame (World : Type) (svc : handler.Services World) :
  handler.textDelta svc [] = None.
Proof. reflexivity. Qed.

Lemma deltasOf_nonEmpty (World : Type) (svc : handler.Services World)
      (frames : list gostring) :
  deltasOf svc (nonEmpty frames) = deltasOf svc frames.
Proof.
  unfold deltasOf, nonEmpty.
  induction frames as [|f frames IH]; [reflexivity|].
  destruct f as [|b f]; simpl; [exact IH|].
  now rewrite IH.
Qed.

(** The Frames of a call are the complete lines of its buffer. *)
Lemma framesOf_spec (buffer chunk : gostring) :
  framesOf buffer chunk = completeLines (buffer ++ chunk).
Proof.
  unfold framesOf. rewrite reassemble_spec. cbn [fst].
  destruct (strings.HasSuffix (buffer ++ chunk) [NL]).
  - apply removelast_last.
  - apply app_nil_r.
Qed.

(** Feeding chunks after a text [s] has gone through: the Frames are the
    complete lines that the chunks add, and the buffer is the pending
    tail of everything. *)
Lemma feedFrames_spec (chunks : list gostring) (s : gostring) :
  fst (feedFrames (pendingTail s) chunks)
  = completeLines (pendingTail s ++ concat chunks)
  /\ snd (feedFrames (pendingTail s) chunks) = pendingTail (s ++ concat chunks).
Proof.
  revert s; induction chunks as [|chunk chunks IH]; intros s;
    cbn [feedFrames concat].
  - cbn [fst snd]. rewrite !app_nil_r, completeLines_pendingTail.
    split; reflexivity.
  - rewrite framesOf_spec, reassemble_spec. cbn [snd].
    assert (Hp : pendingTail (pendingTail s ++ chunk) = pendingTail (s ++ chunk))
      by (symmetry; apply pendingTail_app).
    rewrite Hp. specialize (IH (s ++ chunk)).
    destruct (feedFrames (pendingTail (s ++ chunk)) chunks) as [frames' buffer''].
    cbn [fst snd] in *. destruct IH as [IH1 IH2]. split.
    + rewrite (app_assoc (pendingTail s) chunk (concat chunks)).
      now rewrite (completeLines_app (pendingTail s ++ chunk) (concat chunks)), Hp, IH1.
    + now rewrite IH2, <- app_assoc.
Qed.

Lemma feedFrames_from_empty (chunks : list gostring) :
  fst (feedFrames [] chunks) = completeLines (concat chunks)
  /\ snd (feedFrames [] chunks) = pendingTail (concat chunks).
Proof. exact (feedFrames_spec chunks []). Qed.

(** A chunk more: the Frames so far stay, and those of the new call
    follow them. *)
Lemma feedFrames_snoc (chunks : list gostring) (chunk buffer : gostring) :
  feedFrames buffer (chunks ++ [chunk])
  = (fst (feedFrames buffer chunks)
       ++ framesOf (snd (feedFrames buffer chunks)) chunk,
     snd (handler.reassemble (snd (feedFrames buffer chunks)) chunk)).
Proof.
  revert buffer; induction chunks as [|c chunks IH]; intros buffer;
    cbn [feedFrames app].
  - cbn [fst snd]. now rewrite app_nil_r.
  - rewrite IH.
    destruct (feedFrames (snd (handler.reassemble buffer c)) chunks)
      as [frames' buffer''].
    cbn [fst snd]. now rewrite app_assoc.
Qed.

(** One complete line for every terminator. *)
Lemma completeLines_terminators (s : gostring) :
  length (completeLines s) = terminators s.
Proof.
  unfold terminators. induction s as [|c s IH]; [reflexivity|].
  destruct (Byte.byte_eq_dec c NL) as [->|Hc].
  - rewrite completeLines_cons_NL. cbn [filter length].
    rewrite byte_eqb_refl. cbn [length]. now rewrite IH.
  - rewrite completeLines_cons_other by assumption. cbn [filter].
    assert (E : Byte.eqb NL c = false)
      by (apply byte_eqb_neq; intros H; now apply Hc).
    rewrite E, <- IH. now destruct (completeLines s).
Qed.

(** C6. Two ways of cutting the same text into chunks yield the same
    Frames, in the same order, and leave the same pending tail: whatever
    the cuts, the Frames are the lines of the whole text that a terminator
    closes, and the tail is what follows its last terminator.  The lines
    that the callback goes through are these Frames and, after every
    buffer that ends in a terminator, one empty line that is no Frame and
    that the decoding step passes over; so the lines that are not empty
    and the deltas decoded are the same, too. *)
Theorem reassembler_fragmentation_invariant (chunks1 chunks2 : list gostring) :
  concat chunks1 = concat chunks2 ->
  fst (feedFrames [] chunks1) = fst (feedFrames [] chunks2)
  /\ snd (feedFrames [] chunks1) = snd (feedFrames [] chunks2)
  /\ fst (feedFrames [] chunks1) = completeLines (concat chunks1)
  /\ snd (feedFrames [] chunks1) = pendingTail (concat chunks1)
  /\ (forall chunks,
         Padded (fst (feedFrames [] chunks)) (fst (feedAll [] chunks))
         /\ snd (feedAll [] chunks) = snd (feedFrames [] chunks))
  /\ nonEmpty (fst (feedAll [] chunks1)) = nonEmpty (fst (feedAll [] chunks2))
  /\ (forall (World : Type) (svc : handler.Services World),
        deltas svc chunks1 = deltas svc chunks2).
Proof.
  intros Heq.
  destruct (feedFrames_from_empty chunks1) as [F1 B1].
  destruct (feedFrames_from_empty chunks2) as [F2 B2].
  destruct (feedAll_from_empty chunks1) as [P1 T1].
  destruct (feedAll_from_empty chunks2) as [P2 T2].
  assert (Hne : nonEmpty (fst (feedAll [] chunks1)) = nonEmpty (fst (feedAll [] chunks2))).
  { rewrite (Padded_nonEmpty _ _ P1), (Padded_nonEmpty _ _ P2). now rewrite Heq. }
  split; [now rewrite F1, F2, Heq|].
  split; [now rewrite B1, B2, Heq|].
  split; [exact F1|]. split; [exact B1|]. split; [|split].
  - intros chunks.
    destruct (feedFrames_from_empty chunks) as [F B].
    destruct (feedAll_from_empty chunks) as [P T].
    rewrite F, B, T. split; [exact P | reflexivity].
  - exact Hne.
  - intros World svc. unfold deltas.
    rewrite <- (deltasOf_nonEmpty World svc (fst (feedAll [] chunks1))).
    rewrite <- (deltasOf_nonEmpty World svc (fst (feedAll [] chunks2))).
    now rewrite Hne.
Qed.

Lemma reassembler_fragmentation_invariant_witness :
  let chunks1 := [lit "data: x" ++ [NL] ++ lit "da"; lit "ta: y" ++ [NL; NL] ++ lit "rest"] in
  let chunks2 := [lit "data: x"; [NL]; lit "data: y" ++ [NL]; [NL] ++ lit "rest"] in
  concat chunks1 = concat chunks2
  /\ fst (feedFrames [] chunks1) = [lit "data: x"; lit "data: y"; []]
  /\ fst (feedFrames [] chunks2) = [lit "data: x"; lit "data: y"; []]
  /\ snd (feedFrames [] chunks1) = lit "rest"
  /\ snd (feedFrames [] chunks2) = lit "rest".
Proof.
  intros chunks1 chunks2.
  assert (E : concat chunks1 = concat chunks2) by reflexivity.
  assert (F : fst (feedFrames [] chunks1) = [lit "data: x"; lit "data: y"; []])
    by reflexivity.
  assert (B : snd (feedFrames [] chunks1) = lit "rest") by reflexivity.
  destruct (reassembler_fragmentation_invariant chunks1 chunks2 E)
    as (F12 & B12 & _).
  split; [exact E|]. split; [exact F|]. split; [now rewrite <- F12|].
  split; [exact B | now rewrite <- B12].
Defined.

Lemma terminated_app (a b : list gostring) :
  terminated (a ++ b) = terminated a ++ terminated b.
Proof. apply flat_map_app. Qed.

(** C7. After the chunks fed so far, their text is the Frames returned
    so far, each followed by a terminator, and then the pending buffer.
    The Frames are the complete lines of that text, in order and one for
    every terminator, and a further chunk leaves them as they are and adds
    the Frames of its own call: no Frame is returned twice.  In one call
    the buffer is the Frames of the call, each with its terminator,
    followed by the new pending buffer; when the buffer does not end in a
    terminator the split segments are the Frames followed by the segment
    that is kept as the pending buffer, and that segment is not among the
    lines returned; when it does, the pending buffer is cleared. *)
Theorem reassembler_invariant (chunks : list gostring) :
  let frames := fst (feedFrames [] chunks) in
  let pending := snd (feedFrames [] chunks) in
  concat chunks = terminated frames ++ pending
  /\ frames = completeLines (concat chunks)
  /\ length frames = terminators (concat chunks)
  /\ (forall chunk : gostring,
         fst (feedFrames [] (chunks ++ [chunk])) = frames ++ framesOf pending chunk
         /\ snd (feedFrames [] (chunks ++ [chunk]))
            = snd (handler.reassemble pending chunk))
  /\ (forall buffer chunk : gostring,
        let content := buffer ++ chunk in
        let r := handler.reassemble buffer chunk in
        content = terminated (framesOf buffer chunk) ++ snd r
        /\ (strings.HasSuffix content [NL] = false ->
            strings.Split content NL = framesOf buffer chunk ++ [snd r]
            /\ fst r = framesOf buffer chunk)
        /\ (strings.HasSuffix content [NL] = true ->
            snd r = [] /\ fst r = framesOf buffer chunk ++ [[]])).
Proof.
  intros frames pending. subst frames pending.
  destruct (feedFrames_from_empty chunks) as [F B].
  split; [|split; [|split; [|split]]].
  - rewrite F, B. apply terminated_complete_pending.
  - exact F.
  - rewrite F. apply completeLines_terminators.
  - intros chunk. rewrite feedFrames_snoc. split; reflexivity.
  - intros buffer chunk content r. subst content r.
    rewrite framesOf_spec, reassemble_spec. cbn [fst snd].
    split; [apply terminated_complete_pending|].
    split; intros Hs; rewrite Hs.
    + split; [apply Split_complete_pending | apply app_nil_r].
    + split; [|reflexivity].
      apply HasSuffix_NL in Hs. destruct Hs as [s' Hs'].
      rewrite Hs'. apply pendingTail_snoc_NL.
Qed.

Lemma reassembler_invariant_witness :
  let chunks := [lit "ab"; lit "c" ++ [NL] ++ lit "d" ++ [NL]] in
  fst (feedFrames [] chunks) = [lit "abc"; lit "d"]
  /\ snd (feedFrames [] chunks) = []
  /\ concat chunks = terminated [lit "abc"; lit "d"] ++ []
  /\ fst (feedFrames [] (chunks ++ [lit "e"])) = [lit "abc"; lit "d"]
  /\ snd (feedFrames [] (chunks ++ [lit "e"])) = lit "e".
Proof.
  intros chunks.
  assert (F : fst (feedFrames [] chunks) = [lit "abc"; lit "d"]) by reflexivity.
  assert (B : snd (feedFrames [] chunks) = []) by reflexivity.
  destruct (reassembler_invariant chunks) as (E & _ & _ & G & _).
  destruct (G (lit "e")) as [G1 G2].
  rewrite F, B in E, G1. rewrite B in G2.
  split; [exact F|]. split; [exact B|]. split; [exact E|].
  split; [exact G1 | exact G2].
Defined.

(** ** The text deltas of the stream (C4) *)

Lemma byte_eqb_sym (a b : byte) : Byte.eqb a b = Byte.eqb b a.
Proof.
  destruct (Byte.eqb b a) eqn:E.
  - apply byte_eqb_eq in E. subst. apply byte_eqb_refl.
  - apply byte_eqb_neq. apply byte_eqb_neq in E. congruence.
Qed.

Lemma stripPrefix_spec (prefix s : gostring) :
  stripPrefix prefix s =
    if strings.HasPrefix s prefix then Some (skipn (length prefix) s) else None.
Proof.
  revert s; induction prefix as [|p prefix IH]; intros s; [reflexivity|].
  destruct s as [|c s]; [reflexivity|].
  cbn [stripPrefix strings.HasPrefix length skipn].
  rewrite (byte_eqb_sym p c). destruct (Byte.eqb c p); [apply IH | reflexivity].
Qed.

Lemma stripPrefix_app (prefix s : gostring) :
  stripPrefix prefix (prefix ++ s) = Some s.
Proof.
  induction prefix as [|p prefix IH]; [reflexivity|].
  cbn [app stripPrefix]. now rewrite byte_eqb_refl.
Qed.

(** A complete line at the head of a text. *)
Lemma completeLines_line (l rest : gostring) :
  ~ In NL l -> completeLines (l ++ NL :: rest) = l :: completeLines rest.
Proof.
  induction l as [|c l IH]; intros H; cbn [app].
  - apply completeLines_cons_NL.
  - assert (Hc : c <> NL) by (intros ->; apply H; now left).
    rewrite completeLines_cons_other by assumption.
    rewrite IH; [reflexivity|]. intros Hin. apply H. now right.
Qed.

Lemma no_NL_in_data (s : gostring) : ~ In NL s -> ~ In NL (lit "data: " ++ s).
Proof.
  intros H Hin. apply in_app_or in Hin. destruct Hin as [Hin|Hin]; [|now apply H].
  vm_compute in Hin. repeat (destruct Hin as [Hin|Hin]; [discriminate Hin|]).
  exact Hin.
Qed.

Lemma completeLines_sent (encode : handler.CursorSSEEvent.t -> gostring)
      (evs : list handler.CursorSSEEvent.t) :
  Forall (fun ev => ~ In NL (encode ev)) evs ->
  completeLines (sent encode evs) = map (fun ev => lit "data: " ++ encode ev) evs.
Proof.
  unfold sent. induction 1 as [|ev evs H _ IH]; [reflexivity|].
  cbn [flat_map map]. rewrite <- IH.
  rewrite (app_assoc (lit "data: ") (encode ev) [NL]), <- app_assoc.
  apply (completeLines_line (lit "data: " ++ encode ev)).
  now apply no_NL_in_data.
Qed.

Section DeltaFacts.

Variable World : Type.
Variable svc : handler.Services World.

(** The decoding step of the handlers and the decoder of the data
    model agree on every line. *)
Lemma textDelta_decode (line : gostring) :
  handler.textDelta svc line =
    match decode svc line with
    | Some event =>
        if isTextDelta event then Some (handler.CursorSSEEvent.Delta event)
        else None
    | None => None
    end.
Proof.
  unfold handler.textDelta, decode, strings.TrimPrefix.
  rewrite stripPrefix_spec.
  destruct (strings.HasPrefix line (lit "data: ")); cbn [negb]; [|reflexivity].
  destruct (skipn (length (lit "data: ")) line) as [|b payload]; [reflexivity|].
  cbn [is_empty].
  destruct (handler.json_Unmarshal svc (b :: payload)) as [event|]; [|reflexivity].
  unfold isTextDelta.
  destruct (handler.CursorSSEEvent.Delta event) as [|d ds];
    cbn [is_empty negb]; [now rewrite andb_false_r|].
  now rewrite andb_true_r.
Qed.

Lemma deltasOf_upstream (lines : list gostring) :
  deltasOf svc lines = upstreamDeltas svc lines.
Proof.
  unfold deltasOf, upstreamDeltas, upstreamEvents.
  induction lines as [|line lines IH]; [reflexivity|].
  cbn [flat_map]. rewrite filter_app, map_app, <- IH, textDelta_decode.
  destruct (decode svc line) as [event|]; [|reflexivity].
  cbn [filter]. destruct (isTextDelta event); reflexivity.
Qed.

Lemma deltas_upstream (chunks : list gostring) :
  deltas svc chunks = upstreamDeltas svc (completeLines (concat chunks)).
Proof.
  unfold deltas. destruct (feedAll_from_empty chunks) as [P _].
  rewrite <- deltasOf_upstream.
  rewrite <- (deltasOf_nonEmpty _ svc (fst (feedAll [] chunks))).
  rewrite (Padded_nonEmpty _ _ P). apply deltasOf_nonEmpty.
Qed.

Lemma upstreamEvents_sent (encode : handler.CursorSSEEvent.t -> gostring)
      (evs : list handler.CursorSSEEvent.t) :
  Forall (fun ev => handler.json_Unmarshal svc (encode ev) = Some ev
                    /\ encode ev <> []) evs ->
  upstreamEvents svc (map (fun ev => lit "data: " ++ encode ev) evs) = evs.
Proof.
  unfold upstreamEvents. induction 1 as [|ev evs [Hd Hne] _ IH]; [reflexivity|].
  cbn [map flat_map]. rewrite IH. unfold decode. rewrite stripPrefix_app.
  destruct (encode ev) as [|b payload]; [contradiction|].
  now rewrite Hd.
Qed.

(** C4. The Frames of the upstream text are its lines that a
    terminator closes; a Frame that starts with [data: ] and whose payload
    decodes to an event is an upstream event, and the deltas that count
    are the non-empty deltas of the events of kind [text-delta], in order
    of arrival.  Whatever the chunks, the [content_block_delta] events of
    block 0 are, in order, one event per such delta, carrying that delta
    itself: nothing is lost, duplicated, merged or reordered.  Put
    together, their texts are the accumulated text, which is the response
    text that reaches the tool-call parser.  The same holds of any lines
    handed to the line loop.  In particular, when the upstream sends a
    sequence of events, one per Frame, in an encoding that the decoder
    reads back, the text deltas written are those of the [text-delta]
    events with a non-empty delta, one for one. *)
Theorem stream_text_deltas_are_accumulated_text
        (up : handler.Upstream) (model : gostring) (u : nat) (w : World) :
  let events :=
    handler.written (snd (handler.handleStream svc up model (initial u w))) in
  let frames := completeLines (concat (handler.chunks up)) in
  let text := concat (upstreamDeltas svc frames) in
  deltaEventsAt 0 events =
    map (handler.content_block_delta_text 0) (upstreamDeltas svc frames)
  /\ textDeltasAt 0 events = upstreamDeltas svc frames
  /\ concat (textDeltasAt 0 events) = text
  /\ handler.fullResponse
       (fst (handler.forChunks svc (handler.chunks up)
               {| handler.buffer := []; handler.fullResponse := [] |}
               (initial u w))) = text
  /\ deltas svc (handler.chunks up) = upstreamDeltas svc frames
  /\ AccumulatedText svc (handler.chunks up) = text
  /\ (forall (lines : list gostring) (full : gostring),
        let r := handler.forLines svc lines full (initial u w) in
        handler.written (snd r) =
          map (handler.content_block_delta_text 0) (upstreamDeltas svc lines)
        /\ fst r = full ++ concat (upstreamDeltas svc lines))
  /\ (forall (encode : handler.CursorSSEEvent.t -> gostring)
             (evs : list handler.CursorSSEEvent.t),
         Forall (fun ev => handler.json_Unmarshal svc (encode ev) = Some ev
                           /\ encode ev <> []
                           /\ ~ In NL (encode ev)) evs ->
         concat (handler.chunks up) = sent encode evs ->
         deltaEventsAt 0 events =
           map (fun ev => handler.content_block_delta_text
                            0 (handler.CursorSSEEvent.Delta ev))
               (filter isTextDelta evs)
         /\ text = concat (map handler.CursorSSEEvent.Delta
                               (filter isTextDelta evs))).
Proof.
  intros events frames text. subst events frames text.
  rewrite events_of_handleStream. unfold streamEvents.
  assert (E0 : deltaEventsAt 0
                 ([handler.message_start (lit "msg_" ++ idAt svc u) model;
                   handler.content_block_start_text 0]
                  ++ map (handler.content_block_delta_text 0)
                         (deltas svc (handler.chunks up))
                  ++ match handler.err up with
                     | Some e => [handler.error e]
                     | None => []
                     end
                  ++ [handler.content_block_stop 0]
                  ++ toolEvents svc 0 (S u)
                       (fst (handler.ParseToolCalls svc
                               (AccumulatedText svc (handler.chunks up))))
                  ++ [handler.message_delta
                        (if (0 <? length (fst (handler.ParseToolCalls svc
                                                 (AccumulatedText svc (handler.chunks up)))))%nat
                         then lit "tool_use" else lit "end_turn");
                      handler.message_stop])
               = map (handler.content_block_delta_text 0)
                     (deltas svc (handler.chunks up))).
  { rewrite !deltaEventsAt_app, deltaEventsAt_text.
    rewrite deltaEventsAt_toolEvents_below by lia.
    destruct (handler.err up); simpl; now rewrite app_nil_r. }
  assert (E1 : textDeltasAt 0
                 ([handler.message_start (lit "msg_" ++ idAt svc u) model;
                   handler.content_block_start_text 0]
                  ++ map (handler.content_block_delta_text 0)
                         (deltas svc (handler.chunks up))
                  ++ match handler.err up with
                     | Some e => [handler.error e]
                     | None => []
                     end
                  ++ [handler.content_block_stop 0]
                  ++ toolEvents svc 0 (S u)
                       (fst (handler.ParseToolCalls svc
                               (AccumulatedText svc (handler.chunks up))))
                  ++ [handler.message_delta
                        (if (0 <? length (fst (handler.ParseToolCalls svc
                                                 (AccumulatedText svc (handler.chunks up)))))%nat
                         then lit "tool_use" else lit "end_turn");
                      handler.message_stop])
               = deltas svc (handler.chunks up)).
  { rewrite !textDeltasAt_app, textDeltasAt_text, textDeltasAt_toolEvents.
    destruct (handler.err up); simpl; now rewrite app_nil_r. }
  rewrite E0, E1, fullResponse_accumulated. unfold AccumulatedText.
  rewrite deltas_upstream.
  split; [reflexivity|]. split; [reflexivity|]. split; [reflexivity|].
  split; [reflexivity|]. split; [reflexivity|]. split; [reflexivity|].
  split.
  - intros lines full. rewrite forLines_spec, deltasOf_upstream.
    split; reflexivity.
  - intros encode evs H E. rewrite E.
    assert (H1 : Forall (fun ev => ~ In NL (encode ev)) evs)
      by (eapply Forall_impl; [|exact H]; intros ev (_ & _ & N); exact N).
    assert (H2 : Forall (fun ev => handler.json_Unmarshal svc (encode ev) = Some ev
                                   /\ encode ev <> []) evs)
      by (eapply Forall_impl; [|exact H]; intros ev (D & N & _); now split).
    unfold upstreamDeltas.
    rewrite (completeLines_sent encode evs H1), (upstreamEvents_sent encode evs H2).
    split; [|reflexivity]. now rewrite map_map.
Qed.

End DeltaFacts.

Lemma stream_text_deltas_are_accumulated_text_witness :
  let hello := {| handler.chunks := ExampleParsers.helloChunks; handler.err := None |} in
  let evs := [ ExampleParsers.event "text-delta" "Hel";
               ExampleParsers.event "ping" "x";
               ExampleParsers.event "text-delta" "";
               ExampleParsers.event "text-delta" "lo" ] in
  let cut := {| handler.chunks :=
                  [ firstn 40 (sent ExampleParsers.encode evs);
                    skipn 40 (sent ExampleParsers.encode evs) ];
                handler.err := None |} in
  let run up :=
    handler.written
      (snd (handler.handleStream Example.services up (lit "m") (initial 0 []))) in
  deltaEventsAt 0 (run hello) = [handler.content_block_delta_text 0 (lit "Hello")]
  /\ Forall (fun ev => handler.json_Unmarshal Example.services (ExampleParsers.encode ev)
                       = Some ev
                       /\ ExampleParsers.encode ev <> []
                       /\ ~ In NL (ExampleParsers.encode ev)) evs
  /\ concat (handler.chunks cut) = sent ExampleParsers.encode evs
  /\ deltaEventsAt 0 (run cut)
     = [ handler.content_block_delta_text 0 (lit "Hel");
         handler.content_block_delta_text 0 (lit "lo") ].
Proof.
  intros hello evs cut run. subst run.
  assert (F : Forall (fun ev => handler.json_Unmarshal Example.services
                                  (ExampleParsers.encode ev) = Some ev
                                /\ ExampleParsers.encode ev <> []
                                /\ ~ In NL (ExampleParsers.encode ev)) evs).
  { repeat constructor; try discriminate;
      intros H; vm_compute in H;
      repeat (destruct H as [H|H]; [discriminate H|]); exact H. }
  assert (C : concat (handler.chunks cut) = sent ExampleParsers.encode evs).
  { cbn [handler.chunks cut concat]. rewrite app_nil_r. apply firstn_skipn. }
  destruct (stream_text_deltas_are_accumulated_text _ Example.services hello
              (lit "m") 0 []) as (E & _).
  destruct (stream_text_deltas_are_accumulated_text _ Example.services cut
              (lit "m") 0 []) as (_ & _ & _ & _ & _ & _ & _ & S).
  destruct (S ExampleParsers.encode evs F C) as (E' & _).
  split; [rewrite E; vm_compute; reflexivity|].
  split; [exact F|]. split; [exact C|].
  rewrite E'. reflexivity.
Defined.

(** ** The block constructor and the refusal fallback (C10, C2, C3, C1) *)

Section BlockFacts.

Variable World : Type.
Variable svc : handler.Services World.

Lemma appendCalls_spec (calls : list tools.ToolCall)
      (blocks : list handler.ContentBlock.t) (p : handler.Proc World) :
  handler.appendCalls svc blocks calls p =
    (blocks ++ toolBlocks svc (handler.uuids p) calls,
     advance p (length calls) []).
Proof.
  revert blocks p; induction calls as [|call calls IH]; intros blocks p; simpl.
  - unfold handler.ret. now rewrite app_nil_r, advance_0_nil.
  - unfold handler.bind. rewrite generateID_advance, IH, advance_advance.
    cbn [advance handler.uuids app]. rewrite <- app_assoc.
    now rewrite (Nat.add_1_r (handler.uuids p)).
Qed.

Lemma plainBlocks_spec (text : gostring) (calls : list tools.ToolCall)
      (rem : gostring) (p : handler.Proc World) :
  handler.plainBlocks svc text calls rem p =
    (ordinaryBlocks svc (handler.uuids p) text calls rem,
     advance p (length calls) []).
Proof.
  unfold handler.plainBlocks, handler.bind. rewrite appendCalls_spec.
  destruct rem as [|b rem]; destruct calls as [|c calls]; reflexivity.
Qed.

(** The two ways through [parseResponseToBlocks]. *)
Lemma parseResponseToBlocks_recovers (text : gostring)
      (userMessages : list gostring) (p : handler.Proc World) :
  recovers svc text = true ->
  handler.parseResponseToBlocks svc text userMessages p =
    (let r := handler.Execute svc (lit "bash")
                [(lit "command",
                  tools.VString (tools.ExtractCommandFromRefusal text))]
                (handler.world p) in
     (recoveryBlocks svc (handler.uuids p)
                     (tools.ExtractCommandFromRefusal text) (fst r),
      {| handler.uuids := S (handler.uuids p);
         handler.world := snd r;
         handler.written := handler.written p |})).
Proof.
  unfold recovers, handler.parseResponseToBlocks. intros H.
  apply andb_true_iff in H. destruct H as [H Hc].
  destruct (handler.ParseToolCalls svc text) as [calls rem]. cbn [fst] in H.
  rewrite H, Hc. unfold handler.bind, handler.execute.
  destruct (handler.Execute svc (lit "bash") _ (handler.world p))
    as [[output err] w'].
  destruct err as [e|]; cbv beta iota zeta;
    unfold handler.generateID, handler.ret, recoveryBlocks, idAt;
    cbn [fst snd handler.uuids handler.world handler.written];
    reflexivity.
Qed.

Lemma parseResponseToBlocks_ordinary (text : gostring)
      (userMessages : list gostring) (p : handler.Proc World) :
  recovers svc text = false ->
  handler.parseResponseToBlocks svc text userMessages p =
    (ordinaryBlocks svc (handler.uuids p) text
                    (fst (handler.ParseToolCalls svc text))
                    (snd (handler.ParseToolCalls svc text)),
     advance p (length (fst (handler.ParseToolCalls svc text))) []).
Proof.
  unfold recovers, handler.parseResponseToBlocks. intros H.
  destruct (handler.ParseToolCalls svc text) as [calls rem]. cbn [fst snd] in *.
  destruct ((length calls =? 0)%nat
            && tools.DetectRefusal (handler.unicode_ToLower svc) text) eqn:E.
  - simpl in H. rewrite H. apply plainBlocks_spec.
  - apply plainBlocks_spec.
Qed.

Lemma ordinaryBlocks_not_nil (u : nat) (text : gostring)
      (calls : list tools.ToolCall) (rem : gostring) :
  ordinaryBlocks svc u text calls rem <> [].
Proof.
  destruct rem, calls; simpl; discriminate.
Qed.

(** C10. [parseResponseToBlocks] never returns an empty list; when the
    parser finds no invocation and leaves no text, and the fallback does
    not fire, the result is one block, of type [text], whose text is the
    input text. *)
Theorem parseResponseToBlocks_not_empty (text : gostring)
        (userMessages : list gostring) (p : handler.Proc World) :
  fst (handler.parseResponseToBlocks svc text userMessages p) <> []
  /\ (handler.ParseToolCalls svc text = ([], []) ->
      recovers svc text = false ->
      fst (handler.parseResponseToBlocks svc text userMessages p) =
        [ {| handler.ContentBlock.Type_ := lit "text";
             handler.ContentBlock.Text := text;
             handler.ContentBlock.ID := [];
             handler.ContentBlock.Name := [];
             handler.ContentBlock.Input := [] |} ]).
Proof.
  split.
  - destruct (recovers svc text) eqn:R.
    + rewrite parseResponseToBlocks_recovers by assumption.
      cbv zeta. cbn [fst]. unfold recoveryBlocks. discriminate.
    + rewrite parseResponseToBlocks_ordinary by assumption.
      cbn [fst]. apply ordinaryBlocks_not_nil.
  - intros Hp R. rewrite parseResponseToBlocks_ordinary by assumption.
    rewrite Hp. reflexivity.
Qed.

(** The answer of [handleNonStream] to an upstream answer is always
    the message with the blocks of the accumulated text. *)
Lemma handleNonStream_message (result model : gostring) (p : handler.Proc World) :
  let text := handler.fullTextOf svc (strings.Split result NL) [] in
  let blocks := fst (handler.parseResponseToBlocks svc text [] p) in
  exists body,
    fst (handler.handleNonStream svc (inl result) model p) =
      handler.JSONMessage 200 body
    /\ handler.MessagesResponse.Content body = blocks
    /\ handler.MessagesResponse.StopReason body = handler.stopReasonOf blocks.
Proof.
  intros text blocks. subst text blocks.
  unfold handler.handleNonStream, handler.bind.
  destruct (handler.parseResponseToBlocks svc _ [] p) as [blocks p'].
  unfold handler.generateID, handler.ret. cbn [fst].
  eexists. split; [reflexivity|]. split; reflexivity.
Qed.

(** C2, as the code has it.  When the parser finds no invocation: if
    the text is a refusal and a command [cmd] is extracted from it, the
    executor runs once, on [bash] with the input [{command: cmd}], and the
    blocks are the notice, the [tool_use] block of that command and a text
    block made of the success marker and the output, or of the failure
    marker and the error text when the executor fails; nothing is written
    to the stream.  If the text is no refusal, or no command is extracted,
    the executor does not run and the single block is a text block with
    the text that the parser left, or with the input text when the parser
    left none: the input text is passed on as it is when the parser left
    it whole or left none.  Either way the non-streaming answer is the
    message with these blocks, with status 200: a failure of the executor
    is part of the content. *)
Theorem refusal_recovery (text : gostring) (userMessages : list gostring)
        (p : handler.Proc World) :
  fst (handler.ParseToolCalls svc text) = [] ->
  let cmd := tools.ExtractCommandFromRefusal text in
  let input := [(lit "command", tools.VString cmd)] in
  let out := handler.parseResponseToBlocks svc text userMessages p in
  let textOf (s : gostring) :=
    {| handler.ContentBlock.Type_ := lit "text";
       handler.ContentBlock.Text := s;
       handler.ContentBlock.ID := [];
       handler.ContentBlock.Name := [];
       handler.ContentBlock.Input := [] |} in
  (tools.DetectRefusal (handler.unicode_ToLower svc) text = true ->
   cmd <> [] ->
   let r := handler.Execute svc (lit "bash") input (handler.world p) in
   handler.world (snd out) = snd r
   /\ fst out =
        [ textOf (lit "正在执行命令...");
          {| handler.ContentBlock.Type_ := lit "tool_use";
             handler.ContentBlock.Text := [];
             handler.ContentBlock.ID := lit "toolu_" ++ idAt svc (handler.uuids p);
             handler.ContentBlock.Name := lit "bash";
             handler.ContentBlock.Input := input |};
          textOf
            match snd (fst r) with
            | None =>
                [NL; NL] ++ lit "✅ 命令执行成功" ++ lit ":" ++ [NL]
                ++ lit "```" ++ [NL] ++ fst (fst r) ++ [NL] ++ lit "```"
            | Some e =>
                [NL; NL] ++ lit "❌ 命令执行失败" ++ lit ":" ++ [NL]
                ++ lit "```" ++ [NL] ++ e ++ [NL] ++ lit "```"
            end ]
   /\ handler.written (snd out) = handler.written p
   /\ handler.uuids (snd out) = S (handler.uuids p))
  /\ (tools.DetectRefusal (handler.unicode_ToLower svc) text = false \/ cmd = [] ->
      snd out = p
      /\ fst out =
           [ textOf
               match snd (handler.ParseToolCalls svc text) with
               | [] => text
               | rem => rem
               end ]
      /\ (snd (handler.ParseToolCalls svc text) = text
          \/ snd (handler.ParseToolCalls svc text) = [] ->
          fst out = [textOf text]))
  /\ (forall result model : gostring,
        handler.fullTextOf svc (strings.Split result NL) [] = text ->
        exists body,
          fst (handler.handleNonStream svc (inl result) model p) =
            handler.JSONMessage 200 body
          /\ handler.MessagesResponse.Content body =
               fst (handler.parseResponseToBlocks svc text [] p)).
Proof.
  intros Hcalls cmd input out textOf. subst cmd input out textOf.
  split; [|split].
  - intros Href Hcmd r. subst r.
    assert (R : recovers svc text = true).
    { unfold recovers. rewrite Hcalls, Href. simpl.
      apply negb_true_iff, is_empty_false, Hcmd. }
    rewrite parseResponseToBlocks_recovers by assumption.
    cbv zeta. cbn [fst snd handler.world handler.written handler.uuids].
    split; [reflexivity|]. split; [|split; reflexivity].
    unfold recoveryBlocks.
    destruct (snd (fst (handler.Execute svc (lit "bash") _ (handler.world p))));
      reflexivity.
  - intros Hno.
    assert (R : recovers svc text = false).
    { unfold recovers. rewrite Hcalls. simpl.
      destruct Hno as [Href | Hcmd].
      - now rewrite Href.
      - rewrite Hcmd. simpl. apply andb_false_r. }
    rewrite parseResponseToBlocks_ordinary by assumption.
    rewrite Hcalls. cbn [fst snd length]. rewrite advance_0_nil.
    split; [reflexivity|]. split.
    + destruct (snd (handler.ParseToolCalls svc text)); reflexivity.
    + intros [Hrem | Hrem]; rewrite Hrem; [|reflexivity].
      destruct text; reflexivity.
  - intros result model Htext.
    destruct (handleNonStream_message result model p) as (body & Hb & Hc & _).
    exists body. split; [exact Hb|]. rewrite Hc, Htext. reflexivity.
Qed.

End BlockFacts.

Lemma parseResponseToBlocks_not_empty_witness :
  let text := lit "<noop/>" in
  handler.ParseToolCalls ExampleParsers.consuming text = ([], [])
  /\ recovers ExampleParsers.consuming text = false
  /\ fst (handler.parseResponseToBlocks ExampleParsers.consuming text []
            (initial 0 []))
     = [ {| handler.ContentBlock.Type_ := lit "text";
            handler.ContentBlock.Text := lit "<noop/>";
            handler.ContentBlock.ID := [];
            handler.ContentBlock.Name := [];
            handler.ContentBlock.Input := [] |} ].
Proof.
  intros text.
  assert (Hp : handler.ParseToolCalls ExampleParsers.consuming text = ([], []))
    by reflexivity.
  assert (Hr : recovers ExampleParsers.consuming text = false)
    by (vm_compute; reflexivity).
  split; [exact Hp|]. split; [exact Hr|].
  destruct (parseResponseToBlocks_not_empty (list gostring) ExampleParsers.consuming
              text [] (initial 0 [])) as [_ H].
  exact (H Hp Hr).
Defined.

Lemma refusal_recovery_witness :
  let run text :=
    handler.parseResponseToBlocks Example.services text [] (initial 0 []) in
  let textOf (s : gostring) :=
    {| handler.ContentBlock.Type_ := lit "text";
       handler.ContentBlock.Text := s;
       handler.ContentBlock.ID := [];
       handler.ContentBlock.Name := [];
       handler.ContentBlock.Input := [] |} in
  let bash (cmd : gostring) :=
    {| handler.ContentBlock.Type_ := lit "tool_use";
       handler.ContentBlock.Text := [];
       handler.ContentBlock.ID := lit "toolu_123e4567e89b12d3";
       handler.ContentBlock.Name := lit "bash";
       handler.ContentBlock.Input := [(lit "command", tools.VString cmd)] |} in
  fst (handler.ParseToolCalls Example.services Example.refusal) = []
  /\ fst (run Example.refusal)
     = [ textOf (lit "正在执行命令...");
         bash (lit "ls -la");
         textOf ([NL; NL] ++ lit "✅ 命令执行成功:" ++ [NL] ++ lit "```" ++ [NL]
                 ++ lit "done" ++ [NL] ++ lit "```") ]
  /\ handler.world (snd (run Example.refusal)) = [lit "ls -la"]
  /\ fst (handler.ParseToolCalls Example.services ExampleParsers.failingRefusal) = []
  /\ fst (run ExampleParsers.failingRefusal)
     = [ textOf (lit "正在执行命令...");
         bash (lit "false");
         textOf ([NL; NL] ++ lit "❌ 命令执行失败:" ++ [NL] ++ lit "```" ++ [NL]
                 ++ lit "exit status 1" ++ [NL] ++ lit "```") ]
  /\ handler.world (snd (run ExampleParsers.failingRefusal)) = [lit "false"]
  /\ fst (handler.ParseToolCalls Example.services (lit "  hello  ")) = []
  /\ run (lit "  hello  ") = ([textOf (lit "  hello  ")], initial 0 []).
Proof.
  intros run textOf bash. subst run textOf bash.
  assert (C1 : fst (handler.ParseToolCalls Example.services Example.refusal) = [])
    by (vm_compute; reflexivity).
  assert (R1 : tools.DetectRefusal (handler.unicode_ToLower Example.services)
                 Example.refusal = true)
    by (vm_compute; reflexivity).
  assert (M1 : tools.ExtractCommandFromRefusal Example.refusal <> [])
    by (vm_compute; discriminate).
  assert (C2 : fst (handler.ParseToolCalls Example.services
                      ExampleParsers.failingRefusal) = [])
    by (vm_compute; reflexivity).
  assert (R2 : tools.DetectRefusal (handler.unicode_ToLower Example.services)
                 ExampleParsers.failingRefusal = true)
    by (vm_compute; reflexivity).
  assert (M2 : tools.ExtractCommandFromRefusal ExampleParsers.failingRefusal <> [])
    by (vm_compute; discriminate).
  assert (C3 : fst (handler.ParseToolCalls Example.services (lit "  hello  ")) = [])
    by (vm_compute; reflexivity).
  assert (R3 : tools.DetectRefusal (handler.unicode_ToLower Example.services)
                 (lit "  hello  ") = false)
    by (vm_compute; reflexivity).
  destruct (refusal_recovery (list gostring) Example.services Example.refusal []
              (initial 0 []) C1) as [H1 _].
  destruct (H1 R1 M1) as (W1 & B1 & _).
  destruct (refusal_recovery (list gostring) Example.services
              ExampleParsers.failingRefusal [] (initial 0 []) C2) as [H2 _].
  destruct (H2 R2 M2) as (W2 & B2 & _).
  destruct (refusal_recovery (list gostring) Example.services (lit "  hello  ") []
              (initial 0 []) C3) as (_ & H3 & _).
  destruct (H3 (or_introl R3)) as (S3 & _ & B3).
  split; [exact C1|].
  split; [rewrite B1; vm_compute; reflexivity|].
  split; [rewrite W1; vm_compute; reflexivity|].
  split; [exact C2|].
  split; [rewrite B2; vm_compute; reflexivity|].
  split; [rewrite W2; vm_compute; reflexivity|].
  split; [exact C3|].
  rewrite (surjective_pairing (handler.parseResponseToBlocks _ _ _ _)).
  rewrite S3, (B3 (or_introl eq_refl)). reflexivity.
Defined.

(** C2, as stated, fails in its last sentence: what is emitted when no
    recovery occurs is the text that the parser left, and a parser may
    leave another text than it was given.  With a parser that finds no
    invocation and trims the text, the text [  hello  ], which is no
    refusal, is emitted as [hello]. *)
Lemma a_parser_may_change_the_text :
  let text := lit "  hello  " in
  let out := handler.parseResponseToBlocks ExampleParsers.trimming text []
               (initial 0 []) in
  fst (handler.ParseToolCalls ExampleParsers.trimming text) = []
  /\ tools.DetectRefusal (handler.unicode_ToLower ExampleParsers.trimming) text = false
  /\ map handler.ContentBlock.Text (fst out) = [lit "hello"]
  /\ map handler.ContentBlock.Text (fst out) <> [text].
Proof.
  repeat split; try (vm_compute; reflexivity). vm_compute. discriminate.
Qed.

Section VariantFacts.

Variable World : Type.
Variable svc : handler.Services World.

Lemma existsb_toolEvents (i0 u : nat) (calls : list tools.ToolCall) :
  existsb isToolUseStart (toolEvents svc i0 u calls) = (0 <? length calls)%nat.
Proof. destruct calls; reflexivity. Qed.

Lemma existsb_text_deltas (ds : list gostring) :
  existsb isToolUseStart (map (handler.content_block_delta_text 0) ds) = false.
Proof. induction ds; simpl; auto. Qed.

Lemma tool_use_is_not_end_turn : lit "tool_use" <> lit "end_turn".
Proof. vm_compute. discriminate. Qed.

Lemma existsb_isToolUse (blocks : list handler.ContentBlock.t) :
  existsb isToolUse blocks = true <->
  exists b, In b blocks /\ handler.ContentBlock.Type_ b = lit "tool_use".
Proof.
  rewrite existsb_exists. unfold isToolUse.
  split; intros [b [Hin Hb]]; exists b; split; auto; now apply bytes_eqb_eq.
Qed.

(** C3. The stop reason is [tool_use] exactly when a [tool_use] block
    was emitted and [end_turn] otherwise: in the streaming variant for
    the one [message_delta] event and the [tool_use] blocks started in
    the stream, in the non-streaming variant for the [stop_reason] of the
    message and the [tool_use] blocks of its content. *)
Theorem stop_reason_selection :
  (forall (up : handler.Upstream) (model : gostring) (u : nat) (w : World),
      let events :=
        handler.written (snd (handler.handleStream svc up model (initial u w))) in
      stopReasons events =
        [if existsb isToolUseStart events then lit "tool_use" else lit "end_turn"]
      /\ (stopReasons events = [lit "tool_use"] <->
          exists e, In e events /\ isToolUseStart e = true))
  /\ (forall (result model : gostring) (p : handler.Proc World),
         exists body,
           fst (handler.handleNonStream svc (inl result) model p) =
             handler.JSONMessage 200 body
           /\ handler.MessagesResponse.StopReason body =
                (if existsb isToolUse (handler.MessagesResponse.Content body)
                 then lit "tool_use" else lit "end_turn")
           /\ (handler.MessagesResponse.StopReason body = lit "tool_use" <->
               exists b, In b (handler.MessagesResponse.Content body)
                         /\ handler.ContentBlock.Type_ b = lit "tool_use")).
Proof.
  split.
  - intros up model u w events. subst events. rewrite events_of_handleStream.
    unfold streamEvents.
    set (calls := fst (handler.ParseToolCalls svc _)).
    assert (Hex : existsb isToolUseStart
                    ([handler.message_start (lit "msg_" ++ idAt svc u) model;
                      handler.content_block_start_text 0] ++
                     map (handler.content_block_delta_text 0)
                       (deltas svc (handler.chunks up)) ++
                     match handler.err up with
                     | Some e => [handler.error e]
                     | None => []
                     end ++
                     [handler.content_block_stop 0] ++
                     toolEvents svc 0 (S u) calls ++
                     [handler.message_delta
                        (if (0 <? length calls)%nat
                         then lit "tool_use" else lit "end_turn");
                      handler.message_stop]) = (0 <? length calls)%nat).
    { rewrite !existsb_app, existsb_text_deltas, existsb_toolEvents.
      destruct (handler.err up); simpl; now rewrite orb_false_r. }
    assert (Hsr : stopReasons
                    ([handler.message_start (lit "msg_" ++ idAt svc u) model;
                      handler.content_block_start_text 0] ++
                     map (handler.content_block_delta_text 0)
                       (deltas svc (handler.chunks up)) ++
                     match handler.err up with
                     | Some e => [handler.error e]
                     | None => []
                     end ++
                     [handler.content_block_stop 0] ++
                     toolEvents svc 0 (S u) calls ++
                     [handler.message_delta
                        (if (0 <? length calls)%nat
                         then lit "tool_use" else lit "end_turn");
                      handler.message_stop]) =
                  [if (0 <? length calls)%nat then lit "tool_use" else lit "end_turn"]).
    { unfold stopReasons. rewrite !flat_map_app.
      assert (H1 : forall ds, flat_map
                     (fun e => match e with
                               | handler.message_delta r => [r]
                               | _ => []
                               end)
                     (map (handler.content_block_delta_text 0) ds) = [])
        by (induction ds; simpl; auto).
      assert (H2 : forall i0 u0 cs, flat_map
                     (fun e => match e with
                               | handler.message_delta r => [r]
                               | _ => []
                               end)
                     (toolEvents svc i0 u0 cs) = [])
        by (intros i0 u0 cs; revert i0 u0; induction cs; intros; simpl; auto).
      rewrite H1, H2. destruct (handler.err up); reflexivity. }
    rewrite Hsr, Hex. split; [reflexivity|].
    rewrite <- existsb_exists, Hex.
    destruct (0 <? length calls)%nat; split; try reflexivity; discriminate.
  - intros result model p.
    destruct (handleNonStream_message World svc result model p) as (body & Hb & Hc & Hs).
    exists body. split; [exact Hb|]. rewrite Hs, Hc.
    unfold handler.stopReasonOf. fold isToolUse. split; [reflexivity|].
    rewrite <- existsb_isToolUse.
    destruct (existsb isToolUse _); split; try reflexivity; discriminate.
Qed.

(** The blocks a client assembles from the stream: the text block
    with the accumulated text, then the tool blocks. *)
Lemma assemble_text_deltas (acc : gostring) (ds : list gostring)
      (rest : list handler.SSE) :
  assemble (Some (handler.textBlock acc))
           (map (handler.content_block_delta_text 0) ds ++ rest) =
    assemble (Some (handler.textBlock (acc ++ concat ds))) rest.
Proof.
  revert acc; induction ds as [|d ds IH]; intros acc; simpl.
  - now rewrite app_nil_r.
  - rewrite IH. now rewrite <- app_assoc.
Qed.

Lemma assemble_toolEvents (i0 u : nat) (calls : list tools.ToolCall)
      (rest : list handler.SSE) :
  assemble None (toolEvents svc i0 u calls ++ rest) =
    toolBlocks svc u calls ++ assemble None rest.
Proof.
  revert i0 u; induction calls as [|c calls IH]; intros i0 u; simpl; [reflexivity|].
  now rewrite IH.
Qed.

Lemma clientBlocks_streamEvents (up : handler.Upstream) (model : gostring) (u : nat) :
  clientBlocks (streamEvents svc up model u) =
    handler.textBlock (AccumulatedText svc (handler.chunks up))
    :: toolBlocks svc (S u)
         (fst (handler.ParseToolCalls svc (AccumulatedText svc (handler.chunks up)))).
Proof.
  unfold clientBlocks, streamEvents. cbn [app assemble].
  rewrite assemble_text_deltas. cbn [app].
  fold (AccumulatedText svc (handler.chunks up)).
  destruct (handler.err up); cbn [app assemble handler.ContentBlock.Text];
    rewrite assemble_toolEvents; cbn [assemble]; now rewrite app_nil_r.
Qed.


Lemma filter_toolBlocks (u : nat) (calls : list tools.ToolCall) :
  filter isToolUse (toolBlocks svc u calls) = toolBlocks svc u calls.
Proof.
  revert u; induction calls as [|c calls IH]; intros u; simpl; [reflexivity|].
  change (isToolUse (handler.toolUseBlock _ _ _)) with true. cbv iota.
  now rewrite IH.
Qed.


End VariantFacts.



(** ** UTF-8 decoding, lowering and the search for a phrase (C8) *)

Open Scope Z_scope.

Lemma byteZ_range (b : byte) : 0 <= byteZ b < 256.
Proof.
  unfold byteZ. pose proof (Byte.to_N_bounded b). lia.
Qed.

Lemma toByte_byteZ (b : byte) : utf8.toByte (byteZ b) = b.
Proof.
  unfold utf8.toByte. rewrite Z.mod_small by apply byteZ_range.
  unfold byteZ. rewrite N2Z.id, Byte.of_to_N. reflexivity.
Qed.

Lemma byteZ_toByte (z : Z) : 0 <= z < 256 -> byteZ (utf8.toByte z) = z.
Proof.
  intros Hz. unfold utf8.toByte. rewrite Z.mod_small by assumption.
  destruct (Byte.of_N (Z.to_N z)) as [b|] eqn:E.
  - apply Byte.to_of_N in E. unfold byteZ. rewrite E. lia.
  - apply Byte.of_N_None_iff in E. lia.
Qed.

Lemma RuneStart_spec (b : byte) :
  utf8.RuneStart b = negb ((0x80 <=? byteZ b) && (byteZ b <=? 0xBF)).
Proof. destruct b; reflexivity. Qed.

Lemma first_cases (c : Z) :
  (c < 0x80 /\ utf8.first c = utf8.as_)
  \/ utf8.first c = utf8.xx
  \/ (0xC2 <= c <= 0xF4 /\
      In (utf8.first c) [utf8.s1; utf8.s2; utf8.s3; utf8.s4; utf8.s5; utf8.s6; utf8.s7]).
Proof.
  unfold utf8.first.
  repeat match goal with
         | |- context [if ?c then _ else _] => destruct c eqn:?
         end; simpl; try lia; auto 20.
  all: right; right; split; [lia | simpl; auto 20].
Qed.

Lemma accept_cont (c lo hi : Z) :
  utf8.first c < utf8.as_ ->
  utf8.acceptRanges (Z.shiftr (utf8.first c) 4) = (lo, hi) ->
  0x80 <= lo /\ hi <= 0xBF.
Proof.
  intros Hlt Hacc.
  destruct (first_cases c) as [[_ H] | [H | [_ H]]].
  - rewrite H in Hlt. lia.
  - rewrite H in Hlt. vm_compute in Hlt. discriminate.
  - simpl in H.
    repeat (destruct H as [H | H];
            [rewrite <- H in Hacc; vm_compute in Hacc; inversion Hacc; lia|]).
    contradiction.
Qed.

Lemma first_lead (c : Z) : utf8.first c < utf8.as_ -> 0xC2 <= c <= 0xF4.
Proof.
  intros Hlt.
  destruct (first_cases c) as [[_ H] | [H | [Hr _]]]; auto.
  - rewrite H in Hlt. lia.
  - rewrite H in Hlt. vm_compute in Hlt. discriminate.
Qed.

Lemma out_of_start (lo hi : Z) (b : byte) :
  0x80 <= lo -> hi <= 0xBF -> utf8.RuneStart b = true ->
  utf8.out_of lo hi (byteZ b) = true.
Proof.
  intros Hlo Hhi. rewrite RuneStart_spec. unfold utf8.out_of.
  destruct (0x80 <=? byteZ b) eqn:E1; destruct (byteZ b <=? 0xBF) eqn:E2;
    simpl; try discriminate; intros _; apply orb_true_iff; lia.
Qed.

Lemma out_of_cont (lo hi : Z) (b : byte) :
  0x80 <= lo -> hi <= 0xBF -> utf8.out_of lo hi (byteZ b) = false ->
  utf8.RuneStart b = false.
Proof.
  intros Hlo Hhi H. destruct (utf8.RuneStart b) eqn:E; [|reflexivity].
  rewrite (out_of_start lo hi b Hlo Hhi E) in H. discriminate.
Qed.

Lemma Decode_stop (a x : gostring) :
  a <> [] -> startsOrEnds x ->
  utf8.DecodeRuneInString (a ++ x) = utf8.DecodeRuneInString a.
Proof.
  intros Ha Hx.
  destruct a as [|b0 a]; [contradiction|]. clear Ha.
  simpl app. unfold utf8.DecodeRuneInString.
  destruct (utf8.as_ <=? utf8.first (byteZ b0)) eqn:E0; [reflexivity|].
  apply Z.leb_gt in E0.
  destruct (utf8.acceptRanges (Z.shiftr (utf8.first (byteZ b0)) 4)) as [lo hi] eqn:Hacc.
  destruct (accept_cont _ _ _ E0 Hacc) as [Hlo Hhi].
  assert (Hloc : 0x80 <= utf8.locb) by (vm_compute; discriminate).
  assert (Hhic : utf8.hicb <= 0xBF) by (vm_compute; discriminate).
  destruct a as [|b1 a]; simpl app; cbv beta iota zeta.
  { destruct x as [|y x]; [reflexivity|]. simpl in Hx.
    now rewrite (out_of_start lo hi y Hlo Hhi Hx). }
  destruct (utf8.out_of lo hi (byteZ b1)); [reflexivity|].
  destruct (Z.land (utf8.first (byteZ b0)) 7 <=? 2); [reflexivity|].
  destruct a as [|b2 a]; simpl app; cbv beta iota zeta.
  { destruct x as [|y x]; [reflexivity|]. simpl in Hx.
    now rewrite (out_of_start _ _ y Hloc Hhic Hx). }
  destruct (utf8.out_of utf8.locb utf8.hicb (byteZ b2)); [reflexivity|].
  destruct (Z.land (utf8.first (byteZ b0)) 7 <=? 3); [reflexivity|].
  destruct a as [|b3 a]; simpl app; cbv beta iota zeta.
  { destruct x as [|y x]; [reflexivity|]. simpl in Hx.
    now rewrite (out_of_start _ _ y Hloc Hhic Hx). }
  reflexivity.
Qed.

Lemma Decode_cases (s : gostring) :
  s <> [] ->
  Decoded s (fst (utf8.DecodeRuneInString s)) (snd (utf8.DecodeRuneInString s)).
Proof.
  intros Hs. destruct s as [|b0 a]; [contradiction|]. clear Hs.
  assert (Inv : forall s', s' = b0 :: a -> Decoded s' utf8.RuneError 1)
    by (intros s' ->; apply Decoded_invalid; simpl; lia).
  unfold utf8.DecodeRuneInString.
  destruct (utf8.as_ <=? utf8.first (byteZ b0)) eqn:E0.
  { cbn [fst snd]. destruct (utf8.first (byteZ b0) =? utf8.as_) eqn:E1; [|now apply Inv].
    apply Z.eqb_eq in E1.
    assert (Hc : byteZ b0 < 0x80).
    { destruct (first_cases (byteZ b0)) as [[H _] | [H | [_ H]]]; auto.
      - rewrite H in E1. vm_compute in E1. discriminate.
      - rewrite E1 in H. simpl in H. vm_compute in H. intuition discriminate. }
    apply Decoded_valid.
    - simpl; lia.
    - intros t. simpl. rewrite E0.
      replace (utf8.first (byteZ b0) =? utf8.as_) with true
        by (symmetry; now apply Z.eqb_eq). reflexivity.
    - simpl. rewrite RuneStart_spec. pose proof (byteZ_range b0).
      destruct (0x80 <=? byteZ b0) eqn:E; [lia | reflexivity]. }
  assert (E0' := E0). apply Z.leb_gt in E0'.
  assert (Hstart : startsOrEnds (b0 :: a)).
  { simpl. rewrite RuneStart_spec. pose proof (first_lead _ E0').
    destruct (byteZ b0 <=? 0xBF) eqn:E; [lia|]. now rewrite andb_false_r. }
  destruct (utf8.acceptRanges (Z.shiftr (utf8.first (byteZ b0)) 4)) as [lo hi] eqn:Hacc.
  destruct a as [|b1 a]; cbv beta iota zeta; [now apply Inv|].
  destruct (utf8.out_of lo hi (byteZ b1)) eqn:O1; [now apply Inv|].
  destruct (Z.land (utf8.first (byteZ b0)) 7 <=? 2) eqn:S2.
  { cbn [fst snd]. apply Decoded_valid; [simpl; lia| |exact Hstart].
    intros t. simpl. rewrite E0, Hacc, O1, S2. reflexivity. }
  destruct a as [|b2 a]; cbv beta iota zeta; [now apply Inv|].
  destruct (utf8.out_of utf8.locb utf8.hicb (byteZ b2)) eqn:O2; [now apply Inv|].
  destruct (Z.land (utf8.first (byteZ b0)) 7 <=? 3) eqn:S3.
  { cbn [fst snd]. apply Decoded_valid; [simpl; lia| |exact Hstart].
    intros t. simpl. rewrite E0, Hacc, O1, S2, O2, S3. reflexivity. }
  destruct a as [|b3 a]; cbv beta iota zeta; [now apply Inv|].
  destruct (utf8.out_of utf8.locb utf8.hicb (byteZ b3)) eqn:O3; [now apply Inv|].
  cbn [fst snd]. apply Decoded_valid; [simpl; lia| |exact Hstart].
  intros t. simpl. rewrite E0, Hacc, O1, S2, O2, S3, O3. reflexivity.
Qed.

Lemma rangeFrom_skip (k : nat) (s : gostring) :
  (k <= length s)%nat -> utf8.rangeFrom k s = utf8.range (skipn k s).
Proof.
  revert k; induction s as [|b s IH]; intros k Hk.
  - simpl in Hk. replace k with 0%nat by lia. reflexivity.
  - destruct k as [|k]; [reflexivity|]. simpl in *. apply IH. lia.
Qed.

Lemma Decode_width (s : gostring) :
  s <> [] -> (1 <= snd (utf8.DecodeRuneInString s) <= length s)%nat.
Proof.
  intros Hs. destruct (Decode_cases s Hs); [assumption | lia].
Qed.

Lemma range_unfold (s : gostring) :
  s <> [] ->
  utf8.range s =
    (fst (utf8.DecodeRuneInString s), firstn (snd (utf8.DecodeRuneInString s)) s)
    :: utf8.range (skipn (snd (utf8.DecodeRuneInString s)) s).
Proof.
  intros Hs. pose proof (Decode_width s Hs) as Hw.
  destruct s as [|b s]; [contradiction|].
  unfold utf8.range at 1. cbn [utf8.rangeFrom].
  destruct (utf8.DecodeRuneInString (b :: s)) as [r w]. cbn [fst snd] in *.
  f_equal. rewrite rangeFrom_skip by (simpl in Hw; lia).
  destruct w as [|w]; [lia|]. simpl. now rewrite Nat.sub_0_r.
Qed.

Lemma range_nil : utf8.range [] = [].
Proof. reflexivity. Qed.

(** Induction on strings along the decoding steps. *)
Lemma decode_ind (P : gostring -> Prop) :
  P [] ->
  (forall s, s <> [] -> P (skipn (snd (utf8.DecodeRuneInString s)) s) -> P s) ->
  forall s, P s.
Proof.
  intros H0 Hstep s.
  assert (H : forall n s, (length s <= n)%nat -> P s).
  { induction n as [|n IH]; intros s' Hn.
    - destruct s'; [exact H0 | simpl in Hn; lia].
    - destruct s' as [|b s']; [exact H0|].
      apply Hstep; [discriminate|]. apply IH.
      pose proof (Decode_width (b :: s') ltac:(discriminate)) as Hw.
      rewrite length_skipn. lia. }
  apply (H (length s)). lia.
Qed.

Lemma range_bytes (s : gostring) : concat (map snd (utf8.range s)) = s.
Proof.
  induction s as [|s Hs IH] using decode_ind; [reflexivity|].
  rewrite range_unfold by assumption. simpl. rewrite IH.
  apply firstn_skipn.
Qed.

Lemma range_toks (s : gostring) :
  Forall (fun t => validTok t \/ errorTok t) (utf8.range s).
Proof.
  induction s as [|s Hs IH] using decode_ind; [constructor|].
  rewrite range_unfold by assumption. constructor; [|exact IH].
  pose proof (Decode_cases s Hs) as D.
  destruct (utf8.DecodeRuneInString s) as [r w]. cbn [fst snd] in *.
  inversion D as [r' w' Hw Hloc Hst | Hlen]; subst.
  - left. unfold validTok. cbn [fst snd].
    assert (Hl : length (firstn w s) = w) by (rewrite length_firstn; lia).
    repeat split.
    + intros E. rewrite E in Hl. simpl in Hl. lia.
    + destruct s as [|b s]; [contradiction|]. destruct w; [lia|]. exact Hst.
    + intros rest. now rewrite Hl.
  - right. split; [reflexivity|]. cbn [snd]. rewrite length_firstn. lia.
Qed.

Lemma range_valid_prefix (toks : list (Z * gostring)) (z : gostring) :
  Forall validTok toks ->
  utf8.range (concat (map snd toks) ++ z) = toks ++ utf8.range z.
Proof.
  induction 1 as [|[c bs] toks [Hne [_ Hdec]] _ IH]; [reflexivity|].
  cbn [fst snd] in *. simpl map. simpl concat. rewrite <- app_assoc.
  rewrite range_unfold by (destruct bs; [contradiction | discriminate]).
  rewrite Hdec. cbn [fst snd].
  rewrite firstn_app, firstn_all, Nat.sub_diag, firstn_O, app_nil_r.
  rewrite skipn_app, skipn_all, Nat.sub_diag, skipn_O. simpl app.
  now rewrite IH.
Qed.

Lemma range_app_start (a x : gostring) :
  startsOrEnds x -> utf8.range (a ++ x) = utf8.range a ++ utf8.range x.
Proof.
  intros Hx. induction a as [|a Ha IH] using decode_ind; [reflexivity|].
  pose proof (Decode_width a Ha) as Hw.
  rewrite (range_unfold (a ++ x)) by (destruct a; [contradiction | discriminate]).
  rewrite (range_unfold a) by assumption.
  rewrite Decode_stop by assumption.
  destruct (utf8.DecodeRuneInString a) as [r w]. cbn [fst snd] in *.
  rewrite firstn_app, skipn_app.
  replace (w - length a)%nat with 0%nat by lia.
  rewrite firstn_O, skipn_O, app_nil_r, IH. reflexivity.
Qed.

(** Checking a property of the numbers below a bound by running it on each. *)
Lemma below_forall (P : Z -> bool) (n : nat) :
  forallb P (map Z.of_nat (seq 0 n)) = true ->
  forall z, 0 <= z < Z.of_nat n -> P z = true.
Proof.
  intros H z Hz. rewrite forallb_forall in H. apply H.
  apply in_map_iff. exists (Z.to_nat z). split; [lia|].
  apply in_seq. lia.
Qed.

Lemma land_maskx (y : Z) : 0 <= Z.land y utf8.maskx < 64.
Proof.
  change utf8.maskx with (Z.ones 6). rewrite Z.land_ones by lia.
  apply Z.mod_pos_bound. lia.
Qed.

Lemma cont_byte (y : Z) :
  isCont (utf8.toByte (Z.lor utf8.tx (Z.land y utf8.maskx))) = true.
Proof.
  apply (below_forall (fun x => isCont (utf8.toByte (Z.lor utf8.tx x))) 64).
  - vm_compute. reflexivity.
  - apply land_maskx.
Qed.

Lemma shiftr_bounds (r : Z) (k : Z) (lo hi : Z) :
  0 <= k -> lo * 2 ^ k <= r < hi * 2 ^ k -> lo <= Z.shiftr r k < hi.
Proof.
  intros Hk [H1 H2]. rewrite Z.shiftr_div_pow2 by assumption.
  assert (0 < 2 ^ k) by (apply Z.pow_pos_nonneg; lia).
  split.
  - apply Z.div_le_lower_bound; lia.
  - apply Z.div_lt_upper_bound; lia.
Qed.

Lemma Encode_shape (r : Z) :
  exists b0 bs,
    utf8.EncodeRune r = b0 :: bs
    /\ utf8.RuneStart b0 = true
    /\ forallb isCont bs = true
    /\ length bs = extraLen b0.
Proof.
  unfold utf8.EncodeRune.
  destruct ((0 <=? r) && (r <=? utf8.rune1Max)) eqn:C1.
  { apply andb_true_iff in C1. destruct C1 as [A B].
    apply Z.leb_le in A, B. unfold utf8.rune1Max in B.
    eexists _, _. split; [reflexivity|].
    assert (H : leadOf 0 (utf8.toByte r) = true).
    { apply (below_forall (fun x => leadOf 0 (utf8.toByte x)) 128);
        [vm_compute; reflexivity | lia]. }
    apply andb_true_iff in H. destruct H as [H1 H2]. apply Nat.eqb_eq in H2.
    repeat split; auto. }
  destruct ((0 <=? r) && (r <=? utf8.rune2Max)) eqn:C2.
  { apply andb_true_iff in C2. destruct C2 as [A B].
    apply Z.leb_le in A, B. unfold utf8.rune2Max in B.
    eexists _, _. split; [reflexivity|].
    assert (H : leadOf 1 (utf8.toByte (Z.lor utf8.t2 (Z.shiftr r 6))) = true).
    { apply (below_forall (fun x => leadOf 1 (utf8.toByte (Z.lor utf8.t2 x))) 32);
        [vm_compute; reflexivity|].
      apply (shiftr_bounds r 6 0 32); lia. }
    apply andb_true_iff in H. destruct H as [H1 H2]. apply Nat.eqb_eq in H2.
    repeat split; auto. cbn [forallb]. now rewrite cont_byte. }
  destruct (((0 <=? r) && (r <? utf8.surrogateMin))
            || ((utf8.surrogateMax <? r) && (r <=? utf8.rune3Max))) eqn:C3.
  { assert (Hr : 0 <= r <= 0xFFFF).
    { apply orb_true_iff in C3. unfold utf8.surrogateMin, utf8.surrogateMax,
        utf8.rune3Max in C3. destruct C3 as [C|C]; apply andb_true_iff in C; lia. }
    eexists _, _. split; [reflexivity|].
    assert (H : leadOf 2 (utf8.toByte (Z.lor utf8.t3 (Z.shiftr r 12))) = true).
    { apply (below_forall (fun x => leadOf 2 (utf8.toByte (Z.lor utf8.t3 x))) 16);
        [vm_compute; reflexivity|].
      apply (shiftr_bounds r 12 0 16); lia. }
    apply andb_true_iff in H. destruct H as [H1 H2]. apply Nat.eqb_eq in H2.
    repeat split; auto. cbn [forallb]. now rewrite !cont_byte. }
  destruct ((utf8.rune3Max <? r) && (r <=? utf8.MaxRune)) eqn:C4.
  { apply andb_true_iff in C4. destruct C4 as [A B].
    apply Z.ltb_lt in A. apply Z.leb_le in B.
    unfold utf8.rune3Max in A. unfold utf8.MaxRune in B.
    eexists _, _. split; [reflexivity|].
    assert (H : leadOf 3 (utf8.toByte (Z.lor utf8.t4 (Z.shiftr r 18))) = true).
    { apply (below_forall (fun x => leadOf 3 (utf8.toByte (Z.lor utf8.t4 x))) 5);
        [vm_compute; reflexivity|].
      apply (shiftr_bounds r 18 0 5); lia. }
    apply andb_true_iff in H. destruct H as [H1 H2]. apply Nat.eqb_eq in H2.
    repeat split; auto. cbn [forallb]. now rewrite !cont_byte. }
  eexists _, _. split; [reflexivity|]. repeat split; reflexivity.
Qed.

Lemma writeMapped_piece (r : Z) : isPiece (strings.writeMapped r).
Proof.
  unfold strings.writeMapped. destruct (0 <=? r); [|now left].
  right. apply Encode_shape.
Qed.

Lemma writeMapped_unit (r : Z) : 0 <= r -> isUnit (strings.writeMapped r).
Proof.
  intros Hr. unfold strings.writeMapped.
  rewrite (proj2 (Z.leb_le 0 r) Hr). apply Encode_shape.
Qed.

(** The encodings form a prefix code. *)
Lemma unit_prefix (u v x y : gostring) :
  isUnit u -> isUnit v -> u ++ x = v ++ y -> u = v /\ x = y.
Proof.
  intros (b0 & bs & -> & _ & _ & Hl) (c0 & cs & -> & _ & _ & Hl') H.
  simpl in H. inversion H as [[Hb Ht]]. subst c0.
  assert (Hlen : length bs = length cs) by congruence.
  assert (E : bs = cs).
  { apply (f_equal (firstn (length bs))) in Ht.
    rewrite firstn_app, firstn_all, Nat.sub_diag, firstn_O, app_nil_r in Ht.
    rewrite Hlen, firstn_app, firstn_all, Nat.sub_diag, firstn_O, app_nil_r in Ht.
    exact Ht. }
  subst cs. split; [reflexivity|]. now apply app_inv_head in Ht.
Qed.

Lemma head_match (ps us : list gostring) (b : gostring) :
  Forall isPiece ps -> Forall isUnit us ->
  concat ps = concat us ++ b ->
  exists p2 p3, ps = p2 ++ p3 /\ concat p2 = concat us.
Proof.
  intros Hps. revert us. induction Hps as [|p ps Hp _ IH]; intros us Hus H.
  - exists [], []. split; [reflexivity|]. simpl in *.
    symmetry in H. apply app_eq_nil in H. now destruct H as [-> _].
  - destruct Hus as [|u us Hu Hus].
    + exists [], (p :: ps). split; reflexivity.
    + destruct Hp as [-> | Hp].
      * simpl in H. destruct (IH (u :: us) (Forall_cons _ Hu Hus) H) as (p2 & p3 & -> & E).
        exists ([] :: p2), p3. split; [reflexivity | exact E].
      * simpl in H. rewrite <- app_assoc in H.
        destruct (unit_prefix _ _ _ _ Hp Hu H) as [-> H'].
        destruct (IH us Hus H') as (p2 & p3 & -> & E).
        exists (u :: p2), p3. split; [reflexivity|]. simpl. now rewrite E.
Qed.

Lemma align (ps us : list gostring) (a b : gostring) :
  Forall isPiece ps -> Forall isUnit us -> us <> [] ->
  concat ps = a ++ concat us ++ b ->
  exists p1 p2 p3, ps = p1 ++ p2 ++ p3 /\ concat p2 = concat us.
Proof.
  intros Hps Hus Hne. revert a.
  induction Hps as [|p ps Hp Hps IH]; intros a H.
  - exfalso. destruct Hus as [|u us Hu _]; [contradiction|].
    destruct Hu as (b0 & bs & -> & _). simpl in H.
    destruct a; discriminate H.
  - destruct a as [|x a].
    { destruct (head_match (p :: ps) us b (Forall_cons _ Hp Hps) Hus H)
        as (p2 & p3 & E1 & E2).
      exists [], p2, p3. split; assumption. }
    destruct Hp as [-> | Hp].
    { destruct (IH (x :: a) H) as (p1 & p2 & p3 & -> & E).
      exists ([] :: p1), p2, p3. split; [reflexivity | exact E]. }
    cbn [concat] in H. apply app_eq_app in H.
    destruct H as (l & [[E1 E2] | [E1 E2]]).
    + destruct l as [|y l].
      * rewrite app_nil_r in E1. simpl in E2.
        destruct (head_match ps us b Hps Hus (eq_sym E2)) as (p2 & p3 & -> & E).
        exists [p], p2, p3. split; [reflexivity | exact E].
      * exfalso. destruct Hus as [|u us Hu _]; [contradiction|].
        destruct Hu as (c0 & cs & -> & Hc0 & _).
        simpl in E2. inversion E2; subst y.
        destruct Hp as (b0 & bs & Ep & _ & Hbs & _).
        rewrite Ep in E1. simpl in E1. inversion E1; subst.
        rewrite forallb_app in Hbs. apply andb_true_iff in Hbs.
        destruct Hbs as [_ Hbs]. simpl in Hbs. unfold isCont at 1 in Hbs.
        rewrite Hc0 in Hbs. discriminate.
    + destruct (IH l E2) as (p1 & p2 & p3 & -> & E).
      exists (p :: p1), p2, p3. split; [reflexivity | exact E].
Qed.

Lemma IndexFrom_found (s sub : gostring) (i : Z) :
  0 <= i ->
  (0 <= strings.IndexFrom i s sub <-> exists a b, s = a ++ sub ++ b).
Proof.
  revert i; induction s as [|c s IH]; intros i Hi; simpl.
  - destruct (strings.HasPrefix [] sub) eqn:E.
    + split; [|intros _; assumption]. intros _.
      apply HasPrefix_app in E. destruct E as [r E]. now exists [], r.
    + split; [lia|]. intros (a & b & H).
      symmetry in H. apply app_eq_nil in H. destruct H as [-> H].
      apply app_eq_nil in H. destruct H as [-> _].
      discriminate E.
  - destruct (strings.HasPrefix (c :: s) sub) eqn:E.
    + split; [|intros _; assumption]. intros _.
      apply HasPrefix_app in E. destruct E as [r E]. now exists [], r.
    + rewrite IH by lia. split.
      * intros (a & b & ->). now exists (c :: a), b.
      * intros (a & b & H). destruct a as [|x a].
        -- exfalso. simpl in H.
           assert (strings.HasPrefix (c :: s) sub = true)
             by (apply HasPrefix_app; now exists b).
           congruence.
        -- inversion H; subst. now exists a, b.
Qed.

Lemma Contains_spec (s sub : gostring) :
  strings.Contains s sub = true <-> exists a b, s = a ++ sub ++ b.
Proof.
  unfold strings.Contains, strings.Index.
  rewrite Z.leb_le. apply IndexFrom_found. lia.
Qed.

Lemma Decode_ascii (b : byte) (s : gostring) :
  strings.isASCIIByte b = true ->
  utf8.DecodeRuneInString (b :: s) = (byteZ b, 1%nat).
Proof.
  unfold strings.isASCIIByte, utf8.RuneSelf. intros H.
  unfold utf8.DecodeRuneInString, utf8.first. rewrite H. reflexivity.
Qed.

Lemma range_ascii (s : gostring) :
  forallb strings.isASCIIByte s = true ->
  utf8.range s = map (fun b => (byteZ b, [b])) s.
Proof.
  induction s as [|b s IH]; [reflexivity|]. simpl forallb.
  intros H. apply andb_true_iff in H. destruct H as [Hb Hs].
  rewrite range_unfold by discriminate. rewrite Decode_ascii by assumption.
  cbn [fst snd firstn skipn map]. now rewrite IH.
Qed.

Lemma lower_ascii_byte (b : byte) :
  strings.isASCIIByte b = true ->
  strings.writeMapped (unicode.asciiToLower (byteZ b)) = [strings.lowerByte b].
Proof. destruct b; intros H; try discriminate H; reflexivity. Qed.

Lemma lowerByte_not_upper (b : byte) :
  strings.isUpperByte b = false -> strings.lowerByte b = b.
Proof. unfold strings.lowerByte. now intros ->. Qed.

Section Lowering.

Variable lower : Z -> Z.
Hypothesis table : unicode.LowerTable lower.

Lemma Map_pieces (s : gostring) :
  strings.Map lower s = concat (map (lowered lower) (utf8.range s)).
Proof. unfold strings.Map. now rewrite flat_map_concat_map. Qed.

(** The fast path of [ToLower] writes what [Map] would. *)
Lemma ToLower_Map (s : gostring) : strings.ToLower lower s = strings.Map lower s.
Proof.
  unfold strings.ToLower.
  destruct (forallb strings.isASCIIByte s) eqn:A; [|reflexivity].
  assert (M : strings.Map lower s = map strings.lowerByte s).
  { unfold strings.Map. rewrite range_ascii by assumption.
    clear - A table. induction s as [|b s IH]; [reflexivity|].
    simpl in A. apply andb_true_iff in A. destruct A as [Hb Hs].
    simpl. rewrite IH by assumption.
    rewrite (unicode.lower_ascii table).
    - now rewrite lower_ascii_byte.
    - unfold strings.isASCIIByte, utf8.RuneSelf in Hb.
      pose proof (byteZ_range b). lia. }
  rewrite M. destruct (existsb strings.isUpperByte s) eqn:U; [reflexivity|].
  clear - U. induction s as [|b s IH]; [reflexivity|].
  simpl in U. apply orb_false_iff in U. destruct U as [Ub Us].
  simpl. now rewrite lowerByte_not_upper, <- IH.
Qed.

End Lowering.

Lemma refusalPatterns_good : forallb goodPhrase tools.refusalPatterns = true.
Proof. vm_compute. reflexivity. Qed.

Lemma asciiToLower_table : unicode.LowerTable unicode.asciiToLower.
Proof.
  split.
  - reflexivity.
  - intros r Hr. unfold unicode.asciiToLower.
    destruct ((65 <=? r) && (r <=? 90)) eqn:E; [|reflexivity].
    apply andb_true_iff in E. lia.
  - reflexivity.
Qed.

Section Monotone.

Variable lower : Z -> Z.
Hypothesis table : unicode.LowerTable lower.

Lemma lower_ok (c : Z) :
  okRune c = true -> lower c = unicode.asciiToLower c /\ 0 <= lower c.
Proof.
  unfold okRune. intros H. apply orb_true_iff in H.
  destruct H as [H|H]; apply andb_true_iff in H; destruct H as [H1 H2].
  - rewrite (unicode.lower_ascii table) by lia. split; [reflexivity|].
    unfold unicode.asciiToLower. destruct (_ && _); lia.
  - rewrite (unicode.lower_cjk table) by lia. split; [|lia].
    unfold unicode.asciiToLower.
    destruct ((65 <=? c) && (c <=? 90)) eqn:E; [|reflexivity].
    apply andb_true_iff in E. lia.
Qed.

Lemma good_pieces (toks : list (Z * gostring)) :
  forallb (fun t => okRune (fst t)) toks = true ->
  map (lowered lower) toks = map (lowered unicode.asciiToLower) toks
  /\ Forall isUnit (map (lowered lower) toks).
Proof.
  induction toks as [|t toks IH]; [split; constructor|].
  simpl. intros H. apply andb_true_iff in H. destruct H as [Ht Hs].
  destruct (IH Hs) as [E U]. destruct (lower_ok _ Ht) as [El Hl].
  split.
  - unfold lowered at 1 3. now rewrite El, E.
  - constructor; [|exact U]. now apply writeMapped_unit.
Qed.

Lemma lowered_error (t : Z * gostring) :
  errorTok t -> In "239"%byte (lowered lower t).
Proof.
  intros [E _]. unfold lowered. rewrite E, (unicode.lower_error table).
  vm_compute. auto.
Qed.

Lemma map_eq_app3 (A B : Type) (f : A -> B) (l : list A) (p1 p2 p3 : list B) :
  map f l = p1 ++ p2 ++ p3 ->
  exists t1 t2 t3, l = t1 ++ t2 ++ t3 /\ map f t1 = p1 /\ map f t2 = p2 /\ map f t3 = p3.
Proof.
  intros H. apply map_eq_app in H. destruct H as (t1 & r & -> & E1 & H).
  apply map_eq_app in H. destruct H as (t2 & t3 & -> & E2 & E3).
  now exists t1, t2, t3.
Qed.

(** The search for a good phrase is monotone under containment. *)
Lemma Contains_lower_mono (p A T B : gostring) :
  goodPhrase p = true ->
  strings.Contains (strings.ToLower lower T) (strings.ToLower lower p) = true ->
  strings.Contains (strings.ToLower lower (A ++ T ++ B))
                   (strings.ToLower lower p) = true.
Proof.
  intros G. unfold goodPhrase in G.
  apply andb_true_iff in G. destruct G as [G G3].
  apply andb_true_iff in G. destruct G as [G1 G2].
  apply negb_true_iff in G1, G3.
  rewrite !(ToLower_Map lower table), !Contains_spec.
  destruct (good_pieces _ G2) as [Ep Up].
  assert (Hlp : strings.Map lower p = strings.Map unicode.asciiToLower p)
    by (rewrite !Map_pieces; now rewrite Ep).
  assert (Hne : map (lowered lower) (utf8.range p) <> []).
  { destruct p as [|b p]; [discriminate G1|].
    rewrite range_unfold by discriminate. discriminate. }
  intros (a & b & H).
  rewrite (Map_pieces lower T), (Map_pieces lower p) in H.
  destruct (align _ _ a b
              (proj2 (Forall_forall _ _)
                 (fun q Hq => match proj1 (in_map_iff _ _ _) Hq with
                              | ex_intro _ t (conj E _) =>
                                  eq_ind _ isPiece (writeMapped_piece _) _ E
                              end))
              Up Hne H) as (p1 & p2 & p3 & Hsplit & Hp2).
  destruct (map_eq_app3 _ _ _ _ _ _ _ Hsplit) as (t1 & t2 & t3 & Ht & _ & E2 & _).
  subst p2. rewrite <- Map_pieces in Hp2.
  (* the tokens of the match are valid *)
  assert (Hall : Forall (fun t => validTok t \/ errorTok t) t2).
  { pose proof (range_toks T) as F. rewrite Ht in F.
    apply Forall_app in F. destruct F as [_ F].
    apply Forall_app in F. now destruct F as [F _]. }
  assert (Hval : Forall validTok t2).
  { rewrite Forall_forall in *. intros t Hin.
    destruct (Hall t Hin) as [V | Er]; [exact V|]. exfalso.
    assert (Hef : In "239"%byte (strings.Map lower p)).
    { rewrite <- Hp2. apply in_concat. exists (lowered lower t).
      split; [now apply in_map | now apply lowered_error]. }
    rewrite Hlp in Hef.
    assert (X : existsb (Byte.eqb "239"%byte) (strings.Map unicode.asciiToLower p) = true).
    { apply existsb_exists. eexists. split; [exact Hef | apply byte_eqb_refl]. }
    congruence. }
  assert (Ht2 : t2 <> []).
  { intros ->. simpl in Hp2. rewrite Map_pieces in Hp2.
    destruct p as [|c p]; [discriminate G1|].
    rewrite range_unfold in * by discriminate.
    inversion Up as [|u us Hu _]; subst.
    destruct Hu as (b0 & bs & Eu & _). simpl in Hp2. rewrite Eu in Hp2.
    discriminate. }
  (* the text around the match *)
  assert (HT : T = concat (map snd t1) ++ concat (map snd t2) ++ concat (map snd t3)).
  { rewrite <- (range_bytes T), Ht, !map_app, !concat_app. reflexivity. }
  set (Z := concat (map snd t3) ++ B).
  assert (HT' : A ++ T ++ B = (A ++ concat (map snd t1)) ++ concat (map snd t2) ++ Z).
  { rewrite HT. unfold Z. now rewrite <- !app_assoc. }
  assert (Hst : startsOrEnds (concat (map snd t2) ++ Z)).
  { destruct t2 as [|[c bs] t2]; [contradiction|].
    inversion Hval as [|t ts [Hn [Hs _]] _]; subst. cbn [fst snd] in *.
    destruct bs; [contradiction|]. exact Hs. }
  rewrite HT', (Map_pieces lower ((A ++ _) ++ _)).
  rewrite range_app_start by assumption.
  rewrite range_valid_prefix by assumption.
  rewrite !map_app, !concat_app, <- (Map_pieces lower p) in *.
  rewrite <- Hp2.
  eexists _, _. reflexivity.
Qed.

End Monotone.

Close Scope Z_scope.

(** C8. [DetectRefusal] is a function of the lowered text: it is true
    exactly when the lowered text contains the lowered form of one of the
    sixteen phrases, texts with the same lower-case form are classified
    alike, and a text that contains a refusal-classified text is
    refusal-classified. *)
Theorem DetectRefusal_substring_monotone (lower : Z -> Z) :
  unicode.LowerTable lower ->
  (forall T : gostring,
      tools.DetectRefusal lower T = true <->
      exists p, In p tools.refusalPatterns
                /\ exists a b, strings.ToLower lower T
                               = a ++ strings.ToLower lower p ++ b)
  /\ (forall T T' : gostring,
         strings.ToLower lower T = strings.ToLower lower T' ->
         tools.DetectRefusal lower T = tools.DetectRefusal lower T')
  /\ (forall A T B : gostring,
         tools.DetectRefusal lower T = true ->
         tools.DetectRefusal lower (A ++ T ++ B) = true).
Proof.
  intros table. split; [|split].
  - intros T. unfold tools.DetectRefusal. rewrite existsb_exists.
    split; intros (p & Hin & H); exists p; (split; [exact Hin|]);
      now apply Contains_spec.
  - intros T T' E. unfold tools.DetectRefusal. now rewrite E.
  - intros A T B. unfold tools.DetectRefusal. rewrite !existsb_exists.
    intros (p & Hin & H). exists p. split; [exact Hin|].
    apply Contains_lower_mono; try assumption.
    pose proof refusalPatterns_good as G. rewrite forallb_forall in G.
    now apply G.
Qed.

Lemma DetectRefusal_substring_monotone_witness :
  unicode.LowerTable unicode.asciiToLower
  /\ tools.DetectRefusal unicode.asciiToLower (lit "I CAN'T") = true
  /\ tools.DetectRefusal unicode.asciiToLower
       (lit "The model wrote: " ++ lit "I CAN'T" ++ lit " do that, 我可以.") = true.
Proof.
  split; [exact asciiToLower_table|].
  assert (H : tools.DetectRefusal unicode.asciiToLower (lit "I CAN'T") = true)
    by (vm_compute; reflexivity).
  split; [exact H|].
  destruct (DetectRefusal_substring_monotone unicode.asciiToLower asciiToLower_table)
    as (_ & _ & M).
  apply M. exact H.
Defined.

(** ** The guessed action (C9) *)

(** C9, as the code has it.  The three groups of patterns are tried one
    after the other and each group that has a matching pattern assigns the
    action, so the last matching group in the order create, read, run
    decides; the action is empty when no pattern matches; the classifier
    is a total function of the messages.  The first matching pattern of
    the whole list decides exactly when no later group has a match. *)
Theorem ParseUserIntent_action (lower : Z -> Z) (messages : list gostring) :
  let text := strings.ToLower lower (strings.Join messages (lit " ")) in
  let create := tools.anyMatch tools.createPatterns text in
  let read := tools.anyMatch tools.readPatterns text in
  let run := tools.anyMatch tools.cmdPatterns text in
  tools.Action (tools.ParseUserIntent lower messages) = lastGroupAction text
  /\ (forallb (fun pa => negb (regexp.MatchString (fst pa) text)) actionPatterns = true ->
      tools.Action (tools.ParseUserIntent lower messages) = [])
  /\ (tools.Action (tools.ParseUserIntent lower messages) = firstMatchingAction text <->
      (create = true -> read = false /\ run = false) /\ (read = true -> run = false)).
Proof.
  intros text create read run. subst text create read run.
  set (text := strings.ToLower lower (strings.Join messages (lit " "))).
  assert (E : tools.Action (tools.ParseUserIntent lower messages) = lastGroupAction text).
  { unfold tools.ParseUserIntent, lastGroupAction. cbn [tools.Action]. fold text.
    destruct (tools.anyMatch tools.cmdPatterns text); [reflexivity|].
    destruct (tools.anyMatch tools.readPatterns text); [reflexivity|].
    destruct (tools.anyMatch tools.createPatterns text); reflexivity. }
  (* the first match of the whole list, group by group *)
  assert (F : forall (ps : list regexp.Regexp) (act : gostring)
                     (rest : list (regexp.Regexp * gostring)),
             match find (fun pa => regexp.MatchString (fst pa) text)
                        (map (fun re => (re, act)) ps ++ rest) with
             | Some pa => snd pa
             | None => []
             end =
             if tools.anyMatch ps text then act
             else match find (fun pa => regexp.MatchString (fst pa) text) rest with
                  | Some pa => snd pa
                  | None => []
                  end).
  { intros ps act rest. unfold tools.anyMatch.
    induction ps as [|re ps IH]; [reflexivity|]. simpl.
    destruct (regexp.MatchString re text); [reflexivity | exact IH]. }
  assert (G : firstMatchingAction text =
              if tools.anyMatch tools.createPatterns text then lit "create_file"
              else if tools.anyMatch tools.readPatterns text then lit "read_file"
              else if tools.anyMatch tools.cmdPatterns text then lit "run_command"
              else []).
  { unfold firstMatchingAction, actionPatterns. rewrite F, F.
    rewrite <- (app_nil_r (map _ tools.cmdPatterns)), F. reflexivity. }
  assert (N : forall (ps : list regexp.Regexp) (act : gostring),
             forallb (fun pa => negb (regexp.MatchString (fst pa) text))
                     (map (fun re => (re, act)) ps) = true ->
             tools.anyMatch ps text = false).
  { intros ps act. unfold tools.anyMatch.
    induction ps as [|re ps IH]; [reflexivity|]. simpl.
    destruct (regexp.MatchString re text); [discriminate | exact IH]. }
  split; [exact E|]. split.
  - intros H. rewrite E. unfold lastGroupAction, actionPatterns in *.
    rewrite !forallb_app in H.
    apply andb_true_iff in H. destruct H as [H1 H].
    apply andb_true_iff in H. destruct H as [H2 H3].
    now rewrite (N _ _ H1), (N _ _ H2), (N _ _ H3).
  - rewrite E, G. unfold lastGroupAction.
    destruct (tools.anyMatch tools.createPatterns text);
      destruct (tools.anyMatch tools.readPatterns text);
      destruct (tools.anyMatch tools.cmdPatterns text);
      split; try reflexivity; try (intros H; vm_compute in H; discriminate H);
      try (intros [H1 H2]; first [ destruct (H1 eq_refl); discriminate
                                 | discriminate (H2 eq_refl) ]);
      intros _; split; intros H; try discriminate H; split; reflexivity.
Qed.

Lemma ParseUserIntent_action_witness :
  let messages := [lit "Hello"; lit "there"] in
  let text := strings.ToLower unicode.asciiToLower (strings.Join messages (lit " ")) in
  forallb (fun pa => negb (regexp.MatchString (fst pa) text)) actionPatterns = true
  /\ tools.Action (tools.ParseUserIntent unicode.asciiToLower messages) = [].
Proof.
  intros messages text.
  assert (H : forallb (fun pa => negb (regexp.MatchString (fst pa) text))
                      actionPatterns = true) by (vm_compute; reflexivity).
  split; [exact H|].
  destruct (ParseUserIntent_action unicode.asciiToLower messages) as (_ & E & _).
  exact (E H).
Defined.

(** C9, as stated, fails: in [Create a file and execute it] the first
    pattern of the list that matches is a create pattern, and the action
    is [run_command]. *)
Lemma a_later_group_overrides_the_first_match :
  let messages := [lit "Create a file and execute it"] in
  let text := strings.ToLower unicode.asciiToLower (strings.Join messages (lit " ")) in
  firstMatchingAction text = lit "create_file"
  /\ tools.Action (tools.ParseUserIntent unicode.asciiToLower messages)
     = lit "run_command"
  /\ tools.Action (tools.ParseUserIntent unicode.asciiToLower messages)
     <> firstMatchingAction text.
Proof.
  repeat split; try (vm_compute; reflexivity). vm_compute. discriminate.
Qed.

(** * Further properties of the two files *)

(** ** [escapeJSON] and [generateID] *)

(** Replacing a single byte is a byte-wise substitution. *)
Lemma ReplaceAll_byte (s : gostring) (c : byte) (new : gostring) :
  strings.ReplaceAll s [c] new =
    flat_map (fun b => if Byte.eqb b c then new else [b]) s.
Proof.
  unfold strings.ReplaceAll.
  induction s as [|b s IH]; [reflexivity|].
  cbn [strings.replaceFrom strings.HasPrefix length Nat.sub flat_map].
  rewrite andb_true_r. destruct (Byte.eqb b c); rewrite IH; reflexivity.
Qed.

Lemma flat_map_flat_map (A B C : Type) (f : A -> list B) (g : B -> list C)
      (l : list A) :
  flat_map g (flat_map f l) = flat_map (fun a => flat_map g (f a)) l.
Proof.
  induction l as [|a l IH]; [reflexivity|].
  simpl. now rewrite flat_map_app, IH.
Qed.

Lemma escapeJSON_flat_map (s : gostring) :
  handler.escapeJSON s = flat_map escapeByte s.
Proof.
  unfold handler.escapeJSON.
  change (lit "\") with ["\"%byte].
  rewrite !ReplaceAll_byte, !flat_map_flat_map.
  apply flat_map_ext. intros b. destruct b; reflexivity.
Qed.

(** X1. [escapeJSON] works byte by byte: its five passes amount to one
    substitution that writes a backslash pair for the backslash, the
    quote, the line feed, the carriage return and the tab and copies every
    other byte, so the result of a concatenation is the concatenation of
    the results, the result holds no raw line feed, carriage return or
    tab, and it is at most twice as long as the text. *)
Theorem escapeJSON_bytewise :
  (forall s, handler.escapeJSON s = flat_map escapeByte s)
  /\ (forall a b, handler.escapeJSON (a ++ b)
                  = handler.escapeJSON a ++ handler.escapeJSON b)
  /\ (forall s c, In c (handler.escapeJSON s) -> c <> NL /\ c <> CR /\ c <> TAB)
  /\ (forall s, length s <= length (handler.escapeJSON s) <= 2 * length s).
Proof.
  split; [exact escapeJSON_flat_map|]. split; [|split].
  - intros a b. rewrite !escapeJSON_flat_map. apply flat_map_app.
  - intros s c. rewrite escapeJSON_flat_map, in_flat_map.
    intros (b & _ & H). revert H.
    destruct b; cbn; intros H;
      repeat (destruct H as [H|H]; [subst c; repeat split; discriminate|]);
      destruct H.
  - intros s. rewrite escapeJSON_flat_map.
    induction s as [|b s IH]; [simpl; lia|].
    cbn [flat_map]. rewrite length_app.
    change (length (b :: s)) with (S (length s)).
    assert (1 <= length (escapeByte b) <= 2) by (destruct b; vm_compute; lia).
    lia.
Qed.

Lemma unescape_escapeByte (b : byte) (rest : gostring) :
  unescapeFrom false (escapeByte b ++ rest)
  = option_map (cons b) (unescapeFrom false rest).
Proof. destruct b; reflexivity. Qed.

(** X2. Escaping loses nothing: a reader of JSON string bodies that
    knows the five escapes, and rejects a bare quote or a raw control
    byte among the three, reads the escaped text back as the original.  So
    different texts have different escaped forms, and no quote of the
    result can end the string literal that [handleStream] puts it in. *)
Theorem escapeJSON_round_trip :
  (forall s, unescapeJSON (handler.escapeJSON s) = Some s)
  /\ (forall s t, handler.escapeJSON s = handler.escapeJSON t -> s = t).
Proof.
  assert (R : forall s, unescapeJSON (handler.escapeJSON s) = Some s).
  { intros s. rewrite escapeJSON_flat_map. unfold unescapeJSON.
    induction s as [|b s IH]; [reflexivity|].
    cbn [flat_map]. now rewrite unescape_escapeByte, IH. }
  split; [exact R|].
  intros s t E. pose proof (R s) as Hs. rewrite E, R in Hs. now inversion Hs.
Qed.

Lemma ReplaceAll_delete (s : gostring) (c : byte) :
  strings.ReplaceAll s [c] [] = filter (fun b => negb (Byte.eqb b c)) s.
Proof.
  rewrite ReplaceAll_byte.
  induction s as [|b s IH]; [reflexivity|].
  simpl. rewrite IH. now destruct (Byte.eqb b c).
Qed.

Section IdentifierFacts.

Variable World : Type.
Variable svc : handler.Services World.

(** X3. The identifier that [generateID] returns is the first 16
    bytes of the UUID with its dashes left out, so it holds no dash and is
    16 bytes long.  (The UUID is taken to have 16 bytes besides its
    dashes, as the 36 bytes of the canonical form have; the slice [[:16]]
    of a shorter text would panic.)  A call draws one UUID and neither
    runs the executor nor writes to the client. *)
Theorem generateID_shape (p : handler.Proc World) :
  16 <= length (undashed (handler.uuid_New svc (handler.uuids p))) ->
  let id := fst (handler.generateID svc p) in
  let p' := snd (handler.generateID svc p) in
  id = firstn 16 (undashed (handler.uuid_New svc (handler.uuids p)))
  /\ ~ In "-"%byte id
  /\ length id = 16
  /\ p' = advance p 1 [].
Proof.
  intros L id p'. subst id p'. rewrite generateID_advance. cbn [fst snd].
  unfold idAt. change (lit "-") with ["-"%byte]. rewrite ReplaceAll_delete.
  fold (undashed (handler.uuid_New svc (handler.uuids p))).
  split; [reflexivity|]. split; [|split; [|reflexivity]].
  - intros H.
    assert (I : In "-"%byte (undashed (handler.uuid_New svc (handler.uuids p)))).
    { rewrite <- (firstn_skipn 16). apply in_or_app. now left. }
    unfold undashed in I. apply filter_In in I. destruct I as [_ I].
    discriminate I.
  - rewrite length_firstn. lia.
Qed.

End IdentifierFacts.

Lemma generateID_shape_witness :
  16 <= length (undashed (handler.uuid_New Example.services 0))
  /\ fst (handler.generateID Example.services (initial 0 []))
     = lit "123e4567e89b12d3".
Proof.
  assert (L : 16 <= length (undashed (handler.uuid_New Example.services 0)))
    by (vm_compute; lia).
  split; [exact L|].
  destruct (generateID_shape _ Example.services (initial 0 []) L) as (E & _).
  rewrite E. reflexivity.
Defined.

(** ** [mapModelName] *)

Section ModelFacts.

Variable World : Type.
Variable svc : handler.Services World.

Lemma mapModelName_slash (model : gostring) :
  strings.Contains (anthropic.mapModelName svc model) (lit "/") = true.
Proof.
  unfold anthropic.mapModelName.
  set (lowered := strings.ToLower (handler.unicode_ToLower svc) model).
  destruct (strings.Contains lowered (lit "/")) eqn:E; [exact E|].
  destruct (strings.Contains lowered (lit "claude")); [reflexivity|].
  destruct (strings.Contains lowered (lit "gpt")); [reflexivity|].
  destruct (strings.Contains lowered (lit "gemini")); reflexivity.
Qed.

(** X4. The model name that goes upstream always has the form
    [provider/name]: [mapModelName] returns the lowered name when that
    holds a slash, and otherwise one of three fixed names, each with a
    slash: the OpenAI model when the lowered name holds [gpt] and not
    [claude], the Google model when it holds [gemini] and neither [claude]
    nor [gpt], the Anthropic model in every other case. *)
Theorem mapModelName_cursor_format (model : gostring) :
  let lowered := strings.ToLower (handler.unicode_ToLower svc) model in
  let mapped := anthropic.mapModelName svc model in
  let has := strings.Contains lowered in
  strings.Contains mapped (lit "/") = true
  /\ (has (lit "/") = true -> mapped = lowered)
  /\ (has (lit "/") = false ->
      mapped = if has (lit "gpt") && negb (has (lit "claude"))
               then lit "openai/gpt-5-nano"
               else if has (lit "gemini") && negb (has (lit "claude"))
                       && negb (has (lit "gpt"))
                    then lit "google/gemini-2.5-flash"
                    else lit "anthropic/claude-sonnet-4.5").
Proof.
  intros lowered mapped has. subst mapped has.
  split; [apply mapModelName_slash|].
  unfold anthropic.mapModelName. fold lowered.
  destruct (strings.Contains lowered (lit "/")) eqn:E.
  - split; [reflexivity | discriminate].
  - split; [discriminate|intros _].
    destruct (strings.Contains lowered (lit "claude"));
      destruct (strings.Contains lowered (lit "gpt"));
      destruct (strings.Contains lowered (lit "gemini")); reflexivity.
Qed.

(** X5. A model name that holds a slash is taken for a name in the
    upstream form whatever else it mentions: [mapModelName] only lowers
    it.  ([unicode.ToLower] enters through the three facts of
    [unicode.LowerTable].) *)
Theorem mapModelName_keeps_qualified_names (model : gostring) :
  unicode.LowerTable (handler.unicode_ToLower svc) ->
  strings.Contains model (lit "/") = true ->
  anthropic.mapModelName svc model
  = strings.ToLower (handler.unicode_ToLower svc) model.
Proof.
  intros table H. apply Contains_spec in H. destruct H as (a & b & ->).
  unfold anthropic.mapModelName.
  assert (C : strings.Contains
                (strings.ToLower (handler.unicode_ToLower svc) (a ++ lit "/" ++ b))
                (strings.ToLower (handler.unicode_ToLower svc) (lit "/")) = true).
  { apply Contains_lower_mono; [exact table | reflexivity | reflexivity]. }
  change (strings.ToLower (handler.unicode_ToLower svc) (lit "/")) with (lit "/") in C.
  now rewrite C.
Qed.

End ModelFacts.

Lemma mapModelName_keeps_qualified_names_witness :
  unicode.LowerTable (handler.unicode_ToLower Example.services)
  /\ strings.Contains (lit "OpenAI/GPT-4o") (lit "/") = true
  /\ anthropic.mapModelName Example.services (lit "OpenAI/GPT-4o")
     = lit "openai/gpt-4o".
Proof.
  split; [exact asciiToLower_table|]. split; [reflexivity|].
  rewrite (mapModelName_keeps_qualified_names _ Example.services
             (lit "OpenAI/GPT-4o") asciiToLower_table eq_refl).
  reflexivity.
Defined.

(** ** The text of a message content *)

Lemma textsOfItem_text (item : tools.Value) :
  isBlockOfType (lit "tool_result") item = false ->
  anthropic.textsOfItem item = anthropic.textOfItem item.
Proof.
  destruct item as [| | | |items|block]; try reflexivity.
  unfold isBlockOfType, anthropic.textsOfItem, anthropic.textOfItem.
  destruct (anthropic.index block (lit "type")) as [| | |s| |]; try reflexivity.
  cbn [anthropic.equalsString anthropic.stringOrZero].
  intros ->. now destruct (bytes_eqb s (lit "text")).
Qed.

Lemma textsOfItem_unread (item : tools.Value) :
  isBlockOfType (lit "text") item = false ->
  isBlockOfType (lit "tool_result") item = false ->
  anthropic.textsOfItem item = [].
Proof.
  destruct item as [| | | |items|block]; try reflexivity.
  unfold isBlockOfType, anthropic.textsOfItem.
  destruct (anthropic.index block (lit "type")) as [| | |s| |]; try reflexivity.
  cbn [anthropic.equalsString anthropic.stringOrZero].
  now intros -> ->.
Qed.

Lemma textOfItem_unread (item : tools.Value) :
  isBlockOfType (lit "text") item = false ->
  anthropic.textOfItem item = [].
Proof.
  destruct item as [| | | |items|block]; try reflexivity.
  unfold isBlockOfType, anthropic.textOfItem. now intros ->.
Qed.

Lemma flat_map_filter (A B : Type) (f : A -> list B) (keep : A -> bool)
      (l : list A) :
  (forall a, keep a = false -> f a = []) ->
  flat_map f (filter keep l) = flat_map f l.
Proof.
  intros H. induction l as [|a l IH]; [reflexivity|].
  simpl. destruct (keep a) eqn:E; simpl; rewrite IH; [reflexivity|].
  now rewrite (H a E).
Qed.

Section ContentFacts.

Variable ToolDefinition : Type.
Variable lib : anthropic.Collaborators ToolDefinition.

(** X6. The two extractors agree wherever there is no tool result:
    on a content that is no list, or a list without a [tool_result] block,
    [extractMessageText] returns what [getTextContent] returns; and on any
    list [getTextContent] returns what [extractMessageText] returns once
    the [tool_result] blocks are taken out. *)
Theorem extractors_agree_without_tool_results :
  (forall msg : anthropic.Message.t,
      hasToolResult (anthropic.Message.Content msg) = false ->
      anthropic.extractMessageText lib msg
      = anthropic.getTextContent lib (anthropic.Message.Content msg))
  /\ (forall (role : gostring) (items : list tools.Value),
         anthropic.getTextContent lib (tools.VArray items)
         = anthropic.extractMessageText lib
             {| anthropic.Message.Role := role;
                anthropic.Message.Content :=
                  tools.VArray
                    (filter (fun item =>
                               negb (isBlockOfType (lit "tool_result") item))
                            items) |}).
Proof.
  split.
  - intros [role content]. cbn [anthropic.Message.Content].
    unfold anthropic.extractMessageText, anthropic.getTextContent.
    cbn [anthropic.Message.Content].
    destruct content as [| | | |items|block]; try reflexivity.
    cbn [hasToolResult]. intros H. f_equal.
    induction items as [|item items IH]; [reflexivity|].
    cbn [existsb] in H. apply orb_false_iff in H. destruct H as [H1 H2].
    cbn [flat_map]. now rewrite (textsOfItem_text _ H1), (IH H2).
  - intros role items.
    unfold anthropic.extractMessageText, anthropic.getTextContent.
    cbn [anthropic.Message.Content]. f_equal.
    induction items as [|item items IH]; [reflexivity|].
    cbn [filter flat_map].
    destruct (isBlockOfType (lit "tool_result") item) eqn:E; cbn [negb].
    + rewrite <- IH.
      assert (T : anthropic.textOfItem item = []).
      { apply textOfItem_unread.
        destruct item as [| | | |its|block]; try reflexivity.
        unfold isBlockOfType in *.
        destruct (anthropic.index block (lit "type")) as [| | |s| |];
          try reflexivity.
        cbn [anthropic.equalsString] in *.
        apply bytes_eqb_eq in E. now subst s. }
      now rewrite T.
    + cbn [flat_map]. now rewrite (textsOfItem_text _ E), IH.
Qed.

(** X7. Of a content that is a list, [extractMessageText] reads the
    text blocks and the tool results, and [getTextContent] the text
    blocks: every other item (a [tool_use] block of an earlier assistant
    turn, an image, a value that is no map) is passed over, so taking such
    items out changes nothing, and a list with nothing but such items has
    the empty text. *)
Theorem unread_blocks_are_dropped (role : gostring) (items : list tools.Value) :
  let message content :=
    {| anthropic.Message.Role := role; anthropic.Message.Content := content |} in
  anthropic.extractMessageText lib (message (tools.VArray items))
  = anthropic.extractMessageText lib (message (tools.VArray (readBlocks items)))
  /\ anthropic.getTextContent lib (tools.VArray items)
     = anthropic.getTextContent lib
         (tools.VArray (filter (isBlockOfType (lit "text")) items))
  /\ (readBlocks items = [] ->
      anthropic.extractMessageText lib (message (tools.VArray items)) = []).
Proof.
  intros message. subst message.
  unfold anthropic.extractMessageText, anthropic.getTextContent, readBlocks.
  cbn [anthropic.Message.Content].
  assert (E : flat_map anthropic.textsOfItem
                (filter (fun item => isBlockOfType (lit "text") item
                                     || isBlockOfType (lit "tool_result") item)
                        items)
              = flat_map anthropic.textsOfItem items).
  { apply flat_map_filter. intros a H. apply orb_false_iff in H.
    now apply textsOfItem_unread. }
  split; [now rewrite E|]. split.
  - rewrite flat_map_filter; [reflexivity | exact textOfItem_unread].
  - intros H. rewrite <- E, H. reflexivity.
Qed.

End ContentFacts.

(** ** [CountTokens] *)

Lemma fold_left_sum (A : Type) (f : A -> nat) (l : list A) (a : nat) :
  fold_left (fun (total : Z) (x : A) => (total + Z.of_nat (f x))%Z) l (Z.of_nat a)
  = Z.of_nat (a + list_sum (map f l)).
Proof.
  revert a; induction l as [|x l IH]; intros a; simpl.
  - now rewrite Nat.add_0_r.
  - rewrite <- Nat2Z.inj_add, IH. f_equal. lia.
Qed.

Section RequestFacts.

Variable World : Type.
Variable svc : handler.Services World.
Variable ToolDefinition : Type.
Variable lib : anthropic.Collaborators ToolDefinition.

Lemma CountTokens_value (req : anthropic.MessagesRequest.t ToolDefinition) :
  anthropic.CountTokens lib (inl req)
  = anthropic.CountOK 200 (Z.of_nat (Nat.max 1 (textLength lib req / 4))).
Proof.
  unfold anthropic.CountTokens, anthropic.len, textLength.
  rewrite (fold_left_sum _
             (fun msg => length (anthropic.getTextContent
                                   lib (anthropic.Message.Content msg)))).
  set (n := length _ + list_sum _). f_equal.
  rewrite Z.quot_div_nonneg by lia.
  change 4%Z with (Z.of_nat 4). rewrite <- Nat2Z.inj_div.
  destruct (Z.ltb_spec (Z.of_nat (n / 4)) 1); lia.
Qed.

(** X8. The estimate of [CountTokens] is a quarter of the bytes of
    the system text and of the message texts, rounded down, and never less
    than 1; a body that does not bind is answered with status 400 and the
    error text.  The estimate does not go down when messages are added,
    and it does not look at the tool definitions, whose prompt
    [convertToCursor] does send upstream. *)
Theorem CountTokens_estimate :
  (forall req,
      exists tokens,
        anthropic.CountTokens lib (inl req) = anthropic.CountOK 200 tokens
        /\ tokens = Z.max 1 (Z.of_nat (textLength lib req) / 4)
        /\ (1 <= tokens)%Z
        /\ (4 * tokens <= Z.max 4 (Z.of_nat (textLength lib req)))%Z)
  /\ (forall err, anthropic.CountTokens lib (inr err) = anthropic.CountError 400 err)
  /\ (forall model maxTokens stream system tls tls' msgs more,
         let request ts ms :=
           {| anthropic.MessagesRequest.Model := model;
              anthropic.MessagesRequest.Messages := ms;
              anthropic.MessagesRequest.MaxTokens := maxTokens;
              anthropic.MessagesRequest.Stream := stream;
              anthropic.MessagesRequest.System := system;
              anthropic.MessagesRequest.Tools := ts |} in
         anthropic.CountTokens lib (inl (request tls msgs))
         = anthropic.CountTokens lib (inl (request tls' msgs))
         /\ forall n n',
             anthropic.CountTokens lib (inl (request tls msgs))
             = anthropic.CountOK 200 n ->
             anthropic.CountTokens lib (inl (request tls (msgs ++ more)))
             = anthropic.CountOK 200 n' ->
             (n <= n')%Z).
Proof.
  split; [|split].
  - intros req. eexists. split; [apply CountTokens_value|].
    set (n := textLength lib req).
    assert (E : Z.of_nat (n / 4) = (Z.of_nat n / 4)%Z)
      by (rewrite Nat2Z.inj_div; reflexivity).
    assert (L : (4 * (Z.of_nat n / 4) <= Z.of_nat n)%Z)
      by (apply Z.mul_div_le; lia).
    assert (P : (0 <= Z.of_nat n / 4)%Z) by (apply Z.div_pos; lia).
    rewrite Nat2Z.inj_max, E. repeat split; lia.
  - reflexivity.
  - intros model maxTokens stream system tls tls' msgs more request.
    subst request. split; [reflexivity|].
    intros n n'. rewrite !CountTokens_value. unfold textLength.
    cbn [anthropic.MessagesRequest.System anthropic.MessagesRequest.Messages].
    rewrite map_app, list_sum_app.
    set (a := Nat.max 1 _). set (b := Nat.max 1 _). intros H H'.
    assert (L : a <= b)
      by (apply Nat.max_le_compat_l, Nat.Div0.div_le_mono; lia).
    assert (En : n = Z.of_nat a) by congruence.
    assert (En' : n' = Z.of_nat b) by congruence.
    rewrite En, En'. now apply Nat2Z.inj_le.
Qed.

(** ** [convertToCursor] *)

Lemma forMessages_spec (msgs : list anthropic.Message.t)
      (messages : list browser.CursorMessage.t) (p : handler.Proc World) :
  let kept :=
    filter (fun turn => negb (is_empty (snd turn)))
           (map (fun msg => (anthropic.Message.Role msg,
                             anthropic.extractMessageText lib msg)) msgs) in
  anthropic.forMessages svc lib msgs messages p
  = (messages ++ cursorMessages svc (handler.uuids p) kept,
     advance p (length kept) []).
Proof.
  revert messages p; induction msgs as [|msg msgs IH]; intros messages p; simpl.
  - unfold handler.ret. now rewrite app_nil_r, advance_0_nil.
  - destruct (is_empty (anthropic.extractMessageText lib msg)) eqn:E;
      cbn [negb filter snd].
    + apply IH.
    + unfold handler.bind. rewrite generateID_advance.
      rewrite IH, advance_advance. cbn [advance handler.uuids length cursorMessages].
      rewrite <- app_assoc. cbn [app].
      now rewrite (Nat.add_1_r (handler.uuids p)).
Qed.

Lemma cursorMessages_app (u : nat) (a b : list (gostring * gostring)) :
  cursorMessages svc u (a ++ b)
  = cursorMessages svc u a ++ cursorMessages svc (u + length a) b.
Proof.
  revert u; induction a as [|[role text] a IH]; intros u; simpl.
  - now rewrite Nat.add_0_r.
  - rewrite IH. now rewrite Nat.add_succ_r.
Qed.

(** What [convertToCursor] returns and what it leaves behind. *)
Lemma convertToCursor_spec (req : anthropic.MessagesRequest.t ToolDefinition)
      (p : handler.Proc World) :
  let n := length (turns lib req) in
  anthropic.convertToCursor svc lib req p
  = ({| browser.CursorChatRequest.Context :=
          [ {| browser.CursorContext.Type_ := lit "file";
               browser.CursorContext.Content := [];
               browser.CursorContext.FilePath := lit "/docs/" |} ];
        browser.CursorChatRequest.Model :=
          anthropic.mapModelName svc (anthropic.MessagesRequest.Model req);
        browser.CursorChatRequest.ID := idAt svc (handler.uuids p + n);
        browser.CursorChatRequest.Messages :=
          cursorMessages svc (handler.uuids p) (turns lib req);
        browser.CursorChatRequest.Trigger := lit "submit-message" |},
     advance p (S n) []).
Proof.
  intros n. subst n.
  unfold anthropic.convertToCursor, turns, handler.bind.
  assert (Hs : (if (0 <? length (anthropic.MessagesRequest.Tools req))%nat
               then anthropic.getTextContent lib (anthropic.MessagesRequest.System req)
                    ++ anthropic.GenerateToolPrompt lib (anthropic.MessagesRequest.Tools req)
               else anthropic.getTextContent lib (anthropic.MessagesRequest.System req))
              = systemText lib req).
  { unfold systemText.
    destruct (anthropic.MessagesRequest.Tools req); [|reflexivity].
    cbn. now rewrite app_nil_r. }
  rewrite Hs. set (kept := filter _ _).
  destruct (is_empty (systemText lib req)) eqn:E; cbn [negb].
  - unfold handler.ret at 1. rewrite forMessages_spec. fold kept.
    rewrite generateID_advance. unfold handler.ret.
    rewrite advance_advance. cbn [advance handler.uuids app].
    now rewrite Nat.add_1_r.
  - unfold handler.bind. rewrite generateID_advance. unfold handler.ret at 1.
    rewrite forMessages_spec. fold kept.
    rewrite generateID_advance. unfold handler.ret.
    rewrite !advance_advance. cbn [advance handler.uuids app length cursorMessages].
    rewrite (Nat.add_1_r (handler.uuids p)).
    replace (1 + length kept + 1) with (S (S (length kept))) by lia.
    reflexivity.
Qed.

Lemma turnOf_cursorMessages (u : nat) (ts : list (gostring * gostring)) :
  map turnOf (cursorMessages svc u ts) = ts.
Proof.
  revert u; induction ts as [|[role text] ts IH]; intros u; [reflexivity|].
  simpl. rewrite IH. unfold turnOf; simpl. now rewrite app_nil_r.
Qed.

(** X9. The conversation that [convertToCursor] sends upstream: the
    system text with the tool prompt after it, as a [system] message, when
    that text is not empty, and then one message for every message of the
    request whose extracted text is not empty, in the order of the
    request and with its role.  Every upstream message has exactly one
    part, of type [text], with a text that is not empty; a message without
    text is left out, so there are at most as many upstream messages as
    the request has, plus one. *)
Theorem convertToCursor_conversation
        (req : anthropic.MessagesRequest.t ToolDefinition) (p : handler.Proc World) :
  let messages :=
    browser.CursorChatRequest.Messages (fst (anthropic.convertToCursor svc lib req p)) in
  map turnOf messages = turns lib req
  /\ Forall (fun m => exists text,
                 browser.CursorMessage.Parts m
                 = [ {| browser.CursorPart.Type_ := lit "text";
                        browser.CursorPart.Text := text |} ]
                 /\ text <> []) messages
  /\ length messages <= S (length (anthropic.MessagesRequest.Messages req))
  /\ (anthropic.MessagesRequest.Tools req = [] ->
      anthropic.getTextContent lib (anthropic.MessagesRequest.System req) = [] ->
      map turnOf messages
      = filter (fun turn => negb (is_empty (snd turn)))
               (map (fun msg => (anthropic.Message.Role msg,
                                 anthropic.extractMessageText lib msg))
                    (anthropic.MessagesRequest.Messages req))).
Proof.
  intros messages. subst messages. rewrite convertToCursor_spec.
  cbn [fst browser.CursorChatRequest.Messages].
  rewrite turnOf_cursorMessages.
  assert (NE : Forall (fun turn => snd turn <> []) (turns lib req)).
  { unfold turns. apply Forall_app. split.
    - destruct (is_empty (systemText lib req)) eqn:E; constructor; [|constructor].
      now apply is_empty_false.
    - apply Forall_forall. intros t H. apply filter_In in H.
      destruct H as [_ H]. apply negb_true_iff in H. now apply is_empty_false. }
  split; [reflexivity|]. split; [|split].
  - generalize (handler.uuids p). induction NE as [|[role text] ts H _ IH];
      intros u; simpl; constructor.
    + exists text. split; [reflexivity | exact H].
    + apply IH.
  - assert (L : forall u ts, length (cursorMessages svc u ts) = length ts).
    { intros u ts. revert u. induction ts as [|[r t] ts IH]; intros u; simpl;
        [reflexivity | now rewrite IH]. }
    rewrite L. unfold turns. rewrite length_app.
    pose proof (filter_length_le
                  (fun turn : gostring * gostring => negb (is_empty (snd turn)))
                  (map (fun msg => (anthropic.Message.Role msg,
                                    anthropic.extractMessageText lib msg))
                       (anthropic.MessagesRequest.Messages req))) as F.
    rewrite length_map in F.
    destruct (is_empty (systemText lib req)); simpl; lia.
  - intros T Hs. unfold turns, systemText. rewrite T, Hs. reflexivity.
Qed.

(** X10. [convertToCursor] draws one UUID for every upstream message
    and one more, last, for the request: the [k]-th message carries the
    identifier made of the [k]-th UUID drawn, the request the one made of
    the UUID drawn after those of the messages.  It neither runs the
    executor nor writes to the client, and the model it names has the
    upstream form. *)
Theorem convertToCursor_identifiers
        (req : anthropic.MessagesRequest.t ToolDefinition) (p : handler.Proc World) :
  let result := fst (anthropic.convertToCursor svc lib req p) in
  let p' := snd (anthropic.convertToCursor svc lib req p) in
  let messages := browser.CursorChatRequest.Messages result in
  map browser.CursorMessage.ID messages
  = map (idAt svc) (List.seq (handler.uuids p) (length messages))
  /\ browser.CursorChatRequest.ID result
     = idAt svc (handler.uuids p + length messages)
  /\ p' = advance p (S (length messages)) []
  /\ strings.Contains (browser.CursorChatRequest.Model result) (lit "/") = true.
Proof.
  intros result p' messages. subst result p' messages.
  rewrite convertToCursor_spec.
  cbn [fst snd browser.CursorChatRequest.Messages browser.CursorChatRequest.ID
       browser.CursorChatRequest.Model].
  assert (L : forall u ts, length (cursorMessages svc u ts) = length ts).
  { intros u ts. revert u. induction ts as [|[r t] ts IH]; intros u; simpl;
      [reflexivity | now rewrite IH]. }
  rewrite L. split; [|split; [reflexivity|split; [reflexivity|]]].
  - generalize (handler.uuids p).
    induction (turns lib req) as [|[r t] ts IH]; intros u; [reflexivity|].
    simpl. now rewrite IH.
  - apply mapModelName_slash.
Qed.

End RequestFacts.

(** ** The handlers: what they run, draw and write *)

Lemma Split_no_sep (s : gostring) (sep : byte) :
  Forall (fun seg => ~ In sep seg) (strings.Split s sep).
Proof.
  induction s as [|c s IH]; simpl.
  - constructor; [intros [] | constructor].
  - destruct (Byte.eqb c sep) eqn:E.
    + constructor; [intros [] | exact IH].
    + apply byte_eqb_neq in E.
      destruct (strings.Split s sep) as [|seg segs]; simpl.
      * constructor; [|constructor]. intros [H|[]]. now apply E.
      * inversion IH as [|? ? H1 H2]; subst. constructor; [|exact H2].
        intros [H|H]; [now apply E | now apply H1].
Qed.

Lemma Forall_removelast (A : Type) (P : A -> Prop) (l : list A) :
  Forall P l -> Forall P (removelast l).
Proof.
  induction 1 as [|x l H _ IH]; simpl; [constructor|].
  destruct l; [constructor | now constructor].
Qed.

Lemma Forall_last (A : Type) (P : A -> Prop) (l : list A) (d : A) :
  Forall P l -> P d -> P (last l d).
Proof.
  induction 1 as [|x l H _ IH]; simpl; [auto|].
  intros Hd. destruct l; [exact H | now apply IH].
Qed.

(** X11. No frame that the callback of [handleStream] gets to decode
    holds a line terminator, nor does the buffer it keeps for the next
    chunk; this holds after every chunk of a stream. *)
Theorem frames_hold_no_terminator :
  (forall buffer chunk,
      Forall (fun frame => ~ In NL frame) (fst (handler.reassemble buffer chunk))
      /\ ~ In NL (snd (handler.reassemble buffer chunk)))
  /\ (forall chunks buffer,
         ~ In NL buffer ->
         Forall (fun frame => ~ In NL frame) (fst (feedAll buffer chunks))
         /\ ~ In NL (snd (feedAll buffer chunks))).
Proof.
  assert (R : forall buffer chunk,
             Forall (fun frame => ~ In NL frame) (fst (handler.reassemble buffer chunk))
             /\ ~ In NL (snd (handler.reassemble buffer chunk))).
  { intros buffer chunk. unfold handler.reassemble.
    pose proof (Split_no_sep (buffer ++ chunk) NL) as F.
    destruct (negb (strings.HasSuffix (buffer ++ chunk) [NL])
              && (0 <? length (strings.Split (buffer ++ chunk) NL))%nat);
      cbn [fst snd].
    - split; [now apply Forall_removelast|].
      apply (Forall_last _ (fun frame => ~ In NL frame)); [exact F | intros []].
    - split; [exact F | intros []]. }
  split; [exact R|].
  induction chunks as [|chunk chunks IH]; intros buffer Hb; simpl.
  - split; [constructor | exact Hb].
  - destruct (R buffer chunk) as [R1 R2].
    destruct (handler.reassemble buffer chunk) as [lines buffer'].
    cbn [fst snd] in R1, R2.
    destruct (IH buffer' R2) as [I1 I2].
    destruct (feedAll buffer' chunks) as [lines' buffer'']. cbn [fst snd] in *.
    split; [apply Forall_app; now split | exact I2].
Qed.

Section EffectFacts.

Variable World : Type.
Variable svc : handler.Services World.

Lemma textDelta_Some (line delta : gostring) :
  handler.textDelta svc line = Some delta ->
  delta <> []
  /\ strings.HasPrefix line (lit "data: ") = true
  /\ exists event,
       handler.json_Unmarshal svc (skipn 6 line) = Some event
       /\ handler.CursorSSEEvent.Type_ event = lit "text-delta"
       /\ handler.CursorSSEEvent.Delta event = delta.
Proof.
  unfold handler.textDelta, strings.TrimPrefix.
  destruct (strings.HasPrefix line (lit "data: ")) eqn:P; cbn [negb];
    [|discriminate].
  change (length (lit "data: ")) with 6.
  destruct (is_empty (skipn 6 line)); [discriminate|].
  destruct (handler.json_Unmarshal svc (skipn 6 line)) as [event|];
    [|discriminate].
  destruct (bytes_eqb (handler.CursorSSEEvent.Type_ event) (lit "text-delta")) eqn:T;
    [|discriminate].
  destruct (is_empty (handler.CursorSSEEvent.Delta event)) eqn:D; [discriminate|].
  cbn [andb negb]. intros H. injection H as <-.
  split; [now apply is_empty_false|]. split; [reflexivity|].
  exists event. split; [reflexivity|]. split; [|reflexivity].
  now apply bytes_eqb_eq.
Qed.

(** X12. A frame yields a text delta only if it starts with [data: ],
    what follows decodes to an event of type [text-delta], and the delta
    of that event is not empty; the delta is then the text delta.  So no
    [content_block_delta] event of a stream carries an empty text, and
    every text delta of a stream belongs to block 0. *)
Theorem text_deltas_are_not_empty :
  (forall line delta,
      handler.textDelta svc line = Some delta ->
      delta <> []
      /\ strings.HasPrefix line (lit "data: ") = true
      /\ exists event,
           handler.json_Unmarshal svc (skipn 6 line) = Some event
           /\ handler.CursorSSEEvent.Type_ event = lit "text-delta"
           /\ handler.CursorSSEEvent.Delta event = delta)
  /\ (forall up model u w index text,
         In (handler.content_block_delta_text index text)
            (handler.written (snd (handler.handleStream svc up model (initial u w)))) ->
         index = 0 /\ text <> []).
Proof.
  split; [exact textDelta_Some|].
  intros up model u w index text. rewrite handleStream_spec.
  cbn [snd advance handler.written initial app]. unfold streamEvents.
  assert (D : forall lines d, In d (deltasOf svc lines) -> d <> []).
  { intros lines d H. unfold deltasOf in H. apply in_flat_map in H.
    destruct H as (line & _ & H).
    destruct (handler.textDelta svc line) as [delta|] eqn:E; [|destruct H].
    destruct H as [<-|[]]. now apply (textDelta_Some line delta). }
  assert (T : forall i0 u0 calls,
             ~ In (handler.content_block_delta_text index text)
                  (toolEvents svc i0 u0 calls)).
  { intros i0 u0 calls. revert i0 u0.
    induction calls as [|c calls IH]; intros i0 u0; simpl; [tauto|].
    intros [H|[H|[H|H]]]; try discriminate H. now apply (IH _ _ H). }
  intros H. cbn [app In] in H.
  destruct H as [H|[H|H]]; try discriminate H.
  apply in_app_or in H. destruct H as [H|H].
  - apply in_map_iff in H. destruct H as (d & E & H).
    injection E as <- <-. split; [reflexivity|]. now apply (D _ _ H).
  - apply in_app_or in H. destruct H as [H|H].
    + destruct (handler.err up); [|destruct H].
      destruct H as [H|[]]; discriminate H.
    + cbn [app In] in H. destruct H as [H|H]; [discriminate H|].
      apply in_app_or in H. destruct H as [H|H]; [now apply T in H|].
      destruct H as [H|[H|[]]]; discriminate H.
Qed.

(** X13. [handleStream] never runs the executor, whatever the
    accumulated text is, a refusal included: the executor's world is
    left as it was.  It draws one UUID for the message and one for every
    parsed invocation, and it only appends to what was written.  This
    holds when the upstream request fails, too: the invocations are then
    parsed from the text received so far. *)
Theorem handleStream_effects (up : handler.Upstream) (model : gostring)
        (p : handler.Proc World) :
  let p' := snd (handler.handleStream svc up model p) in
  let calls :=
    fst (handler.ParseToolCalls svc (AccumulatedText svc (handler.chunks up))) in
  handler.world p' = handler.world p
  /\ handler.uuids p' = handler.uuids p + 1 + length calls
  /\ handler.written p' = handler.written p ++ streamEvents svc up model (handler.uuids p)
  /\ map (fun c => (tools.Name c, tools.Input_ c)) calls
     = map invocation
           (filter isToolUse (clientBlocks (streamEvents svc up model (handler.uuids p)))).
Proof.
  intros p' calls. subst p' calls. rewrite handleStream_spec.
  cbn [snd advance handler.world handler.uuids handler.written].
  split; [reflexivity|]. split; [lia|]. split; [reflexivity|].
  rewrite clientBlocks_streamEvents.
  cbn [filter]. change (isToolUse (handler.textBlock _)) with false. cbv iota.
  rewrite filter_toolBlocks.
  generalize (S (handler.uuids p)).
  induction (fst (handler.ParseToolCalls svc _)) as [|c calls IH]; intros u;
    [reflexivity|].
  simpl. now rewrite <- IH.
Qed.

Lemma forallb_toolEvents (f : handler.SSE -> bool) (i0 u : nat)
      (calls : list tools.ToolCall) :
  (forall i id name, f (handler.content_block_start_tool_use i id name) = true) ->
  (forall i input, f (handler.content_block_delta_input_json i input) = true) ->
  (forall i, f (handler.content_block_stop i) = true) ->
  forallb f (toolEvents svc i0 u calls) = true.
Proof.
  intros H1 H2 H3. revert i0 u.
  induction calls as [|c calls IH]; intros i0 u; simpl; [reflexivity|].
  now rewrite H1, H2, H3, IH.
Qed.

(** X14. The frame of every stream: [message_start] with the model
    of the request and the start of text block 0 come first,
    [message_delta] and [message_stop] come last, and no other event of
    the stream opens or closes the message.  An upstream error shows as
    one [error] event, written after the text deltas and right before
    block 0 is closed; the stream is completed as usual after it.  A
    stream without an upstream error has no [error] event. *)
Theorem stream_frame (up : handler.Upstream) (model : gostring) (u : nat) (w : World) :
  let events :=
    handler.written (snd (handler.handleStream svc up model (initial u w))) in
  (exists id body stop_reason,
      events = handler.message_start id model
               :: handler.content_block_start_text 0
               :: body ++ [handler.message_delta stop_reason; handler.message_stop]
      /\ forallb (fun e => negb (isMessageEvent e)) body = true
      /\ match handler.err up with
         | Some e =>
             exists after,
               body = map (handler.content_block_delta_text 0)
                          (deltas svc (handler.chunks up))
                      ++ [handler.error e; handler.content_block_stop 0] ++ after
               /\ forallb (fun e => negb (isErrorEvent e)) after = true
         | None => forallb (fun e => negb (isErrorEvent e)) body = true
         end).
Proof.
  intros events. subst events. rewrite events_of_handleStream.
  unfold streamEvents.
  set (calls := fst (handler.ParseToolCalls svc _)).
  set (ds := deltas svc (handler.chunks up)).
  assert (M : forallb (fun e => negb (isMessageEvent e))
                      (map (handler.content_block_delta_text 0) ds) = true)
    by (induction ds; simpl; auto).
  assert (Er : forallb (fun e => negb (isErrorEvent e))
                       (map (handler.content_block_delta_text 0) ds) = true)
    by (induction ds; simpl; auto).
  assert (TM : forallb (fun e => negb (isMessageEvent e))
                       (toolEvents svc 0 (S u) calls) = true)
    by (apply forallb_toolEvents; reflexivity).
  assert (TE : forallb (fun e => negb (isErrorEvent e))
                       (toolEvents svc 0 (S u) calls) = true)
    by (apply forallb_toolEvents; reflexivity).
  eexists _, (map (handler.content_block_delta_text 0) ds
              ++ match handler.err up with
                 | Some e => [handler.error e]
                 | None => []
                 end
              ++ [handler.content_block_stop 0]
              ++ toolEvents svc 0 (S u) calls), _.
  split.
  - cbn [app]. rewrite <- !app_assoc. reflexivity.
  - destruct (handler.err up) as [e|].
    + split.
      * rewrite !forallb_app, M. cbn [forallb app]. now rewrite TM.
      * exists (toolEvents svc 0 (S u) calls). split; [reflexivity | exact TE].
    + split; rewrite !forallb_app; cbn [forallb app];
        [now rewrite M, TM | now rewrite Er, TE].
Qed.

Lemma fullTextOf_spec (lines : list gostring) (acc : gostring) :
  handler.fullTextOf svc lines acc = acc ++ concat (deltasOf svc lines).
Proof.
  revert acc; induction lines as [|line lines IH]; intros acc; simpl.
  - now rewrite app_nil_r.
  - unfold deltasOf in *. simpl.
    destruct (handler.textDelta svc line) as [delta|]; simpl.
    + rewrite IH. now rewrite <- app_assoc.
    + apply IH.
Qed.

(** X15. The two handlers do not read the same lines.  The text that
    [handleNonStream] accumulates from an upstream answer is the text that
    [handleStream] accumulates from that answer, cut into chunks in any
    way, followed by the delta of the last line when no terminator closes
    it: the streaming callback leaves such a line in its buffer and never
    decodes it.  The two texts are the same when the answer ends with a
    line terminator. *)
Theorem nonstream_reads_the_last_line (chunks : list gostring) :
  let result := concat chunks in
  handler.fullTextOf svc (strings.Split result NL) []
  = AccumulatedText svc chunks ++ concat (deltasOf svc [pendingTail result])
  /\ (strings.HasSuffix result [NL] = true ->
      handler.fullTextOf svc (strings.Split result NL) []
      = AccumulatedText svc chunks).
Proof.
  intros result. subst result.
  assert (E : handler.fullTextOf svc (strings.Split (concat chunks) NL) []
              = AccumulatedText svc chunks
                ++ concat (deltasOf svc [pendingTail (concat chunks)])).
  { rewrite fullTextOf_spec, Split_complete_pending, deltasOf_app, concat_app.
    cbn [app]. f_equal. unfold AccumulatedText, deltas. f_equal.
    destruct (feedAll_from_empty chunks) as [P _].
    rewrite <- (deltasOf_nonEmpty _ svc (fst (feedAll [] chunks))).
    rewrite (Padded_nonEmpty _ _ P). symmetry. apply deltasOf_nonEmpty. }
  split; [exact E|].
  intros H. rewrite E. apply HasSuffix_NL in H. destruct H as [s' ->].
  rewrite pendingTail_snoc_NL. unfold deltasOf. cbn [flat_map].
  rewrite textDelta_empty_frame. cbn. apply app_nil_r.
Qed.

(** [parseResponseToBlocks] writes no event. *)
Lemma parseResponseToBlocks_written (text : gostring) (userMessages : list gostring)
      (p : handler.Proc World) :
  handler.written (snd (handler.parseResponseToBlocks svc text userMessages p))
  = handler.written p.
Proof.
  destruct (recovers svc text) eqn:R.
  - rewrite (parseResponseToBlocks_recovers _ svc text userMessages p R).
    reflexivity.
  - rewrite (parseResponseToBlocks_ordinary _ svc text userMessages p R).
    cbn [snd advance handler.written]. apply app_nil_r.
Qed.

(** X16. What [handleNonStream] does besides answering: it writes no
    event; on an upstream error it answers with status 500 and the error
    text, draws no UUID and does not run the executor; on an upstream
    answer it draws two UUIDs when the refusal fallback fires, and
    otherwise one for the message and one for every parsed invocation, and
    the executor's world is left as it was. *)
Theorem handleNonStream_effects (model : gostring) (p : handler.Proc World) :
  (forall e, handler.handleNonStream svc (inr e) model p
             = (handler.JSONError 500 e, p))
  /\ (forall result,
         let text := handler.fullTextOf svc (strings.Split result NL) [] in
         let p' := snd (handler.handleNonStream svc (inl result) model p) in
         handler.written p' = handler.written p
         /\ handler.uuids p'
            = handler.uuids p
              + (if recovers svc text then 2
                 else S (length (fst (handler.ParseToolCalls svc text))))
         /\ (recovers svc text = false -> handler.world p' = handler.world p)).
Proof.
  split; [reflexivity|].
  intros result text p'. subst p'.
  unfold handler.handleNonStream, handler.bind. fold text.
  destruct (recovers svc text) eqn:R.
  - rewrite (parseResponseToBlocks_recovers _ svc text [] p R).
    cbv zeta. unfold handler.generateID, handler.ret.
    cbn [snd handler.written handler.uuids handler.world].
    split; [reflexivity|]. split; [lia | intros D; discriminate D].
  - rewrite (parseResponseToBlocks_ordinary _ svc text [] p R).
    rewrite generateID_advance. unfold handler.ret.
    cbn [snd advance handler.written handler.uuids handler.world].
    split; [rewrite !app_nil_r; reflexivity|]. split; [lia | reflexivity].
Qed.

(** X17. When the parser finds invocations, [parseResponseToBlocks]
    turns each of them into one [tool_use] block with its name and its
    input, in the parser's order, after a text block for the remaining
    text when there is some; it draws one UUID for every invocation and
    does not run the executor, even if the text reads as a refusal. *)
Theorem parsed_invocations_become_blocks (text : gostring)
        (userMessages : list gostring) (p : handler.Proc World) :
  fst (handler.ParseToolCalls svc text) <> [] ->
  let calls := fst (handler.ParseToolCalls svc text) in
  let rem := snd (handler.ParseToolCalls svc text) in
  let blocks := fst (handler.parseResponseToBlocks svc text userMessages p) in
  let p' := snd (handler.parseResponseToBlocks svc text userMessages p) in
  blocks = (if is_empty rem then [] else [handler.textBlock rem])
           ++ toolBlocks svc (handler.uuids p) calls
  /\ map invocation (filter isToolUse blocks)
     = map (fun c => (tools.Name c, tools.Input_ c)) calls
  /\ p' = advance p (length calls) [].
Proof.
  intros H calls rem blocks p'. subst blocks p' calls rem.
  assert (R : recovers svc text = false).
  { unfold recovers. destruct (fst (handler.ParseToolCalls svc text));
      [contradiction | reflexivity]. }
  rewrite (parseResponseToBlocks_ordinary _ svc text userMessages p R).
  cbn [fst snd].
  destruct (handler.ParseToolCalls svc text) as [calls rem]. cbn [fst snd] in *.
  assert (B : ordinaryBlocks svc (handler.uuids p) text calls rem
              = (if is_empty rem then [] else [handler.textBlock rem])
                ++ toolBlocks svc (handler.uuids p) calls).
  { unfold ordinaryBlocks. destruct rem; destruct calls; try reflexivity.
    contradiction. }
  rewrite B. split; [reflexivity|]. split; [|reflexivity].
  rewrite filter_app, filter_toolBlocks.
  assert (T : filter isToolUse (if is_empty rem then [] else [handler.textBlock rem]) = [])
    by (destruct (is_empty rem); reflexivity).
  rewrite T. cbn [app]. clear.
  generalize (handler.uuids p).
  induction calls as [|c calls IH]; intros u; [reflexivity|].
  simpl. now rewrite IH.
Qed.

End EffectFacts.

Lemma parsed_invocations_become_blocks_witness :
  let text := lit "CALL /etc/hosts" in
  fst (handler.ParseToolCalls Example.services text) <> []
  /\ map invocation
         (filter isToolUse
            (fst (handler.parseResponseToBlocks Example.services text []
                    (initial 0 []))))
     = [(lit "read_file", [(lit "path", tools.VString (lit "/etc/hosts"))])].
Proof.
  intros text.
  assert (H : fst (handler.ParseToolCalls Example.services text) <> [])
    by (vm_compute; discriminate).
  split; [exact H|].
  destruct (parsed_invocations_become_blocks _ Example.services text []
              (initial 0 []) H) as (_ & E & _).
  rewrite E. reflexivity.
Defined.

(** ** [Messages] *)

Section EntryFacts.

Variable World : Type.
Variable svc : handler.Services World.
Variable ToolDefinition : Type.
Variable lib : anthropic.Collaborators ToolDefinition.

(** X18. [Messages] answers a body that does not bind with status
    400 and does nothing else.  A request is answered either with a
    stream or with one JSON document, as its [stream] field says: the
    stream opens with [message_start], the non-streaming path writes no
    event and answers 200 with a message, or 500 when the upstream request
    fails.  Both name the model as the request spelled it, not the model
    that [mapModelName] put into the upstream request. *)
Theorem Messages_answers :
  (forall err p,
      anthropic.Messages svc lib (inr err) p = (Some (handler.JSONError 400 err), p))
  /\ (forall req u w,
         let result := anthropic.Messages svc lib (inl req) (initial u w) in
         let model := anthropic.MessagesRequest.Model req in
         if anthropic.MessagesRequest.Stream req
         then fst result = None
              /\ exists id rest,
                   handler.written (snd result)
                   = handler.message_start id model :: rest
         else handler.written (snd result) = []
              /\ ((exists body,
                      fst result = Some (handler.JSONMessage 200 body)
                      /\ handler.MessagesResponse.Model body = model)
                  \/ exists e, fst result = Some (handler.JSONError 500 e))).
Proof.
  split; [reflexivity|].
  intros req u w result model. subst result model.
  unfold anthropic.Messages, handler.bind.
  rewrite (convertToCursor_spec _ svc _ lib req (initial u w)).
  cbv zeta. set (cursorReq := {| browser.CursorChatRequest.Trigger := _ |}).
  set (p1 := advance (initial u w) _ []).
  destruct (anthropic.MessagesRequest.Stream req).
  - rewrite handleStream_spec. unfold handler.ret. cbn [fst snd].
    split; [reflexivity|].
    cbn [advance handler.written p1 initial app]. unfold streamEvents.
    cbn [app]. eexists _, _. reflexivity.
  - destruct (anthropic.SendRequest lib cursorReq) as [result|e].
    + unfold handler.handleNonStream, handler.bind.
      pose proof (parseResponseToBlocks_written _ svc
                    (handler.fullTextOf svc (strings.Split result NL) []) [] p1) as W.
      destruct (handler.parseResponseToBlocks svc _ [] p1) as [blocks p2].
      unfold handler.generateID, handler.ret. cbn [fst snd handler.written] in *.
      rewrite W. split; [reflexivity|]. left. eexists. split; reflexivity.
    + cbn. split; [reflexivity|]. right. now exists e.
Qed.

End EntryFacts.

(** ** [intent.go]: what the classifiers return *)

Lemma occursIn_refl (s : gostring) : occursIn s s.
Proof. exists [], []. now rewrite app_nil_r. Qed.

Lemma occursIn_nil (s : gostring) : occursIn [] s.
Proof. now exists [], s. Qed.

Lemma occursIn_trans (a b c : gostring) :
  occursIn a b -> occursIn b c -> occursIn a c.
Proof.
  intros (x & y & ->) (x' & y' & ->).
  exists (x' ++ x), (y ++ y'). now rewrite <- !app_assoc.
Qed.

Lemma occursIn_firstn (k : nat) (s : gostring) : occursIn (firstn k s) s.
Proof. exists [], (skipn k s). apply eq_sym, firstn_skipn. Qed.

Lemma occursIn_skipn (k : nat) (s : gostring) : occursIn (skipn k s) s.
Proof.
  exists (firstn k s), []. rewrite app_nil_r. apply eq_sym, firstn_skipn.
Qed.

Lemma occursIn_slice (s : gostring) (lo hi : nat) : occursIn (regexp.slice s lo hi) s.
Proof.
  unfold regexp.slice.
  apply occursIn_trans with (skipn lo s);
    [apply occursIn_firstn | apply occursIn_skipn].
Qed.

Lemma occursIn_trimLeftToks (f : Z -> bool) (toks : list (Z * gostring)) :
  occursIn (strings.trimLeftToks f toks) (concat (map snd toks)).
Proof.
  induction toks as [|[c bs] toks IH]; simpl; [apply occursIn_nil|].
  destruct (f c); [|apply occursIn_refl].
  apply occursIn_trans with (concat (map snd toks)); [exact IH|].
  exists bs, []. now rewrite app_nil_r.
Qed.

Lemma occursIn_TrimSpace (s : gostring) : occursIn (strings.TrimSpace s) s.
Proof.
  unfold strings.TrimSpace, strings.TrimFunc.
  apply occursIn_trans with (strings.TrimLeftFunc s unicode.IsSpace).
  - unfold strings.TrimRightFunc.
    destruct (strings.lastIndexFrom _ _ _ _) as [i|]; [|apply occursIn_nil].
    destruct (skipn i _) as [|b rest]; [apply occursIn_firstn|].
    destruct (utf8.RuneSelf <=? byteZ b)%Z; apply occursIn_firstn.
  - unfold strings.TrimLeftFunc.
    rewrite <- (range_bytes s) at 2. apply occursIn_trimLeftToks.
Qed.

Lemma occursIn_FindString (re : regexp.Regexp) (s : gostring) :
  occursIn (regexp.FindString re s) s.
Proof.
  unfold regexp.FindString.
  destruct (regexp.search re s) as [[lo [c p]]|];
    [apply occursIn_slice | apply occursIn_nil].
Qed.

Lemma occursIn_FindStringSubmatch (re : regexp.Regexp) (s : gostring) :
  Forall (fun m => occursIn m s) (regexp.FindStringSubmatch re s).
Proof.
  unfold regexp.FindStringSubmatch.
  destruct (regexp.search re s) as [[lo [c p]]|]; [|constructor].
  constructor; [apply occursIn_slice|].
  apply Forall_forall. intros m H. apply in_map_iff in H.
  destruct H as (i & <- & _).
  destruct (regexp.capture c i) as [[a b]|];
    [apply occursIn_slice | apply occursIn_nil].
Qed.

Lemma occursIn_firstSubmatch (res : list regexp.Regexp) (s : gostring) :
  occursIn (tools.orEmpty (tools.firstSubmatch res s)) s.
Proof.
  induction res as [|re res IH]; simpl; [apply occursIn_nil|].
  pose proof (occursIn_FindStringSubmatch re s) as F.
  destruct (regexp.FindStringSubmatch re s) as [|m0 [|m1 ms]]; try exact IH.
  inversion F as [|? ? _ F1]; subst. inversion F1; subst. assumption.
Qed.

(** X19. The command that [ExtractCommandFromRefusal] returns is
    never made up: it stands in the response byte for byte, as one
    piece. *)
Theorem extracted_command_is_verbatim (response : gostring) :
  occursIn (tools.ExtractCommandFromRefusal response) response.
Proof.
  unfold tools.ExtractCommandFromRefusal.
  pose proof (occursIn_FindStringSubmatch tools.codeBlockRe response) as F.
  assert (L : forall res, occursIn (tools.firstFind res response) response).
  { induction res as [|re res IH]; simpl; [apply occursIn_nil|].
    destruct (is_empty (regexp.FindString re response)); [exact IH|].
    apply occursIn_trans with (regexp.FindString re response);
      [apply occursIn_TrimSpace | apply occursIn_FindString]. }
  destruct (regexp.FindStringSubmatch tools.codeBlockRe response)
    as [|m0 [|m1 ms]]; try apply L.
  inversion F as [|? ? _ F1]; subst. inversion F1; subst.
  apply occursIn_trans with m1; [apply occursIn_TrimSpace | assumption].
Qed.

(** X20. What [ParseUserIntent] can return.  The action is empty or
    one of [create_file], [read_file] and [run_command]; the actions
    [edit_file] and [list_dir], which the comment of the [Intent]
    structure lists, are never returned, and the command is always empty.
    The path and the content are pieces of the user's text, byte for
    byte, and the classifier reads the messages only as their join: one
    message holding the joined text is classified alike. *)
Theorem ParseUserIntent_fields (lower : Z -> Z) (messages : list gostring) :
  let intent := tools.ParseUserIntent lower messages in
  let text := strings.Join messages (lit " ") in
  In (tools.Action intent)
     [[]; lit "create_file"; lit "read_file"; lit "run_command"]
  /\ tools.Action intent <> lit "edit_file"
  /\ tools.Action intent <> lit "list_dir"
  /\ tools.Command intent = []
  /\ occursIn (tools.FilePath intent) text
  /\ occursIn (tools.Content intent) text
  /\ tools.ParseUserIntent lower [text] = intent.
Proof.
  intros intent text. subst intent.
  unfold tools.ParseUserIntent. fold text.
  cbn [tools.Action tools.Command tools.FilePath tools.Content strings.Join].
  set (lowered := strings.ToLower lower text).
  split; [|split; [|split; [|split; [reflexivity|split; [|split; [|reflexivity]]]]]].
  - destruct (tools.anyMatch tools.cmdPatterns lowered);
      destruct (tools.anyMatch tools.readPatterns lowered);
      destruct (tools.anyMatch tools.createPatterns lowered);
      cbn [In]; tauto.
  - destruct (tools.anyMatch tools.cmdPatterns lowered);
      destruct (tools.anyMatch tools.readPatterns lowered);
      destruct (tools.anyMatch tools.createPatterns lowered);
      intros H; vm_compute in H; discriminate H.
  - destruct (tools.anyMatch tools.cmdPatterns lowered);
      destruct (tools.anyMatch tools.readPatterns lowered);
      destruct (tools.anyMatch tools.createPatterns lowered);
      intros H; vm_compute in H; discriminate H.
  - apply occursIn_firstSubmatch.
  - apply occursIn_firstSubmatch.
Qed.

(** X21. Every phrase of the list of [DetectRefusal] does its work:
    a text that holds one of the sixteen phrases, or a spelling of it with
    the same lower-case form, is classified as a refusal, whatever stands
    around it.  ([unicode.ToLower] enters through the three facts of
    [unicode.LowerTable].) *)
Theorem every_phrase_is_detected (lower : Z -> Z) (p T A B : gostring) :
  unicode.LowerTable lower ->
  In p tools.refusalPatterns ->
  strings.ToLower lower T = strings.ToLower lower p ->
  tools.DetectRefusal lower (A ++ T ++ B) = true.
Proof.
  intros table Hin E. unfold tools.DetectRefusal. apply existsb_exists.
  exists p. split; [exact Hin|].
  apply Contains_lower_mono; [exact table | |].
  - pose proof refusalPatterns_good as G. rewrite forallb_forall in G.
    now apply G.
  - apply Contains_spec. exists [], []. now rewrite E, app_nil_r.
Qed.

Lemma every_phrase_is_detected_witness :
  unicode.LowerTable unicode.asciiToLower
  /\ In (lit "unable to") tools.refusalPatterns
  /\ strings.ToLower unicode.asciiToLower (lit "Unable To")
     = strings.ToLower unicode.asciiToLower (lit "unable to")
  /\ tools.DetectRefusal unicode.asciiToLower
       (lit "Sorry. " ++ lit "Unable To" ++ lit " do this.") = true.
Proof.
  assert (I : In (lit "unable to") tools.refusalPatterns)
    by (unfold tools.refusalPatterns; cbn [In]; tauto).
  assert (E : strings.ToLower unicode.asciiToLower (lit "Unable To")
              = strings.ToLower unicode.asciiToLower (lit "unable to"))
    by (vm_compute; reflexivity).
  split; [exact asciiToLower_table|]. split; [exact I|]. split; [exact E|].
  exact (every_phrase_is_detected unicode.asciiToLower (lit "unable to")
           (lit "Unable To") (lit "Sorry. ") (lit " do this.")
           asciiToLower_table I E).
Defined.

(** ** The stream as the client receives it *)

Section WireFacts.

Variable World : Type.
Variable svc : handler.Services World.

(** X22. The events and the final state of [handleStream] depend on
    the upstream bytes, not on how they arrive: two streams whose chunks
    add up to the same text, and that end alike, are answered with the
    same events, the same identifiers and the same stop reason. *)
Theorem stream_ignores_fragmentation (chunks1 chunks2 : list gostring)
        (e : option gostring) (model : gostring) (p : handler.Proc World) :
  concat chunks1 = concat chunks2 ->
  handler.handleStream svc {| handler.chunks := chunks1; handler.err := e |} model p
  = handler.handleStream svc {| handler.chunks := chunks2; handler.err := e |} model p.
Proof.
  intros Heq.
  assert (D : deltas svc chunks1 = deltas svc chunks2).
  { unfold deltas.
    destruct (feedAll_from_empty chunks1) as [P1 _].
    destruct (feedAll_from_empty chunks2) as [P2 _].
    rewrite <- (deltasOf_nonEmpty World svc (fst (feedAll [] chunks1))).
    rewrite <- (deltasOf_nonEmpty World svc (fst (feedAll [] chunks2))).
    now rewrite (Padded_nonEmpty _ _ P1), (Padded_nonEmpty _ _ P2), Heq. }
  rewrite !handleStream_spec. unfold streamEvents, AccumulatedText.
  cbn [handler.chunks handler.err]. now rewrite D.
Qed.

Lemma digits_no_NL (d : Decimal.uint) :
  ~ In NL (lit (NilEmpty.string_of_uint d)).
Proof.
  unfold lit.
  induction d; simpl; intros H;
    try (destruct H as [H|H]; [discriminate H | now apply IHd]).
  exact H.
Qed.

Lemma itoa_no_NL (n : nat) : ~ In NL (handler.itoa n).
Proof.
  unfold handler.itoa, NilZero.string_of_uint.
  destruct (Nat.to_uint n) eqn:E; try apply digits_no_NL.
  intros [H|[]]. discriminate H.
Qed.

Lemma escapeJSON_no_NL (s : gostring) : ~ In NL (handler.escapeJSON s).
Proof.
  rewrite escapeJSON_flat_map, in_flat_map. intros (b & _ & H). revert H.
  destruct b; cbn; intros H;
    repeat (destruct H as [H|H]; [discriminate H|]); destruct H.
Qed.

Lemma no_NL_closed (s : gostring) :
  existsb (Byte.eqb NL) s = false -> ~ In NL s.
Proof.
  intros E H. assert (T : existsb (Byte.eqb NL) s = true).
  { apply existsb_exists. exists NL. split; [exact H | apply byte_eqb_refl]. }
  congruence.
Qed.

(** A frame put together from the pieces of a format string and the
    values that fill it. *)
Lemma frame_of_parts (name data : gostring) (parts : list gostring) :
  ~ In NL name -> ~ In NL data -> Forall (fun part => ~ In NL part) parts ->
  oneFrame ((lit "event: " ++ name) ++ [NL]
            ++ fold_right (@app byte) [NL; NL] ((lit "data: " ++ data) :: parts)).
Proof.
  intros Hn Hd Hp. exists name, (data ++ concat parts).
  split; [|split; [exact Hn|]].
  - assert (F : forall tail : gostring,
               fold_right (@app byte) tail parts = concat parts ++ tail).
    { intros tail. induction parts as [|part parts IH]; [reflexivity|].
      cbn [fold_right concat]. rewrite IH by (now inversion Hp).
      apply app_assoc. }
    cbn [fold_right]. rewrite F.
    generalize (lit "event: ") (lit "data: ") (concat parts).
    intros ev da ps. now rewrite <- !app_assoc.
  - intros H. apply in_app_or in H. destruct H as [H|H]; [now apply Hd|].
    apply in_concat in H. destruct H as (part & Hin & H).
    rewrite Forall_forall in Hp. now apply (Hp part Hin).
Qed.

Ltac no_NL :=
  first [ assumption
        | apply itoa_no_NL
        | apply escapeJSON_no_NL
        | apply no_NL_closed; reflexivity ].

Ltac frame := apply frame_of_parts; [no_NL | no_NL | repeat constructor; no_NL].

(** X23. Every event is written as one frame, that is an [event:]
    line, one [data:] line and a blank line, as long as the texts that
    [handleStream] puts into the data line as they are (identifiers, the
    model, a tool name, the upstream error text, the encoded text delta)
    hold no line feed.  For the input of a tool this needs no condition:
    [escapeJSON] leaves no line feed in it. *)
Theorem events_are_frames :
  (forall index input,
      oneFrame (handler.wire svc (handler.content_block_delta_input_json index input)))
  /\ (forall e,
         Forall (fun text => ~ In NL text) (rawTexts svc e) ->
         oneFrame (handler.wire svc e)).
Proof.
  assert (J : forall index input,
             oneFrame (handler.wire svc (handler.content_block_delta_input_json index input))).
  { intros index input. unfold handler.wire.
    change (oneFrame
              ((lit "event: " ++ lit "content_block_delta") ++ [NL]
               ++ fold_right (@app byte) [NL; NL]
                    [ lit "data: " ++ q "{^type^:^content_block_delta^,^index^:";
                      handler.itoa index;
                      q ",^delta^:{^type^:^input_json_delta^,^partial_json^:^";
                      handler.escapeJSON (handler.json_Marshal_input svc input);
                      q "^}}" ])).
    frame. }
  split; [exact J|].
  intros e H.
  destruct e as [id model|index|index id name|index text|index input|index
                 |message|stop_reason|];
    [ | | | | apply J | | | | ];
    cbn [rawTexts] in H; unfold handler.wire;
    repeat match goal with
           | F : Forall _ (_ :: _) |- _ =>
               let H1 := fresh "N" in
               let H2 := fresh "F" in
               inversion F as [|? ? H1 H2]; subst; clear F
           end.
  - change (oneFrame
              ((lit "event: " ++ lit "message_start") ++ [NL]
               ++ fold_right (@app byte) [NL; NL]
                    [ lit "data: " ++ q "{^type^:^message_start^,^message^:{^id^:^";
                      id;
                      q "^,^type^:^message^,^role^:^assistant^,^content^:[],^model^:^";
                      model;
                      q "^,^stop_reason^:null,^stop_sequence^:null,^usage^:{^input_tokens^:100,^output_tokens^:0}}}" ])).
    frame.
  - change (oneFrame
              ((lit "event: " ++ lit "content_block_start") ++ [NL]
               ++ fold_right (@app byte) [NL; NL]
                    [ lit "data: " ++ q "{^type^:^content_block_start^,^index^:";
                      handler.itoa index;
                      q ",^content_block^:{^type^:^text^,^text^:^^}}" ])).
    frame.
  - change (oneFrame
              ((lit "event: " ++ lit "content_block_start") ++ [NL]
               ++ fold_right (@app byte) [NL; NL]
                    [ lit "data: " ++ q "{^type^:^content_block_start^,^index^:";
                      handler.itoa index;
                      q ",^content_block^:{^type^:^tool_use^,^id^:^";
                      id;
                      q "^,^name^:^";
                      name;
                      q "^,^input^:{}}}" ])).
    frame.
  - change (oneFrame
              ((lit "event: " ++ lit "content_block_delta") ++ [NL]
               ++ fold_right (@app byte) [NL; NL]
                    [ lit "data: " ++ q "{^type^:^content_block_delta^,^index^:";
                      handler.itoa index;
                      q ",^delta^:{^type^:^text_delta^,^text^:";
                      handler.json_Marshal_string svc text;
                      lit "}}" ])).
    frame.
  - change (oneFrame
              ((lit "event: " ++ lit "content_block_stop") ++ [NL]
               ++ fold_right (@app byte) [NL; NL]
                    [ lit "data: " ++ q "{^type^:^content_block_stop^,^index^:";
                      handler.itoa index;
                      lit "}" ])).
    frame.
  - change (oneFrame
              ((lit "event: " ++ lit "error") ++ [NL]
               ++ fold_right (@app byte) [NL; NL]
                    [ lit "data: " ++ q "{^type^:^error^,^error^:{^message^:^";
                      message;
                      q "^}}" ])).
    frame.
  - change (oneFrame
              ((lit "event: " ++ lit "message_delta") ++ [NL]
               ++ fold_right (@app byte) [NL; NL]
                    [ lit "data: " ++ q "{^type^:^message_delta^,^delta^:{^stop_reason^:^";
                      stop_reason;
                      q "^,^stop_sequence^:null},^usage^:{^output_tokens^:100}}" ])).
    frame.
  - change (oneFrame
              ((lit "event: " ++ lit "message_stop") ++ [NL]
               ++ fold_right (@app byte) [NL; NL]
                    [ lit "data: " ++ q "{^type^:^message_stop^}" ])).
    frame.
Qed.

End WireFacts.

Lemma stream_ignores_fragmentation_witness :
  concat Example.refusalChunks = concat [concat Example.refusalChunks]
  /\ handler.handleStream Example.services
       {| handler.chunks := Example.refusalChunks; handler.err := None |}
       (lit "claude-3") (initial 0 [])
     = handler.handleStream Example.services
         {| handler.chunks := [concat Example.refusalChunks]; handler.err := None |}
         (lit "claude-3") (initial 0 []).
Proof.
  assert (H : concat Example.refusalChunks = concat [concat Example.refusalChunks])
    by (cbn [concat]; now rewrite app_nil_r).
  split; [exact H|].
  exact (stream_ignores_fragmentation _ Example.services Example.refusalChunks
           [concat Example.refusalChunks] None (lit "claude-3") (initial 0 []) H).
Defined.

(** ** Tool results in the conversation *)

Lemma occursIn_Join (e : gostring) (elems : list gostring) (sep : gostring) :
  In e elems -> occursIn e (strings.Join elems sep).
Proof.
  induction elems as [|x elems IH]; [intros []|].
  intros [->|H].
  - destruct elems as [|y elems]; [apply occursIn_refl|].
    now exists [], (sep ++ strings.Join (y :: elems) sep).
  - destruct elems as [|y elems]; [destruct H|].
    apply occursIn_trans with (strings.Join (y :: elems) sep); [now apply IH|].
    change (strings.Join (x :: y :: elems) sep)
      with (x ++ sep ++ strings.Join (y :: elems) sep).
    exists (x ++ sep), []. now rewrite app_nil_r, <- app_assoc.
Qed.

Lemma textsOfItem_tool_result (block : list (gostring * tools.Value)) :
  isBlockOfType (lit "tool_result") (tools.VObject block) = true ->
  anthropic.textsOfItem (tools.VObject block) = [anthropic.toolResultText block].
Proof.
  unfold isBlockOfType, anthropic.textsOfItem.
  destruct (anthropic.index block (lit "type")) as [| | |s| |]; try discriminate.
  cbn [anthropic.equalsString anthropic.stringOrZero]. intros E.
  pose proof E as E'. apply bytes_eqb_eq in E'. subst s. reflexivity.
Qed.

Section ToolResultFacts.

Variable World : Type.
Variable svc : handler.Services World.
Variable ToolDefinition : Type.
Variable lib : anthropic.Collaborators ToolDefinition.

(** X24. A tool result is never lost on the way upstream.  The text
    that [extractMessageText] makes of a list content holds the rendering
    of each of its [tool_result] blocks, header and result text, as one
    piece; that rendering is never empty, even for a result without
    content, so a message with a [tool_result] block always has a text and
    [convertToCursor] sends it upstream with its role. *)
Theorem tool_results_are_sent (role : gostring) (items : list tools.Value)
        (block : list (gostring * tools.Value)) :
  In (tools.VObject block) items ->
  isBlockOfType (lit "tool_result") (tools.VObject block) = true ->
  let msg := {| anthropic.Message.Role := role;
                anthropic.Message.Content := tools.VArray items |} in
  let text := anthropic.extractMessageText lib msg in
  occursIn (anthropic.toolResultText block) text
  /\ text <> []
  /\ forall req p,
       In msg (anthropic.MessagesRequest.Messages req) ->
       In (role, text)
          (map turnOf (browser.CursorChatRequest.Messages
                         (fst (anthropic.convertToCursor svc lib req p)))).
Proof.
  intros Hin Hty msg text.
  assert (O : occursIn (anthropic.toolResultText block) text).
  { subst text msg. unfold anthropic.extractMessageText.
    cbn [anthropic.Message.Content]. apply occursIn_Join.
    apply in_flat_map. exists (tools.VObject block). split; [exact Hin|].
    rewrite (textsOfItem_tool_result _ Hty). now left. }
  assert (N : text <> []).
  { destruct O as (a & b & E). rewrite E. unfold anthropic.toolResultText.
    change (lit "[") with ["["%byte]. destruct a; discriminate. }
  split; [exact O|]. split; [exact N|].
  intros req p Hm. rewrite (convertToCursor_spec _ svc _ lib req p).
  cbn [fst browser.CursorChatRequest.Messages].
  rewrite turnOf_cursorMessages. unfold turns. apply in_or_app. right.
  apply filter_In. split.
  - apply in_map_iff. exists msg. split; [reflexivity | exact Hm].
  - cbn [snd]. apply negb_true_iff. now apply is_empty_false.
Qed.

End ToolResultFacts.

Lemma tool_results_are_sent_witness :
  let items := [ExampleRequest.toolUse; tools.VObject ExampleRequest.emptyResult] in
  In (tools.VObject ExampleRequest.emptyResult) items
  /\ isBlockOfType (lit "tool_result") (tools.VObject ExampleRequest.emptyResult) = true
  /\ anthropic.extractMessageText ExampleRequest.lib
       {| anthropic.Message.Role := lit "user";
          anthropic.Message.Content := tools.VArray items |}
     <> [].
Proof.
  intros items.
  assert (I : In (tools.VObject ExampleRequest.emptyResult) items)
    by (right; now left).
  assert (T : isBlockOfType (lit "tool_result")
                            (tools.VObject ExampleRequest.emptyResult) = true)
    by reflexivity.
  split; [exact I|]. split; [exact T|].
  exact (proj1 (proj2 (tool_results_are_sent _ Example.services _ ExampleRequest.lib
                         (lit "user") items ExampleRequest.emptyResult I T))).
Defined.

(** ** Literal patterns *)

Lemma range_empty (s : gostring) : utf8.range s = [] -> s = [].
Proof. intros H. rewrite <- (range_bytes s), H. reflexivity. Qed.

Lemma range_length (s : gostring) : length (utf8.range s) <= length s.
Proof.
  induction s as [|s Hs IH] using decode_ind; [reflexivity|].
  rewrite range_unfold by assumption. cbn [length].
  pose proof (Decode_width s Hs) as W.
  rewrite length_skipn in IH. lia.
Qed.

(** The tokens of a text without decoding errors are valid. *)
Lemma range_valid (p : gostring) :
  forallb (fun t => negb (fst t =? utf8.RuneError)%Z) (utf8.range p) = true ->
  Forall validTok (utf8.range p).
Proof.
  intros H. rewrite forallb_forall in H.
  pose proof (range_toks p) as T. rewrite Forall_forall in *.
  intros t Hin. destruct (T t Hin) as [V|[E _]]; [exact V|].
  specialize (H t Hin). rewrite E in H. discriminate H.
Qed.

Lemma step_range (p : regexp.Pos) (t : Z * gostring) (toks : list (Z * gostring)) :
  utf8.range (regexp.rest p) = t :: toks ->
  exists p', regexp.step p = Some (fst t, p')
             /\ utf8.range (regexp.rest p') = toks
             /\ regexp.rest p = snd t ++ regexp.rest p'.
Proof.
  intros H. unfold regexp.step.
  assert (Hs : regexp.rest p <> []) by (intros E; rewrite E in H; discriminate H).
  rewrite range_unfold in H by assumption.
  destruct (regexp.rest p) as [|b s] eqn:R; [contradiction|].
  destruct (utf8.DecodeRuneInString (b :: s)) as [r w].
  cbn [fst snd] in H. injection H as <- H. eexists. split; [reflexivity|].
  cbn [regexp.rest fst snd]. split; [exact H|].
  apply eq_sym, firstn_skipn.
Qed.

(** A run of literals matches the text that encodes its runes. *)
Lemma run_literals (toks : list (Z * gostring)) (c : regexp.Caps) (p : regexp.Pos)
      (k : regexp.Cont) (z : gostring) :
  utf8.range (regexp.rest p) = toks ++ utf8.range z ->
  exists p', regexp.rest p' = z
             /\ regexp.run (regexp.seq (map (fun t => regexp.Literal (fst t)) toks))
                           c p k = k c p'.
Proof.
  revert p. induction toks as [|t toks IH]; intros p H.
  - exists p. split; [|reflexivity].
    rewrite <- (range_bytes (regexp.rest p)), H. apply range_bytes.
  - destruct (step_range p t (toks ++ utf8.range z) H) as (p1 & S1 & R1 & _).
    destruct (IH p1 R1) as (p' & Rp & Run).
    exists p'. split; [exact Rp|].
    destruct toks as [|t2 toks].
    + cbn [map regexp.seq regexp.run]. rewrite S1, Z.eqb_refl.
      cbn [map regexp.seq regexp.run] in Run. now rewrite <- Run.
    + change (regexp.seq (map (fun t => regexp.Literal (fst t)) (t :: t2 :: toks)))
        with (regexp.Concat (regexp.Literal (fst t))
                (regexp.seq (map (fun t => regexp.Literal (fst t)) (t2 :: toks)))).
      cbn [regexp.run]. rewrite S1, Z.eqb_refl. exact Run.
Qed.

(** The search tries every rune boundary of the text. *)
Lemma searchFrom_reaches (re : regexp.Regexp) (z : gostring)
      (toks : list (Z * gostring)) (rounds : nat) (p : regexp.Pos) :
  utf8.range (regexp.rest p) = toks ++ utf8.range z ->
  length toks <= rounds ->
  (forall p', regexp.rest p' = z -> regexp.matchAt re p' <> None) ->
  regexp.searchFrom rounds re p <> None.
Proof.
  intros H L M. revert rounds p H L.
  induction toks as [|t toks IH]; intros rounds p H L.
  - assert (R : regexp.rest p = z).
    { rewrite <- (range_bytes (regexp.rest p)), H. apply range_bytes. }
    specialize (M p R).
    destruct rounds; simpl; destruct (regexp.matchAt re p); congruence.
  - destruct rounds as [|rounds]; [simpl in L; lia|].
    simpl. destruct (regexp.matchAt re p); [discriminate|].
    destruct (step_range p t (toks ++ utf8.range z) H) as (p1 & S1 & R1 & _).
    rewrite S1. apply IH; [exact R1 | simpl in L; lia].
Qed.

(** A literal pattern matches every text that holds the literal. *)
Lemma literal_found (s : string) (text : gostring) :
  forallb (fun t => negb (fst t =? utf8.RuneError)%Z) (utf8.range (lit s)) = true ->
  lit s <> [] ->
  occursIn (lit s) text ->
  regexp.MatchString (regexp.str s) text = true.
Proof.
  intros G Hne (a & b & ->).
  pose proof (range_valid _ G) as V.
  assert (St : startsOrEnds (lit s ++ b)).
  { pose proof (range_bytes (lit s)) as Hb.
    destruct (utf8.range (lit s)) as [|[r bs] toks] eqn:E.
    - apply range_empty in E. contradiction.
    - inversion V as [|? ? [Hn [Hst _]] _]; subst. cbn [snd] in *.
      rewrite <- Hb. cbn [map concat snd].
      destruct bs as [|b0 bs]; [contradiction | exact Hst]. }
  assert (R : utf8.range (a ++ lit s ++ b)
              = utf8.range a ++ utf8.range (lit s ++ b))
    by (now apply range_app_start).
  assert (R2 : utf8.range (lit s ++ b) = utf8.range (lit s) ++ utf8.range b).
  { rewrite <- (range_bytes (lit s)) at 1. now apply range_valid_prefix. }
  unfold regexp.MatchString, regexp.search.
  destruct (regexp.searchFrom _ _ _) eqn:E; [reflexivity|]. exfalso.
  revert E. apply (searchFrom_reaches _ (lit s ++ b) (utf8.range a)).
  - exact R.
  - pose proof (range_length a). rewrite !length_app. lia.
  - intros p' Hp. unfold regexp.matchAt, regexp.str.
    destruct (run_literals (utf8.range (lit s)) [] p'
                (fun c p0 => Some (c, p0)) b) as (p2 & _ & Run).
    + now rewrite Hp.
    + rewrite Run. discriminate.
Qed.

(** X25. Words that decide the guessed action.  A user text whose
    lower-case form holds [execute] or [运行] is classified
    [run_command], whatever else it says, because the group of the
    run-command patterns is tried last; and a text whose lower-case form
    holds [新建] or [帮我创建] is never left without an action. *)
Theorem keywords_decide_the_action (lower : Z -> Z) (messages : list gostring) :
  let text := strings.ToLower lower (strings.Join messages (lit " ")) in
  let action := tools.Action (tools.ParseUserIntent lower messages) in
  (occursIn (lit "execute") text \/ occursIn (lit "运行") text ->
   action = lit "run_command")
  /\ (occursIn (lit "新建") text \/ occursIn (lit "帮我创建") text ->
      action <> []).
Proof.
  intros text action. subst action.
  unfold tools.ParseUserIntent. fold text. cbn [tools.Action].
  split.
  - intros H.
    assert (M : tools.anyMatch tools.cmdPatterns text = true).
    { unfold tools.anyMatch, tools.cmdPatterns. cbn [existsb].
      destruct H as [H|H].
      - rewrite (literal_found "execute" text eq_refl) by (discriminate || exact H).
        now rewrite !orb_true_r.
      - rewrite (literal_found "运行" text eq_refl) by (discriminate || exact H).
        now rewrite !orb_true_r. }
    now rewrite M.
  - intros H.
    assert (M : tools.anyMatch tools.createPatterns text = true).
    { unfold tools.anyMatch, tools.createPatterns. cbn [existsb].
      destruct H as [H|H].
      - rewrite (literal_found "新建" text eq_refl) by (discriminate || exact H).
        now rewrite !orb_true_r.
      - rewrite (literal_found "帮我创建" text eq_refl) by (discriminate || exact H).
        now rewrite !orb_true_r. }
    rewrite M.
    destruct (tools.anyMatch tools.cmdPatterns text);
      destruct (tools.anyMatch tools.readPatterns text); discriminate.
Qed.
